(** * RunbookAI: the investigation engine, embedded and checked

  A shallow embedding of the parts of the TypeScript sources that the
  specification makes promises about: the approval protocol
  (agent/approval.ts), the service dependency graph
  (knowledge/store/graph-store.ts) and its use by the service context
  manager (agent/service-context.ts), the investigation memory
  (agent/investigation-memory.ts), the context compactor
  (agent/context-compactor.ts), the scratchpad (agent/scratchpad.ts) and
  the Slack webhook receiver (webhooks/slack-webhook.ts).

  Conventions of the embedding.
  - A JavaScript string is a [string] of single-byte characters, the
    code units 0 to 255; the library functions that look at the character
    ([toLowerCase], [trim], [parseInt], the class [\s]) are given as they
    act on that range, the Latin-1 letters and the no-break space
    included.
  - An integral JavaScript number (a count, a millisecond instant) is a
    [Z] or a [nat]; a score of the compactor is a rational [Q] where the
    source computes on doubles.
  - [Date.now()] and [new Date()] read a clock: every function that reads
    it takes the instant read as an argument.
  - A [Map] or [Set] whose iteration order the code depends on is an
    association list in insertion order; a [Map] only ever looked up by key
    is a [gmap]. *)

From Stdlib Require Import ZArith QArith Qminmax Qround Lqa Ascii String List Bool Lia.
From Stdlib Require Import DecimalString.
From stdpp Require Import base option gmap strings list.

Local Open Scope string_scope.
Local Open Scope list_scope.
Local Open Scope Z_scope.

(** ** JavaScript string primitives *)

Module JsString.

(** [c.toLowerCase()] on one character: the capitals A to Z (65 to 90)
    and those of Latin-1 (192 to 222, the multiplication sign 215 apart)
    have their small letter 32 places on; every other character below 256
    is left as it is. *)
Definition lower_ascii (c : ascii) : ascii :=
  let n := nat_of_ascii c in
  if ((Nat.leb 65 n && Nat.leb n 90)
      || (Nat.leb 192 n && Nat.leb n 222 && negb (Nat.eqb n 215)))%bool
  then ascii_of_nat (n + 32) else c.

(** [s.toLowerCase()] *)
Fixpoint toLowerCase (s : string) : string :=
  match s with
  | EmptyString => EmptyString
  | String c s' => String (lower_ascii c) (toLowerCase s')
  end.

(** [s.startsWith(p)] *)
Fixpoint startsWith (s p : string) : bool :=
  match p, s with
  | EmptyString, _ => true
  | String _ _, EmptyString => false
  | String a p', String b s' => if Ascii.eqb a b then startsWith s' p' else false
  end.

(** [s.includes(sub)]: [sub] starts at some position of [s]. *)
Fixpoint includes (s sub : string) : bool :=
  if startsWith s sub then true
  else match s with
       | EmptyString => false
       | String _ s' => includes s' sub
       end.

(** [kws.some(kw => s.includes(kw))] *)
Definition includesAny (s : string) (kws : list string) : bool :=
  existsb (includes s) kws.

(** [s.slice(0, n)] for [0 <= n]. *)
Fixpoint take (n : nat) (s : string) : string :=
  match n, s with
  | O, _ => EmptyString
  | S _, EmptyString => EmptyString
  | S n', String c s' => String c (take n' s')
  end.

(** [s.slice(-n)] for [0 < n]: the last [n] characters, or all of [s]. *)
Definition takeLast (n : nat) (s : string) : string :=
  string_of_list_ascii (List.skipn (String.length s - n) (list_ascii_of_string s)).

(** White space below 256, the same for the class [\s], for [trim] and
    for [parseInt]: tab, line feed, vertical tab, form feed, carriage
    return (9 to 13), space (32) and no-break space (160). *)
Definition isSpace (c : ascii) : bool :=
  let n := nat_of_ascii c in
  ((Nat.leb 9 n && Nat.leb n 13) || Nat.eqb n 32 || Nat.eqb n 160)%bool.

(** [s.split(/\s+/)]: a maximal run of white space is one separator, and
    a separator at either end leaves an empty piece there, so the result
    is never empty. [cur] is the piece being read, reversed; [sep] tells
    that the previous character was white space. *)
Fixpoint splitWsAux (s : string) (cur : list ascii) (sep : bool) : list string :=
  match s with
  | EmptyString => [string_of_list_ascii (List.rev cur)]
  | String c s' =>
      if isSpace c then
        if sep then splitWsAux s' cur true
        else string_of_list_ascii (List.rev cur) :: splitWsAux s' [] true
      else splitWsAux s' (c :: cur) false
  end.

Definition splitWs (s : string) : list string := splitWsAux s [] false.

(** [String(n)] for a natural number: its decimal digits. *)
Definition ofNat (n : nat) : string := NilZero.string_of_uint (Nat.to_uint n).

(** [xs.includes(x)] on an array of strings. *)
Definition mem (x : string) (xs : list string) : bool :=
  existsb (String.eqb x) xs.

(** [new Set(xs)] as the list of its elements in insertion order. *)
Fixpoint toSet (xs : list string) : list string :=
  match xs with
  | [] => []
  | x :: xs' => let r := toSet xs' in
                x :: List.filter (fun y => negb (String.eqb x y)) r
  end.

End JsString.

(** ** Approval protocol (agent/approval.ts) *)

Module Approval.
Import JsString.

Inductive RiskLevel := low | medium | high | critical.

(** [classifyRisk(operation, resource)] *)
Definition classifyRisk (operation resource : string) : RiskLevel :=
  let op := toLowerCase operation in
  let res := toLowerCase resource in
  if (includes op "delete" || includes op "terminate" || includes op "destroy")%bool
  then critical
  else if (includes op "truncate" || includes op "drop")%bool then critical
  else if ((includes res "production" || includes res "prod")
           && (includes op "update" || includes op "modify"))%bool then high
  else if (includes op "restart" || includes op "reboot" || includes op "stop")%bool
  then high
  else if (includes op "scale" && includes res "down")%bool then high
  else if (includes op "deploy" || includes op "update-service")%bool then high
  else if (includes op "update" || includes op "modify" || includes op "change")%bool
  then medium
  else if includes op "scale" then medium
  else low.

(** The classification as the specification words it: four tiers, by the
    operation's words, with "production" read off the resource. *)
Definition classifyRisk_spec (operation resource : string) : RiskLevel :=
  let op := toLowerCase operation in
  let res := toLowerCase resource in
  if includesAny op ["delete"; "terminate"; "destroy"; "truncate"; "drop"]
  then critical
  else if (includesAny op ["restart"; "reboot"; "stop"; "scale-down";
                           "deploy"; "update-service"]
           || (includesAny op ["update"; "modify"]
               && includesAny res ["production"; "prod"]))%bool
  then high
  else if includesAny op ["update"; "modify"; "scale"] then medium
  else low.

Record CooldownResult := { allowed : bool; remainingMs : Z }.

(** The module-level [recentMutations: Map<string, Date>], a date being
    its millisecond instant. *)
Abbreviation MutationLog := (gmap string Z).

(** [checkCooldown(operation, cooldownMs = 60000)], reading the clock at
    [now]. *)
Definition checkCooldown (operation : string) (cooldownMs : option Z)
    (now : Z) (recentMutations : MutationLog) : CooldownResult :=
  let cooldownMs := default 60000 cooldownMs in
  match recentMutations !! "critical" with
  | None => {| allowed := true; remainingMs := 0 |}
  | Some lastMutation =>
      let elapsed := now - lastMutation in
      if elapsed >=? cooldownMs
      then {| allowed := true; remainingMs := 0 |}
      else {| allowed := false; remainingMs := cooldownMs - elapsed |}
  end.

(** [recordCriticalMutation()], reading the clock at [now]. *)
Definition recordCriticalMutation (now : Z) (recentMutations : MutationLog)
    : MutationLog :=
  <["critical" := now]> recentMutations.

(** The log after the process recorded critical mutations at the instants
    [times], oldest first, starting from the empty map the module creates. *)
Definition logAfter (times : list Z) : MutationLog :=
  fold_left (fun m t => recordCriticalMutation t m) times ∅.

End Approval.

(** ** JavaScript [Map] and [Set] in insertion order *)

Module JsMap.

Section WithValue.
Context {V : Type}.

(** [m.get(k)] *)
Fixpoint mget (k : string) (m : list (string * V)) : option V :=
  match m with
  | [] => None
  | (k', v) :: m' => if String.eqb k k' then Some v else mget k m'
  end.

(** [m.has(k)] *)
Definition mhas (k : string) (m : list (string * V)) : bool :=
  match mget k m with Some _ => true | None => false end.

(** [m.set(k, v)]: an existing key keeps its place, a new key goes last. *)
Fixpoint mset (k : string) (v : V) (m : list (string * V)) : list (string * V) :=
  match m with
  | [] => [(k, v)]
  | (k', v') :: m' =>
      if String.eqb k k' then (k, v) :: m' else (k', v') :: mset k v m'
  end.

(** [m.delete(k)] *)
Definition mdelete (k : string) (m : list (string * V)) : list (string * V) :=
  List.filter (fun kv => negb (String.eqb k (fst kv))) m.

(** [Array.from(m.values())] *)
Definition mvalues (m : list (string * V)) : list V := List.map snd m.

End WithValue.

(** [s.add(x)] on a [Set<string>]. *)
Definition sadd (x : string) (s : list string) : list string :=
  if JsString.mem x s then s else s ++ [x].

(** [s.delete(x)] on a [Set<string>]. *)
Definition sdelete (x : string) (s : list string) : list string :=
  List.filter (fun y => negb (String.eqb x y)) s.

End JsMap.

(** ** Service dependency graph (knowledge/store/graph-store.ts) *)

Module Graph.
Import JsString JsMap.

Inductive ServiceType := service | database | cache | queue | external | infrastructure.
Inductive Tier := tier_critical | tier_high | tier_medium | tier_low.
Inductive EdgeType := sync | async | edge_database | edge_cache | edge_queue | edge_external.
Inductive Criticality := critical | degraded | optional.

(** A [Date] is its millisecond instant. [metadata] is kept as the list of
    its entries, values serialized. *)
Record ServiceNode := {
  id : string;
  name : string;
  type : ServiceType;
  team : option string;
  owner : option string;
  tier : option Tier;
  repository : option string;
  documentation : option string;
  runbooks : option (list string);
  tags : list string;
  metadata : list (string * string);
  createdAt : Z;
  updatedAt : Z
}.

Record DependencyEdge := {
  edge_id : string;
  source : string;
  target : string;
  edge_type : EdgeType;
  protocol : option string;
  criticality : Criticality;
  description : option string;
  edge_metadata : list (string * string)
}.

Record ImpactPath := {
  impact_source : string;
  affected : string;
  path : list string;
  hops : nat;
  impact_criticality : Criticality
}.

(** The four private maps of [ServiceGraph]. *)
Record ServiceGraph := {
  nodes : list (string * ServiceNode);
  edges : list (string * DependencyEdge);
  outgoing : list (string * list string);
  incoming : list (string * list string)
}.

(** [new ServiceGraph()] *)
Definition empty : ServiceGraph :=
  {| nodes := []; edges := []; outgoing := []; incoming := [] |}.

(** [addService(service)], the clock read at [now]. The spread
    [{...service, createdAt: now, updatedAt: now}] overwrites whatever
    timestamps the argument carries. *)
Definition addService (service : ServiceNode) (now : Z) (g : ServiceGraph)
    : ServiceGraph :=
  let node := {| id := id service; name := name service; type := type service;
                 team := team service; owner := owner service; tier := tier service;
                 repository := repository service;
                 documentation := documentation service;
                 runbooks := runbooks service; tags := tags service;
                 metadata := metadata service;
                 createdAt := now; updatedAt := now |} in
  {| nodes := mset (id service) node (nodes g);
     edges := edges g;
     outgoing := if mhas (id service) (outgoing g) then outgoing g
                 else mset (id service) [] (outgoing g);
     incoming := if mhas (id service) (incoming g) then incoming g
                 else mset (id service) [] (incoming g) |}.

(** [getService(id)] *)
Definition getService (i : string) (g : ServiceGraph) : option ServiceNode :=
  mget i (nodes g).

(** The edge id [`${source}->${target}`]. *)
Definition edgeId (src tgt : string) : string := src +:+ "->" +:+ tgt.

(** [addDependency(edge)]: the id is recomputed from the end points. *)
Definition addDependency (edge : DependencyEdge) (g : ServiceGraph) : ServiceGraph :=
  let i := edgeId (source edge) (target edge) in
  let fullEdge := {| edge_id := i; source := source edge; target := target edge;
                     edge_type := edge_type edge; protocol := protocol edge;
                     criticality := criticality edge;
                     description := description edge;
                     edge_metadata := edge_metadata edge |} in
  let out0 := if mhas (source edge) (outgoing g) then outgoing g
              else mset (source edge) [] (outgoing g) in
  let out1 := mset (source edge)
                (sadd i (default [] (mget (source edge) out0))) out0 in
  let in0 := if mhas (target edge) (incoming g) then incoming g
             else mset (target edge) [] (incoming g) in
  let in1 := mset (target edge)
               (sadd i (default [] (mget (target edge) in0))) in0 in
  {| nodes := nodes g; edges := mset i fullEdge (edges g);
     outgoing := out1; incoming := in1 |}.

(** [getDependency(source, target)] *)
Definition getDependency (src tgt : string) (g : ServiceGraph)
    : option DependencyEdge :=
  mget (edgeId src tgt) (edges g).

(** [getAllServices()] and [getAllEdges()] *)
Definition getAllServices (g : ServiceGraph) : list ServiceNode := mvalues (nodes g).
Definition getAllEdges (g : ServiceGraph) : list DependencyEdge := mvalues (edges g).

(** The table [order] of [mergeCriticality]. *)
Definition order (c : Criticality) : Z :=
  match c with critical => 0 | degraded => 1 | optional => 2 end.

(** [mergeCriticality(a, b)] *)
Definition mergeCriticality (a b : Criticality) : Criticality :=
  if order a <=? order b then a else b.

(** [paths.sort((a, b) => a.hops - b.hops)]: the sort is stable, so it is
    the insertion of each path before the first later path with at least
    as many hops. *)
Fixpoint insertByHops (p : ImpactPath) (l : list ImpactPath) : list ImpactPath :=
  match l with
  | [] => [p]
  | q :: l' => if Nat.leb (hops p) (hops q) then p :: q :: l'
               else q :: insertByHops p l'
  end.

Definition sortByHops (l : list ImpactPath) : list ImpactPath :=
  fold_right insertByHops [] l.

(** The closure [traverse] of [getUpstreamImpact] ([up = true], over
    [incoming], stepping to the edge's source) and of [getDownstreamImpact]
    ([up = false], over [outgoing], stepping to the edge's target). The
    shared [paths] and [visited] are threaded as a pair. [budget] is
    [maxDepth + 1 - depth], so [budget = 0] is the test [depth > maxDepth]. *)
Fixpoint traverse (g : ServiceGraph) (up : bool) (serviceId : string)
    (budget : nat) (current : string) (path : list string)
    (crit : Criticality) (st : list ImpactPath * list string)
    : list ImpactPath * list string :=
  match budget with
  | O => st
  | S budget' =>
      if mem current (snd st) then st
      else
        let edgeIds := default [] (mget current (if up then incoming g else outgoing g)) in
        fold_left
          (fun st eid =>
             match mget eid (edges g) with
             | None => st
             | Some edge =>
                 let next := if up then source edge else target edge in
                 let newPath := path ++ [next] in
                 let newCriticality := mergeCriticality crit (criticality edge) in
                 let pushed :=
                   (fst st ++ [{| impact_source := serviceId; affected := next;
                                  path := newPath; hops := List.length newPath;
                                  impact_criticality := newCriticality |}],
                    snd st) in
                 traverse g up serviceId budget' next newPath newCriticality pushed
             end)
          edgeIds (fst st, sadd current (snd st))
  end.

(** [getUpstreamImpact(serviceId, maxDepth = 5)] *)
Definition getUpstreamImpact (g : ServiceGraph) (serviceId : string)
    (maxDepth : option Z) : list ImpactPath :=
  let maxDepth := default 5 maxDepth in
  sortByHops (fst (traverse g true serviceId (Z.to_nat (maxDepth + 1))
                     serviceId [serviceId] critical ([], []))).

(** [getDownstreamImpact(serviceId, maxDepth = 5)] *)
Definition getDownstreamImpact (g : ServiceGraph) (serviceId : string)
    (maxDepth : option Z) : list ImpactPath :=
  let maxDepth := default 5 maxDepth in
  sortByHops (fst (traverse g false serviceId (Z.to_nat (maxDepth + 1))
                     serviceId [serviceId] critical ([], []))).

(** The JSON document of a graph, after [JSON.parse]: [JSON.stringify]
    writes a [Date] as its ISO-8601 string, [new Date(iso)] reads the same
    instant back, so a date in the document is that instant. *)
Record GraphDocument := {
  doc_nodes : list ServiceNode;
  doc_edges : list DependencyEdge
}.

(** [toJSON()] *)
Definition toJSON (g : ServiceGraph) : GraphDocument :=
  {| doc_nodes := mvalues (nodes g); doc_edges := mvalues (edges g) |}.

(** [ServiceGraph.fromJSON(json)]; [clock k] is the instant the [k]-th call
    of [addService] reads. *)
Definition fromJSON (doc : GraphDocument) (clock : nat -> Z) : ServiceGraph :=
  let g1 := fst (fold_left
                   (fun (acc : ServiceGraph * nat) node =>
                      (addService node (clock (snd acc)) (fst acc), S (snd acc)))
                   (doc_nodes doc) (empty, O)) in
  fold_left (fun g edge => addDependency edge g) (doc_edges doc) g1.

(** The least criticality, in the order critical < degraded < optional,
    among the edges joining the consecutive nodes of a stored path; [None]
    when the path has no edge or one of its steps is not an edge. For an
    upstream path the step from [a] to [b] is the edge [b -> a]. *)
Fixpoint pathEdges (g : ServiceGraph) (up : bool) (p : list string)
    : option (list Criticality) :=
  match p with
  | a :: ((b :: _) as rest) =>
      match (if up then getDependency b a g else getDependency a b g),
            pathEdges g up rest with
      | Some e, Some cs => Some (criticality e :: cs)
      | _, _ => None
      end
  | _ => Some []
  end.

Definition minCriticality (cs : list Criticality) : option Criticality :=
  match cs with
  | [] => None
  | c :: cs' => Some (fold_left mergeCriticality cs' c)
  end.

Definition pathMinCriticality (g : ServiceGraph) (up : bool) (p : list string)
    : option Criticality :=
  match pathEdges g up p with
  | Some cs => minCriticality cs
  | None => None
  end.

End Graph.

(** ** Service context manager (agent/service-context.ts) *)

Module ServiceContext.
Import JsString JsMap Graph.

Record BlastRadiusInfo := {
  directDependents : list ServiceNode;
  transitiveDependents : list ServiceNode;
  criticalServicesAffected : list ServiceNode;
  totalAffected : nat;
  criticalPaths : list ImpactPath
}.

(** The five accumulators of the loop of [calculateBlastRadius]. *)
Record BlastAcc := {
  acc_direct : list ServiceNode;
  acc_transitive : list ServiceNode;
  acc_critical : list ServiceNode;
  acc_paths : list ImpactPath;
  acc_seen : list string
}.

Definition isCriticalTier (t : option Tier) : bool :=
  match t with Some tier_critical => true | _ => false end.

Definition isCritical (c : Criticality) : bool :=
  match c with critical => true | _ => false end.

(** One turn of [for (const path of impactPaths)]. *)
Definition blastStep (g : ServiceGraph) (a : BlastAcc) (p : ImpactPath) : BlastAcc :=
  if mem (affected p) (acc_seen a) then a
  else
    let seen := sadd (affected p) (acc_seen a) in
    match getService (affected p) g with
    | None =>
        {| acc_direct := acc_direct a; acc_transitive := acc_transitive a;
           acc_critical := acc_critical a; acc_paths := acc_paths a;
           acc_seen := seen |}
    | Some affectedService =>
        let direct := if Nat.eqb (hops p) 1
                      then acc_direct a ++ [affectedService] else acc_direct a in
        let transitive := if Nat.eqb (hops p) 1 then acc_transitive a
                          else acc_transitive a ++ [affectedService] in
        let crit := if isCriticalTier (tier affectedService)
                    then acc_critical a ++ [affectedService] else acc_critical a in
        let paths := if (isCriticalTier (tier affectedService)
                         && isCritical (impact_criticality p))%bool
                     then acc_paths a ++ [p] else acc_paths a in
        {| acc_direct := direct; acc_transitive := transitive;
           acc_critical := crit; acc_paths := paths; acc_seen := seen |}
    end.

(** [calculateBlastRadius(serviceId)], with the manager's graph and its
    [config.maxDependentsDepth]. *)
Definition calculateBlastRadius (g : ServiceGraph) (maxDependentsDepth : Z)
    (serviceId : string) : BlastRadiusInfo :=
  let impactPaths := getUpstreamImpact g serviceId (Some maxDependentsDepth) in
  let a := fold_left (blastStep g) impactPaths
             {| acc_direct := []; acc_transitive := []; acc_critical := [];
                acc_paths := []; acc_seen := [] |} in
  {| directDependents := acc_direct a;
     transitiveDependents := acc_transitive a;
     criticalServicesAffected := acc_critical a;
     totalAffected := (List.length (acc_direct a) + List.length (acc_transitive a))%nat;
     criticalPaths := acc_paths a |}.

End ServiceContext.

(** ** Investigation memory (agent/investigation-memory.ts) *)

Module Memory.
Import JsString.

Inductive FindingType :=
  | symptom | evidence | hypothesis_update | root_cause_candidate
  | remediation_step | escalation | service_impact.

(** Modelled from the spec: the type [ConfidenceLevel] of agent/types.ts is
    not among the sources; the code uses the three levels below. *)
Inductive ConfidenceLevel := conf_low | conf_medium | conf_high.

(** Modelled from the spec: the type [EvidenceStrength] of agent/types.ts
    is not among the sources; the specification lists its five values. *)
Inductive EvidenceStrength := pending | none | weak | strong | contradicting.

(** Modelled from the spec: the type [Hypothesis] of agent/types.ts is not
    among the sources; the memory reads its [id] and [statement] only.
    ([Hypothesis] is a reserved word here.) *)
Record HypothesisT := { hyp_id : string; statement : string }.

Inductive HypothesisAction := formed | pruned | confirmed.

Record InvestigationNote := {
  note_id : string;
  note_type : FindingType;
  content : string;
  confidence : ConfidenceLevel;
  evidenceStrength : option EvidenceStrength;
  sourceResultIds : list string;
  servicesInvolved : list string;
  hypothesisId : option string;
  timestamp : string;
  iteration : nat
}.

Record RootCause := {
  rc_hypothesis : string;
  rc_confidence : ConfidenceLevel;
  rc_evidence : list string
}.

Record InvestigationState := {
  query : string;
  incidentId : option string;
  sessionId : string;
  notes : list InvestigationNote;
  progressSummary : string;
  servicesDiscovered : list string;
  symptomsIdentified : list string;
  activeHypotheses : list string;
  prunedHypotheses : list string;
  confirmedRootCause : option RootCause;
  currentIteration : nat;
  startedAt : string;
  lastUpdatedAt : string
}.

(** The state the constructor builds; [now] is the ISO instant it reads. *)
Definition initialState (q : string) (incident : option string) (sid now : string)
    : InvestigationState :=
  {| query := q; incidentId := incident; sessionId := sid; notes := [];
     progressSummary := "Investigation started."; servicesDiscovered := [];
     symptomsIdentified := []; activeHypotheses := []; prunedHypotheses := [];
     confirmedRootCause := None; currentIteration := O;
     startedAt := now; lastUpdatedAt := now |}.

(** The [options] of [addNote]. *)
Record NoteOptions := {
  opt_confidence : option ConfidenceLevel;
  opt_evidenceStrength : option EvidenceStrength;
  opt_sourceResultIds : option (list string);
  opt_servicesInvolved : option (list string);
  opt_hypothesisId : option string
}.

(** What one call of [addNote] reads from outside: the note id it draws
    (from the clock and [Math.random]) and the ISO instant. *)
Record NoteEnv := { env_id : string; env_now : string }.

(** [addNote(type, content, options)]: the new state and the note. *)
Definition addNote (ty : FindingType) (text : string) (o : NoteOptions)
    (env : NoteEnv) (st : InvestigationState)
    : InvestigationState * InvestigationNote :=
  let note := {| note_id := env_id env; note_type := ty; content := text;
                 confidence := default conf_medium (opt_confidence o);
                 evidenceStrength := opt_evidenceStrength o;
                 sourceResultIds := default [] (opt_sourceResultIds o);
                 servicesInvolved := default [] (opt_servicesInvolved o);
                 hypothesisId := opt_hypothesisId o;
                 timestamp := env_now env;
                 iteration := currentIteration st |} in
  let newServices :=
    List.filter (fun s => negb (mem s (servicesDiscovered st)))
      (servicesInvolved note) in
  ({| query := query st; incidentId := incidentId st; sessionId := sessionId st;
      notes := notes st ++ [note];
      progressSummary := progressSummary st;
      servicesDiscovered := servicesDiscovered st ++ newServices;
      symptomsIdentified := symptomsIdentified st;
      activeHypotheses := activeHypotheses st;
      prunedHypotheses := prunedHypotheses st;
      confirmedRootCause := confirmedRootCause st;
      currentIteration := currentIteration st;
      startedAt := startedAt st;
      lastUpdatedAt := timestamp note |}, note).

(** [addEvidence(hypothesisId, evidence, strength, options)] *)
Definition addEvidence (hid text : string) (strength : EvidenceStrength)
    (sourceResultId : option string) (services : option (list string))
    (env : NoteEnv) (st : InvestigationState)
    : InvestigationState * InvestigationNote :=
  addNote evidence text
    {| opt_confidence := Some (match strength with
                               | strong => conf_high
                               | weak => conf_low
                               | _ => conf_medium
                               end);
       opt_evidenceStrength := Some strength;
       opt_sourceResultIds :=
         Some (match sourceResultId with
               | Some r => if String.eqb r "" then [] else [r]
               | None => []
               end);
       opt_servicesInvolved := Some (default [] services);
       opt_hypothesisId := Some hid |} env st.

Definition isEvidence (t : FindingType) : bool :=
  match t with evidence => true | _ => false end.

Definition actionName (a : HypothesisAction) : string :=
  match a with formed => "formed" | pruned => "pruned" | confirmed => "confirmed" end.

(** [n.hypothesisId === hypothesis.id] *)
Definition attachedTo (hid : string) (n : InvestigationNote) : bool :=
  match hypothesisId n with Some h => String.eqb h hid | None => false end.

(** [addHypothesisUpdate(hypothesis, action, reasoning)] *)
Definition addHypothesisUpdate (h : HypothesisT) (action : HypothesisAction)
    (reasoning : option string) (env : NoteEnv) (st : InvestigationState)
    : InvestigationState * InvestigationNote :=
  let active1 :=
    match action with
    | formed | confirmed =>
        if mem (hyp_id h) (activeHypotheses st) then activeHypotheses st
        else activeHypotheses st ++ [hyp_id h]
    | pruned => activeHypotheses st
    end in
  let active2 :=
    match action with
    | pruned => List.filter (fun i => negb (String.eqb i (hyp_id h))) active1
    | _ => active1
    end in
  let pruned2 :=
    match action with
    | pruned => if mem (hyp_id h) (prunedHypotheses st) then prunedHypotheses st
                else prunedHypotheses st ++ [hyp_id h]
    | _ => prunedHypotheses st
    end in
  let root :=
    match action with
    | confirmed =>
        Some {| rc_hypothesis := statement h; rc_confidence := conf_high;
                rc_evidence :=
                  List.map content
                    (List.filter
                       (fun n => (attachedTo (hyp_id h) n && isEvidence (note_type n))%bool)
                       (notes st)) |}
    | _ => confirmedRootCause st
    end in
  let text := "Hypothesis " +:+ hyp_id h +:+ " " +:+ actionName action +:+ ": "
              +:+ statement h
              +:+ match reasoning with
                  | Some r => if String.eqb r "" then "" else ". Reasoning: " +:+ r
                  | None => ""
                  end in
  addNote hypothesis_update text
    {| opt_confidence := Some (match action with
                               | confirmed => conf_high
                               | _ => conf_medium
                               end);
       opt_evidenceStrength := None; opt_sourceResultIds := None;
       opt_servicesInvolved := None; opt_hypothesisId := Some (hyp_id h) |}
    env
    {| query := query st; incidentId := incidentId st; sessionId := sessionId st;
       notes := notes st; progressSummary := progressSummary st;
       servicesDiscovered := servicesDiscovered st;
       symptomsIdentified := symptomsIdentified st;
       activeHypotheses := active2; prunedHypotheses := pruned2;
       confirmedRootCause := root; currentIteration := currentIteration st;
       startedAt := startedAt st; lastUpdatedAt := lastUpdatedAt st |}.

(** The contents of the strong-evidence notes attached to a hypothesis, as
    the specification words the evidence of a confirmed root cause. *)
Definition strongEvidenceContents (hid : string) (st : InvestigationState)
    : list string :=
  List.map content
    (List.filter
       (fun n => (attachedTo hid n
                  && match evidenceStrength n with Some strong => true | _ => false end)%bool)
       (notes st)).

End Memory.

(** ** Tool results (agent/types.ts, agent/tool-summarizer.ts) *)

Module Types.

(** A value read off [args] only for its truth and for being a string. *)
Inductive ArgValue :=
  | ArgUndefined
  | ArgString (s : string)
  | ArgOther (truthy : bool).

(** Modelled from the spec: [args] is a schema-less JSON object whose type
    is declared in agent/types.ts, not among the sources. The code reads
    the three members below and the text [JSON.stringify(args)], which is
    carried as data. *)
Record Args := {
  arg_query : ArgValue;
  arg_search : ArgValue;
  arg_filter : ArgValue;
  args_json : string
}.

(** The payload of a result: a string, or any other value together with
    its [JSON.stringify] text. *)
Inductive Payload :=
  | PayloadString (s : string)
  | PayloadJson (json : string).

(** [typeof result === 'string' ? result : JSON.stringify(result)] *)
Definition payloadText (p : Payload) : string :=
  match p with PayloadString s => s | PayloadJson j => j end.

(** Modelled from the spec: [ToolResultEntry] of agent/types.ts is not
    among the sources; the fields are those the scratchpad copies. The
    field [type] is the constant ['tool_result']. *)
Record ToolResultEntry := {
  tool : string;
  args : Args;
  result : Payload;
  durationMs : Z;
  timestamp : string
}.

Inductive HealthStatus := health_ok | health_degraded | health_critical | health_unknown.

(** Modelled from the spec: [CompactToolResult] of agent/tool-summarizer.ts
    is not among the sources; the specification gives its shape. *)
Record CompactToolResult := {
  resultId : string;
  summary : string;
  services : list string;
  healthStatus : HealthStatus;
  hasErrors : bool
}.

Inductive StorageTier := full | compact | cleared.

End Types.

(** ** Context compactor (agent/context-compactor.ts) *)

Module Compactor.
Import JsString Types.
Local Open Scope Q_scope.

Record ScoreComponents := {
  recency : Q;
  queryRelevance : Q;
  errorSignals : Q;
  hypothesisRelevance : Q;
  serviceRelevance : Q;
  citedInNotes : Q
}.

Record ScoreWeights := {
  w_recency : Q;
  w_queryRelevance : Q;
  w_errorSignals : Q;
  w_hypothesisRelevance : Q;
  w_serviceRelevance : Q;
  w_citedInNotes : Q
}.

Record CompactorConfig := {
  weights : ScoreWeights;
  maxFullResults : Z;
  maxCompactResults : Z;
  minScoreForFull : Q;
  minScoreToKeep : Q;
  tokensPerFullResult : Z;
  tokensPerCompactResult : Z
}.

Definition DEFAULT_CONFIG : CompactorConfig :=
  {| weights := {| w_recency := 20 # 100; w_queryRelevance := 20 # 100;
                   w_errorSignals := 20 # 100; w_hypothesisRelevance := 15 # 100;
                   w_serviceRelevance := 10 # 100; w_citedInNotes := 15 # 100 |};
     maxFullResults := 10; maxCompactResults := 15;
     minScoreForFull := 6 # 10; minScoreToKeep := 2 # 10;
     tokensPerFullResult := 2000; tokensPerCompactResult := 150 |}.

(** The entry a result carries into the plan. The scratchpad hands its
    tiered results to the compactor, so an entry may carry a [resultId];
    [applyCompactionPlan] reads it back by a cast. *)
Record PlanEntry := {
  entry_base : ToolResultEntry;
  entry_resultId : option string
}.

Record ScoredResult := {
  entry : PlanEntry;
  score : Q;
  components : ScoreComponents;
  scored_compact : option CompactToolResult;
  keepFull : bool
}.

Record CompactionPlan := {
  plan_keepFull : list ScoredResult;
  plan_keepCompact : list ScoredResult;
  plan_clear : list ScoredResult;
  estimatedTokensSaved : Z
}.

(** [scoreRecency(resultIndex, totalResults)] *)
Definition scoreRecency (resultIndex totalResults : nat) : Q :=
  if Nat.leb totalResults 1 then 1
  else (1 # 10) + (9 # 10) * (inject_Z (Z.of_nat resultIndex)
                              / inject_Z (Z.of_nat (totalResults - 1))).

(** [scoreQueryRelevance(entry, query)] *)
Definition scoreQueryRelevance (e : ToolResultEntry) (query : string) : Q :=
  let queryWords :=
    toSet (List.filter (fun w => Nat.ltb 2 (String.length w))
             (splitWs (toLowerCase query))) in
  let argsStr := toLowerCase (args_json (args e)) in
  let resultStr := toLowerCase (payloadText (result e)) in
  let matchCount :=
    List.length (List.filter (fun w => (includes argsStr w || includes resultStr w)%bool)
                   queryWords) in
  Qmin 1 (inject_Z (Z.of_nat matchCount)
          / inject_Z (Z.of_nat (Nat.max 1 (List.length queryWords)))).

(** [scoreErrorSignals(entry, compact)] *)
Definition scoreErrorSignals (e : ToolResultEntry) (c : option CompactToolResult) : Q :=
  match c with
  | Some {| hasErrors := true |} => 1
  | Some {| healthStatus := health_critical |} => 1
  | Some {| healthStatus := health_degraded |} => 7 # 10
  | _ =>
      let resultStr := toLowerCase (payloadText (result e)) in
      if includesAny resultStr ["error"; "failed"; "exception"; "critical"; "alarm"]
      then 1
      else if includesAny resultStr ["warning"; "timeout"; "unhealthy"; "degraded"]
      then 6 # 10
      else 0
  end.

(** [resultMatchesId(entry, resultId)] *)
Definition resultMatchesId (e : ToolResultEntry) (rid : string) : bool :=
  startsWith rid (take 3 (tool e)).

(** The loop over [evidenceNotes] of [scoreHypothesisRelevance]: the score
    of the first evidence note for one of [hypothesisIds] that names a
    matching result id. *)
Fixpoint firstEvidenceMatch (e : ToolResultEntry) (hypothesisIds : list string)
    (ns : list Memory.InvestigationNote) : option Q :=
  match ns with
  | [] => None
  | n :: ns' =>
      match Memory.hypothesisId n with
      | Some h =>
          if (Memory.isEvidence (Memory.note_type n) && negb (String.eqb h "")
              && mem h hypothesisIds
              && existsb (resultMatchesId e) (Memory.sourceResultIds n))%bool
          then Some (match Memory.evidenceStrength n with
                     | Some Memory.strong => 1
                     | _ => 7 # 10
                     end)
          else firstEvidenceMatch e hypothesisIds ns'
      | None => firstEvidenceMatch e hypothesisIds ns'
      end
  end.

(** [scoreHypothesisRelevance(entry, investigationState, activeHypotheses)] *)
Definition scoreHypothesisRelevance (e : ToolResultEntry)
    (investigationState : option Memory.InvestigationState)
    (activeHypotheses : option (list string)) : Q :=
  match investigationState, activeHypotheses with
  | None, None => 0
  | _, _ =>
      let hypothesisIds :=
        match activeHypotheses with
        | Some a => a
        | None => match investigationState with
                  | Some st => Memory.activeHypotheses st
                  | None => []
                  end
        end in
      match hypothesisIds with
      | [] => 0
      | _ =>
          let argsStr := toLowerCase (args_json (args e)) in
          let bySymptom :=
            match investigationState with
            | Some st =>
                if existsb (fun s => includes argsStr (take 20 (toLowerCase s)))
                     (Memory.symptomsIdentified st)
                then 5 # 10 else 0
            | None => 0
            end in
          match investigationState with
          | Some st =>
              match firstEvidenceMatch e hypothesisIds (Memory.notes st) with
              | Some s => s
              | None => bySymptom
              end
          | None => bySymptom
          end
      end
  end.

(** The loop over the services of [scoreServiceRelevance]. *)
Fixpoint firstServiceMatch (resultServices : list string) (argsStr resultStr : string)
    (svcs : list string) : Q :=
  match svcs with
  | [] => 0
  | s :: svcs' =>
      let serviceLower := toLowerCase s in
      if existsb (fun r => includes (toLowerCase r) serviceLower) resultServices
      then 1
      else if (includes argsStr serviceLower || includes resultStr serviceLower)%bool
      then 8 # 10
      else firstServiceMatch resultServices argsStr resultStr svcs'
  end.

(** [scoreServiceRelevance(entry, servicesUnderInvestigation, compact)] *)
Definition scoreServiceRelevance (e : ToolResultEntry)
    (servicesUnderInvestigation : option (list string))
    (c : option CompactToolResult) : Q :=
  match servicesUnderInvestigation with
  | None | Some [] => 0
  | Some svcs =>
      firstServiceMatch (match c with Some c' => services c' | None => [] end)
        (toLowerCase (args_json (args e)))
        (toLowerCase (payloadText (result e))) svcs
  end.

(** [scoreCitedInNotes(resultId, resultIdToCited)]; the map holds [true]
    at exactly the ids of [cited]. *)
Definition scoreCitedInNotes (rid : option string) (cited : option (list string)) : Q :=
  match rid, cited with
  | Some r, Some ids =>
      if String.eqb r "" then 0 else if mem r ids then 1 else 0
  | _, _ => 0
  end.

(** [computeWeightedScore(components)] *)
Definition computeWeightedScore (cfg : CompactorConfig) (c : ScoreComponents) : Q :=
  recency c * w_recency (weights cfg)
  + queryRelevance c * w_queryRelevance (weights cfg)
  + errorSignals c * w_errorSignals (weights cfg)
  + hypothesisRelevance c * w_hypothesisRelevance (weights cfg)
  + serviceRelevance c * w_serviceRelevance (weights cfg)
  + citedInNotes c * w_citedInNotes (weights cfg).

(** The [context] argument of [scoreResult]. *)
Record ScoreContext := {
  ctx_query : string;
  ctx_investigationState : option Memory.InvestigationState;
  ctx_activeHypotheses : option (list string);
  ctx_servicesUnderInvestigation : option (list string);
  ctx_resultIdToCited : option (list string);
  ctx_compact : option CompactToolResult;
  ctx_totalResults : nat;
  ctx_resultIndex : nat
}.

(** [computeScoreComponents(entry, context)] *)
Definition computeScoreComponents (e : ToolResultEntry) (ctx : ScoreContext)
    : ScoreComponents :=
  {| recency := scoreRecency (ctx_resultIndex ctx) (ctx_totalResults ctx);
     queryRelevance := scoreQueryRelevance e (ctx_query ctx);
     errorSignals := scoreErrorSignals e (ctx_compact ctx);
     hypothesisRelevance :=
       scoreHypothesisRelevance e (ctx_investigationState ctx)
         (ctx_activeHypotheses ctx);
     serviceRelevance :=
       scoreServiceRelevance e (ctx_servicesUnderInvestigation ctx) (ctx_compact ctx);
     citedInNotes :=
       scoreCitedInNotes (option_map resultId (ctx_compact ctx))
         (ctx_resultIdToCited ctx) |}.

(** [a >= b] on scores. *)
Definition geq (a b : Q) : bool := Qle_bool b a.

(** [scoreResult(entry, context)] *)
Definition scoreResult (cfg : CompactorConfig) (e : PlanEntry) (ctx : ScoreContext)
    : ScoredResult :=
  let comps := computeScoreComponents (entry_base e) ctx in
  let s := computeWeightedScore cfg comps in
  {| entry := e; score := s; components := comps;
     scored_compact := ctx_compact ctx;
     keepFull := geq s (minScoreForFull cfg) |}.

(** [scored.sort((a, b) => b.score - a.score)]: stable, descending. *)
Fixpoint insertByScore (x : ScoredResult) (l : list ScoredResult) : list ScoredResult :=
  match l with
  | [] => [x]
  | y :: l' => if geq (score x) (score y) then x :: y :: l'
               else y :: insertByScore x l'
  end.

Definition sortByScore (l : list ScoredResult) : list ScoredResult :=
  fold_right insertByScore [] l.

Definition setKeepFull (b : bool) (r : ScoredResult) : ScoredResult :=
  {| entry := entry r; score := score r; components := components r;
     scored_compact := scored_compact r; keepFull := b |}.

(** The three arrays filled by the allocation loops, with [usedTokens]. *)
Record Alloc := {
  al_full : list ScoredResult;
  al_compact : list ScoredResult;
  al_clear : list ScoredResult;
  al_used : Z
}.

Definition emptyAlloc : Alloc :=
  {| al_full := []; al_compact := []; al_clear := []; al_used := 0%Z |}.

(** One turn of the count-based loop of [compact]. *)
Definition countStep (cfg : CompactorConfig) (a : Alloc) (r : ScoredResult) : Alloc :=
  if ((Z.of_nat (List.length (al_full a)) <? maxFullResults cfg)%Z
      && geq (score r) (minScoreForFull cfg))%bool
  then {| al_full := al_full a ++ [setKeepFull true r]; al_compact := al_compact a;
          al_clear := al_clear a; al_used := al_used a |}
  else if ((Z.of_nat (List.length (al_compact a)) <? maxCompactResults cfg)%Z
           && geq (score r) (minScoreToKeep cfg))%bool
  then {| al_full := al_full a; al_compact := al_compact a ++ [setKeepFull false r];
          al_clear := al_clear a; al_used := al_used a |}
  else {| al_full := al_full a; al_compact := al_compact a;
          al_clear := al_clear a ++ [setKeepFull false r]; al_used := al_used a |}.

(** One turn of the loop of [compactWithBudget]; its second and third
    branches differ only in [result.compact] and do the same. *)
Definition budgetStep (cfg : CompactorConfig) (budget : Z) (a : Alloc)
    (r : ScoredResult) : Alloc :=
  let fullCost := tokensPerFullResult cfg in
  let compactCost := tokensPerCompactResult cfg in
  if ((al_used a + fullCost <=? budget)%Z && geq (score r) (minScoreForFull cfg))%bool
  then {| al_full := al_full a ++ [setKeepFull true r]; al_compact := al_compact a;
          al_clear := al_clear a; al_used := (al_used a + fullCost)%Z |}
  else if ((al_used a + compactCost <=? budget)%Z
           && geq (score r) (minScoreToKeep cfg))%bool
  then {| al_full := al_full a; al_compact := al_compact a ++ [setKeepFull false r];
          al_clear := al_clear a; al_used := (al_used a + compactCost)%Z |}
  else {| al_full := al_full a; al_compact := al_compact a;
          al_clear := al_clear a ++ [setKeepFull false r]; al_used := al_used a |}.

(** [compactWithBudget(sorted, budget)] *)
Definition compactWithBudget (cfg : CompactorConfig) (sorted : list ScoredResult)
    (budget : Z) : CompactionPlan :=
  let a := fold_left (budgetStep cfg budget) sorted emptyAlloc in
  {| plan_keepFull := al_full a; plan_keepCompact := al_compact a;
     plan_clear := al_clear a;
     estimatedTokensSaved :=
       (Z.of_nat (List.length sorted) * tokensPerFullResult cfg - al_used a)%Z |}.

(** The count-based allocation of [compact], taken when [tokenBudget] is
    absent or zero. *)
Definition compactByCount (cfg : CompactorConfig) (scored : list ScoredResult)
    : CompactionPlan :=
  let a := fold_left (countStep cfg) scored emptyAlloc in
  {| plan_keepFull := al_full a; plan_keepCompact := al_compact a;
     plan_clear := al_clear a;
     estimatedTokensSaved :=
       (Z.of_nat (List.length scored) * tokensPerFullResult cfg
        - Z.of_nat (List.length (al_full a)) * tokensPerFullResult cfg
        - Z.of_nat (List.length (al_compact a)) * tokensPerCompactResult cfg)%Z |}.

(** The ids a note cites: the keys of [resultIdToCited]. *)
Definition citedIds (st : option Memory.InvestigationState) : list string :=
  match st with
  | Some s => List.concat (List.map Memory.sourceResultIds (Memory.notes s))
  | None => []
  end.

(** [results.map((entry, index) => scoreResult(...))]: each result comes
    with the summary [compactResults] holds for it, if any. *)
Fixpoint scoreAll (cfg : CompactorConfig) (query : string)
    (st : option Memory.InvestigationState) (total : nat)
    (rs : list (PlanEntry * option CompactToolResult)) (index : nat)
    : list ScoredResult :=
  match rs with
  | [] => []
  | (e, c) :: rs' =>
      scoreResult cfg e
        {| ctx_query := query; ctx_investigationState := st;
           ctx_activeHypotheses :=
             Some (match st with Some s => Memory.activeHypotheses s | None => [] end);
           ctx_servicesUnderInvestigation :=
             Some (match st with Some s => Memory.servicesDiscovered s | None => [] end);
           ctx_resultIdToCited := Some (citedIds st);
           ctx_compact := c;
           ctx_totalResults := total; ctx_resultIndex := index |}
      :: scoreAll cfg query st total rs' (S index)
  end.

(** [compact] from its sort on ([scored.sort] to the [return]), for the
    scored results [scored] that [results.map] made: they are sorted by
    score and allocated by count, or within the token budget when one is
    given and is not 0. A score is a rational here; the doubles of the
    source are rationals, and the sort subtracts them and the loops
    compare them with the thresholds with the outcome their values have
    as rationals. *)
Definition allocate (cfg : CompactorConfig) (scored : list ScoredResult)
    (tokenBudget : option Z) : CompactionPlan :=
  let sorted := sortByScore scored in
  match tokenBudget with
  | Some b => if (b =? 0)%Z then compactByCount cfg sorted
              else compactWithBudget cfg sorted b
  | None => compactByCount cfg sorted
  end.

(** [compact(results, {query, investigationState, compactResults,
    tokenBudget})] *)
Definition compact (cfg : CompactorConfig)
    (results : list (PlanEntry * option CompactToolResult)) (query : string)
    (investigationState : option Memory.InvestigationState)
    (tokenBudget : option Z) : CompactionPlan :=
  let scored :=
    sortByScore (scoreAll cfg query investigationState (List.length results) results O) in
  match tokenBudget with
  | Some b => if (b =? 0)%Z then compactByCount cfg scored
              else compactWithBudget cfg scored b
  | None => compactByCount cfg scored
  end.

End Compactor.

(** ** Scratchpad (agent/scratchpad.ts) *)

Module Scratchpad.
Import JsString Types.

Record ToolUsageStats := { callCount : Z; queries : list string }.

Record ToolLimitResult := { allowed : bool; warning : option string }.

Record TieredToolResult := {
  base : ToolResultEntry;
  tiered_resultId : string;
  tier : StorageTier;
  tiered_compact : option CompactToolResult;
  importanceScore : option Q
}.

(** An element of [entries]: a tool result, a tiered tool result, or an
    entry of another [type]. *)
Inductive ScratchpadEntry :=
  | EntryToolResult (e : ToolResultEntry)
  | EntryTiered (r : TieredToolResult)
  | EntryOther (type : string).

Definition isToolResult (e : ScratchpadEntry) : bool :=
  match e with EntryOther _ => false | _ => true end.

Record Scratchpad := {
  entries : list ScratchpadEntry;
  toolUsage : gmap string ToolUsageStats;
  tieredResults : gmap string TieredToolResult;
  resultIdCounter : N;
  archivedResults : gmap string ToolResultEntry;
  toolLimits : gmap string Z
}.

(** [new Scratchpad(baseDir, sessionId, toolLimits)] *)
Definition create (limits : gmap string Z) : Scratchpad :=
  {| entries := []; toolUsage := ∅; tieredResults := ∅; resultIdCounter := 0%N;
     archivedResults := ∅; toolLimits := limits |}.

(** The digit [d < 36] in base 36: [0-9a-z]. *)
Definition digitChar (d : N) : ascii :=
  if (d <? 10)%N then ascii_of_N (48 + d) else ascii_of_N (87 + d).

(** The base-36 digits of [n], least significant first. [fuel] bounds the
    number of digits. *)
Fixpoint digits36 (fuel : nat) (n : N) : list N :=
  match fuel with
  | O => []
  | S fuel' => if (n <? 36)%N then [n]
               else (n mod 36)%N :: digits36 fuel' (n / 36)%N
  end.

(** [n.toString(36)] for a natural number; [n] has at most as many digits
    as bits. *)
Definition toString36 (n : N) : string :=
  string_of_list_ascii
    (List.rev (List.map digitChar (digits36 (S (N.to_nat (N.size n))) n))).

(** [s.padStart(2, '0')] *)
Definition padStart2 (s : string) : string :=
  match String.length s with
  | O => "00"
  | S O => "0" +:+ s
  | _ => s
  end.

(** The id [generateResultId] builds once it has incremented the counter to
    [counter] and read [Date.now()] as [now]. *)
Definition resultIdOf (toolName : string) (now counter : N) : string :=
  let toolPrefix := toLowerCase (take 3 toolName) in
  let stamp := takeLast 4 (toString36 now) in
  let count := padStart2 (toString36 counter) in
  toolPrefix +:+ "-" +:+ stamp +:+ count.

Definition argTruthy (v : ArgValue) : bool :=
  match v with
  | ArgUndefined => false
  | ArgString s => negb (String.eqb s "")
  | ArgOther b => b
  end.

(** [args.query || args.search || args.filter || JSON.stringify(args)] *)
Definition queryArg (a : Args) : ArgValue :=
  if argTruthy (arg_query a) then arg_query a
  else if argTruthy (arg_search a) then arg_search a
  else if argTruthy (arg_filter a) then arg_filter a
  else ArgString (args_json a).

(** [trackToolUsage(entry)] on the map [toolUsage]. *)
Definition trackToolUsage (e : ToolResultEntry) (usage : gmap string ToolUsageStats)
    : gmap string ToolUsageStats :=
  let stats := default {| callCount := 0; queries := [] |} (usage !! tool e) in
  let qs := match queryArg (args e) with
            | ArgString q => queries stats ++ [q]
            | _ => queries stats
            end in
  <[tool e := {| callCount := callCount stats + 1; queries := qs |}]> usage.

(** [maxSimilarity(query, previousQueries)], the quotient taken exactly. *)
Definition similarity (queryWords : list string) (prev : string) : Q :=
  let prevWords := toSet (splitWs (toLowerCase prev)) in
  let intersection := List.filter (fun w => mem w prevWords) queryWords in
  let union := toSet (queryWords ++ prevWords) in
  (inject_Z (Z.of_nat (List.length intersection))
   / inject_Z (Z.of_nat (List.length union)))%Q.

Definition maxSimilarity (query : string) (previousQueries : list string) : Q :=
  let queryWords := toSet (splitWs (toLowerCase query)) in
  fold_left (fun maxSim prev => Qmax maxSim (similarity queryWords prev))
    previousQueries 0%Q.

(** The double quote, and [String(z)] for an integer. *)
Definition dq : string := String (ascii_of_nat 34) EmptyString.
Definition ofZ (z : Z) : string := NilZero.string_of_int (Z.to_int z).

Definition overLimitWarning (toolName : string) (count limit : Z) : string :=
  "Tool " +:+ dq +:+ toolName +:+ dq +:+ " has been called " +:+ ofZ count
  +:+ " times (suggested limit: " +:+ ofZ limit
  +:+ "). Consider if additional calls are necessary.".

(** [Math.round(similarity * 100)] is the floor of the product plus a
    half. *)
Definition similarWarning (toolName : string) (sim : Q) : string :=
  "Query appears similar to a previous " +:+ dq +:+ toolName +:+ dq +:+ " call ("
  +:+ ofZ (Qfloor (sim * 100 + (1 # 2))%Q)
  +:+ "% similarity). This might be a retry loop.".

Definition approachingWarning (toolName : string) (count limit : Z) : string :=
  "Approaching suggested limit for " +:+ dq +:+ toolName +:+ dq +:+ " ("
  +:+ ofZ (count + 1) +:+ "/" +:+ ofZ limit +:+ " calls).".

(** The names a plain object inherits from [Object.prototype]: read as
    a property they give a function, or the prototype itself for
    [__proto__], unless the object has a property of its own by that
    name. *)
Definition inheritedNames : list string :=
  [ "constructor"; "__defineGetter__"; "__defineSetter__"; "hasOwnProperty";
    "__lookupGetter__"; "__lookupSetter__"; "isPrototypeOf";
    "propertyIsEnumerable"; "toString"; "valueOf"; "__proto__";
    "toLocaleString" ].

(** What [canCallTool] holds as [limit]: a number, or an inherited
    function or object, which compares as [NaN]. *)
Inductive Limit :=
  | LimitNumber (l : Z)
  | LimitInherited.

(** [this.toolLimits[toolName] || 5]: [toolLimits] holds the properties
    the configured object has of its own; a limit of 0 is falsy, and so is
    the [undefined] of a name neither configured nor inherited. *)
Definition limitOf (sp : Scratchpad) (toolName : string) : Limit :=
  match toolLimits sp !! toolName with
  | Some l => LimitNumber (if l =? 0 then 5 else l)
  | None => if mem toolName inheritedNames then LimitInherited else LimitNumber 5
  end.

(** [count >= limit] and [count === limit - 1]: with the number the
    comparison holds for; both are false of a limit that is no number. *)
Definition atOrOver (count : Z) (limit : Limit) : option Z :=
  match limit with
  | LimitNumber l => if count >=? l then Some l else None
  | LimitInherited => None
  end.

Definition oneBelow (count : Z) (limit : Limit) : option Z :=
  match limit with
  | LimitNumber l => if count =? l - 1 then Some l else None
  | LimitInherited => None
  end.

(** The test for a retry loop in [canCallTool]: the largest similarity of
    a non-empty query with the recorded queries, when it exceeds 0.8. The
    source compares the double [similarity] with the double [0.8]; the
    quotient of two set sizes below 2^50 exceeds four fifths exactly when
    its double exceeds the double nearest to 0.8. *)
Definition retryLoop (query : option string) (stats : ToolUsageStats) : option Q :=
  match query with
  | Some q =>
      if (negb (String.eqb q "") && Nat.ltb 0 (List.length (queries stats)))%bool
      then let sim := maxSimilarity q (queries stats) in
           if negb (Qle_bool sim (8 # 10)) then Some sim else None
      else None
  | None => None
  end.

(** [canCallTool(toolName, query)] *)
Definition canCallTool (sp : Scratchpad) (toolName : string) (query : option string)
    : ToolLimitResult :=
  let limit := limitOf sp toolName in
  match toolUsage sp !! toolName with
  | None => {| allowed := true; warning := None |}
  | Some stats =>
      match atOrOver (callCount stats) limit with
      | Some l =>
          {| allowed := true;
             warning := Some (overLimitWarning toolName (callCount stats) l) |}
      | None =>
          match retryLoop query stats with
          | Some sim => {| allowed := true;
                           warning := Some (similarWarning toolName sim) |}
          | None =>
              match oneBelow (callCount stats) limit with
              | Some l =>
                  {| allowed := true;
                     warning := Some (approachingWarning toolName (callCount stats) l) |}
              | None => {| allowed := true; warning := None |}
              end
          end
      end
  end.

(** [append(entry)]: an entry of type ['tool_result'] is tracked. The
    entry is given with the timestamp the call stamps on it. *)
Definition append (e : ScratchpadEntry) (sp : Scratchpad) : Scratchpad :=
  {| entries := entries sp ++ [e];
     toolUsage := match e with
                  | EntryToolResult r => trackToolUsage r (toolUsage sp)
                  | EntryTiered r => trackToolUsage (base r) (toolUsage sp)
                  | EntryOther _ => toolUsage sp
                  end;
     tieredResults := tieredResults sp; resultIdCounter := resultIdCounter sp;
     archivedResults := archivedResults sp; toolLimits := toolLimits sp |}.

(** The entry of [appendToolResult] before its timestamp is stamped. *)
Record NewResult := {
  new_tool : string;
  new_args : Args;
  new_result : Payload;
  new_durationMs : Z
}.

Definition stamped (e : NewResult) (iso : string) : ToolResultEntry :=
  {| tool := new_tool e; args := new_args e; result := new_result e;
     durationMs := new_durationMs e; timestamp := iso |}.

(** [appendToolResult(entry, {compact, tier})]: the new state and the id.
    [now] is what [Date.now()] reads for the id and [iso] the ISO instant
    of the timestamp. *)
Definition appendToolResult (e : NewResult) (c : option CompactToolResult)
    (t : option StorageTier) (now : N) (iso : string) (sp : Scratchpad)
    : Scratchpad * string :=
  let counter := (resultIdCounter sp + 1)%N in
  let rid := resultIdOf (new_tool e) now counter in
  let fullEntry := {| base := stamped e iso; tiered_resultId := rid;
                      tier := default full t; tiered_compact := c;
                      importanceScore := None |} in
  ({| entries := entries sp ++ [EntryTiered fullEntry];
      toolUsage := trackToolUsage (stamped e iso) (toolUsage sp);
      tieredResults := <[rid := fullEntry]> (tieredResults sp);
      resultIdCounter := counter;
      archivedResults := archivedResults sp; toolLimits := toolLimits sp |}, rid).

(** The guard [resultId && this.tieredResults.has(resultId)] of the loops
    of [applyCompactionPlan]. *)
Definition planTarget (sp : Scratchpad) (s : Compactor.ScoredResult)
    : option (string * TieredToolResult) :=
  match Compactor.entry_resultId (Compactor.entry s) with
  | Some rid =>
      if String.eqb rid "" then None
      else match tieredResults sp !! rid with
           | Some r => Some (rid, r)
           | None => None
           end
  | None => None
  end.

(** The loops of [applyCompactionPlan], and [setCompactResult], change the
    tiered result they find in [tieredResults]. In the source that object
    is also the element [appendToolResult] pushed on [entries], so that
    the change shows there as well; [entries] here keeps every element as
    it was appended, and the tier, the summary and the score of a result
    are read from [tieredResults] only. *)
Definition withTiered (sp : Scratchpad) (m : gmap string TieredToolResult) : Scratchpad :=
  {| entries := entries sp; toolUsage := toolUsage sp; tieredResults := m;
     resultIdCounter := resultIdCounter sp;
     archivedResults := archivedResults sp; toolLimits := toolLimits sp |}.

Definition keepFullStep (sp : Scratchpad) (s : Compactor.ScoredResult) : Scratchpad :=
  match planTarget sp s with
  | Some (rid, r) =>
      withTiered sp
        (<[rid := {| base := base r; tiered_resultId := tiered_resultId r;
                     tier := full; tiered_compact := tiered_compact r;
                     importanceScore := Some (Compactor.score s) |}]>
           (tieredResults sp))
  | None => sp
  end.

Definition keepCompactStep (sp : Scratchpad) (s : Compactor.ScoredResult) : Scratchpad :=
  match planTarget sp s with
  | Some (rid, r) =>
      withTiered sp
        (<[rid := {| base := base r; tiered_resultId := tiered_resultId r;
                     tier := compact;
                     tiered_compact := Compactor.scored_compact s;
                     importanceScore := Some (Compactor.score s) |}]>
           (tieredResults sp))
  | None => sp
  end.

Definition clearStep (sp : Scratchpad) (s : Compactor.ScoredResult) : Scratchpad :=
  match planTarget sp s with
  | Some (rid, r) =>
      {| entries := entries sp; toolUsage := toolUsage sp;
         tieredResults :=
           <[rid := {| base := base r; tiered_resultId := tiered_resultId r;
                       tier := cleared; tiered_compact := tiered_compact r;
                       importanceScore := Some (Compactor.score s) |}]>
             (tieredResults sp);
         resultIdCounter := resultIdCounter sp;
         archivedResults := <[rid := base r]> (archivedResults sp);
         toolLimits := toolLimits sp |}
  | None => sp
  end.

(** [applyCompactionPlan(plan)], the new state; the counts it returns are
    the lengths of the plan's three lists. *)
Definition applyCompactionPlan (plan : Compactor.CompactionPlan) (sp : Scratchpad)
    : Scratchpad :=
  let sp1 := fold_left keepFullStep (Compactor.plan_keepFull plan) sp in
  let sp2 := fold_left keepCompactStep (Compactor.plan_keepCompact plan) sp1 in
  fold_left clearStep (Compactor.plan_clear plan) sp2.

(** [getResultById(resultId)] *)
Definition getResultById (rid : string) (sp : Scratchpad) : option ToolResultEntry :=
  match tieredResults sp !! rid with
  | Some tiered => Some (base tiered)
  | None => archivedResults sp !! rid
  end.

(** [setCompactResult(resultId, compact)] *)
Definition setCompactResult (rid : string) (c : CompactToolResult) (sp : Scratchpad)
    : Scratchpad :=
  match tieredResults sp !! rid with
  | Some r =>
      withTiered sp
        (<[rid := {| base := base r; tiered_resultId := tiered_resultId r;
                     tier := tier r; tiered_compact := Some c;
                     importanceScore := importanceScore r |}]>
           (tieredResults sp))
  | None => sp
  end.

(** The filter of [clearOldestToolResults]: drop the first [clearCount]
    tool results. *)
Fixpoint dropOldest (clearCount : nat) (es : list ScratchpadEntry)
    : list ScratchpadEntry :=
  match es with
  | [] => []
  | e :: es' =>
      match clearCount with
      | S k => if isToolResult e then dropOldest k es' else e :: dropOldest clearCount es'
      | O => e :: dropOldest O es'
      end
  end.

(** [clearOldestToolResults(keepCount)], the new state. *)
Definition clearOldestToolResults (keepCount : Z) (sp : Scratchpad) : Scratchpad :=
  let n := Z.of_nat (List.length (List.filter isToolResult (entries sp))) in
  let clearCount := Z.max 0 (n - keepCount) in
  {| entries := if 0 <? clearCount then dropOldest (Z.to_nat clearCount) (entries sp)
                else entries sp;
     toolUsage := toolUsage sp; tieredResults := tieredResults sp;
     resultIdCounter := resultIdCounter sp;
     archivedResults := archivedResults sp; toolLimits := toolLimits sp |}.

(** [load()], given the entries parsed from the lines of the file. *)
Definition load (parsed : list ScratchpadEntry) (sp : Scratchpad) : Scratchpad :=
  fold_left (fun s e => append e s) parsed sp.

(** The calls that change a scratchpad. *)
Inductive Call :=
  | CallAppend (e : ScratchpadEntry)
  | CallAppendToolResult (e : NewResult) (c : option CompactToolResult)
      (t : option StorageTier) (now : N) (iso : string)
  | CallApplyCompactionPlan (plan : Compactor.CompactionPlan)
  | CallSetCompactResult (rid : string) (c : CompactToolResult)
  | CallClearOldestToolResults (keepCount : Z)
  | CallLoad (parsed : list ScratchpadEntry).

(** One call: the new state and, for [appendToolResult], the id it
    assigned together with the full result it stored. *)
Definition step (sp : Scratchpad) (c : Call)
    : Scratchpad * option (string * ToolResultEntry) :=
  match c with
  | CallAppend e => (append e sp, None)
  | CallAppendToolResult e c t now iso =>
      let '(sp', rid) := appendToolResult e c t now iso sp in
      (sp', Some (rid, stamped e iso))
  | CallApplyCompactionPlan plan => (applyCompactionPlan plan sp, None)
  | CallSetCompactResult rid c => (setCompactResult rid c sp, None)
  | CallClearOldestToolResults k => (clearOldestToolResults k sp, None)
  | CallLoad parsed => (load parsed sp, None)
  end.

(** A sequence of calls: the final state and the ids assigned on the way,
    oldest first. *)
Fixpoint run (sp : Scratchpad) (cs : list Call)
    : Scratchpad * list (string * ToolResultEntry) :=
  match cs with
  | [] => (sp, [])
  | c :: cs' =>
      let '(sp1, out) := step sp c in
      let '(sp2, log) := run sp1 cs' in
      (sp2, match out with Some a => a :: log | None => log end)
  end.

(** The clock of a call reads an instant of at least 36^3 milliseconds, so
    that its base-36 text has four characters to slice. *)
Definition clockSane (c : Call) : Prop :=
  match c with
  | CallAppendToolResult _ _ _ now _ => (46656 <= now)%N
  | _ => True
  end.

End Scratchpad.

(** ** Slack webhook receiver (webhooks/slack-webhook.ts) *)

Module Webhook.
Import JsString.

Record SlackUser := { user_id : string; username : string; user_name : string }.

Record SlackAction := { action_id : string; block_id : string; value : string }.

(** The interaction payload after [JSON.parse]; [channel] and [message] are
    kept as presence flags, being read only to update the Slack message. *)
Record SlackInteractionPayload := {
  payload_type : string;
  user : SlackUser;
  actions : option (list SlackAction);
  has_channel : bool;
  has_message : bool
}.

(** The object [handleApprovalAction] writes as the decision. *)
Record ApprovalResponse := {
  approved : bool;
  approvedBy : string;
  approvedByName : string;
  approvedAt : string;
  reason : string
}.

(** A file of the pending directory: the decision written here, or any
    other text (a pending request written by the approval flow). *)
Inductive FileContent :=
  | FileDecision (r : ApprovalResponse)
  | FileText (s : string).

(** The file system, by path. Writing and unlinking are taken to succeed. *)
Abbreviation FileSystem := (gmap string FileContent).

Record ActionResult := { ok : bool; message : string }.

(** A name the file system holds as one path segment: neither the
    separator nor the NUL character occurs in it. *)
Definition isPlainName (s : string) : bool :=
  forallb (fun c => negb (Ascii.eqb c "/" || Ascii.eqb c Ascii.zero))
    (list_ascii_of_string s).

(** [s.split('/')]; [cur] is the piece being read, reversed. *)
Fixpoint splitSlash (s : string) (cur : list ascii) : list string :=
  match s with
  | EmptyString => [string_of_list_ascii (List.rev cur)]
  | String c s' =>
      if Ascii.eqb c "/"
      then string_of_list_ascii (List.rev cur) :: splitSlash s' []
      else splitSlash s' (c :: cur)
  end.

(** A segment [path.normalize] keeps as it is. *)
Definition isSegment (s : string) : bool :=
  (isPlainName s
   && negb (String.eqb s "" || String.eqb s "." || String.eqb s ".."))%bool.

(** A directory path in the normal form of [path.normalize] on a POSIX
    system, the root apart: one or more segments, none of them empty, [.]
    or [..], separated by single separators, after at most one leading
    separator and without a trailing one. *)
Definition isNormalDir (dir : string) : bool :=
  let body := match splitSlash dir [] with
              | "" :: rest => rest
              | segments => segments
              end in
  (negb (Nat.eqb (List.length body) 0) && forallb isSegment body)%bool.

(** [join(pendingDir, name)] of the path library on a POSIX system, for
    a directory in normal form ([isNormalDir]) and a name that ends in
    .json and holds no separator ([isPlainName]): the two put together
    around one separator, which is then a path in normal form. On other
    arguments [path.join] goes on to normalise the path, resolving the
    segments [.] and [..] and doubled separators, which this definition
    does not do. *)
Definition join (dir file : string) : string := dir +:+ "/" +:+ file.

Definition isDigit (c : ascii) : bool :=
  let n := nat_of_ascii c in (Nat.leb 48 n && Nat.leb n 57)%bool.

(** The value of the longest prefix of decimal digits of [s] after the
    digits valued [acc]; [seen] tells that a digit was read. *)
Fixpoint readDigits (s : string) (acc : Z) (seen : bool) : option Z :=
  match s with
  | String c s' =>
      if isDigit c
      then readDigits s' (acc * 10 + Z.of_nat (nat_of_ascii c - 48)) true
      else if seen then Some acc else None
  | EmptyString => if seen then Some acc else None
  end.

Fixpoint skipSpaces (s : string) : string :=
  match s with
  | String c s' => if isSpace c then skipSpaces s' else s
  | EmptyString => s
  end.

(** [parseInt(s, 10)]: leading white space, an optional sign, then
    digits; [None] is [NaN]. *)
Definition parseInt10 (s : string) : option Z :=
  match skipSpaces s with
  | String "-" s' => option_map Z.opp (readDigits s' 0 false)
  | String "+" s' => readDigits s' 0 false
  | s' => readDigits s' 0 false
  end.

(** [timingSafeEqual(Buffer.from(a), Buffer.from(b))] inside [try]: buffers
    of different lengths throw, which the caller turns into [false]. *)
Definition timingSafeEqual (a b : string) : bool :=
  if Nat.eqb (String.length a) (String.length b) then String.eqb a b else false.

Section Receiver.

(** [createHmac('sha256', key).update(message).digest('hex')] of Node's
    crypto library. *)
Variable hmacSha256Hex : string -> string -> string.

(** [JSON.parse(parseFormData(body).payload || '{}')] read as a payload;
    [None] when it throws. *)
Variable decodePayload : string -> option SlackInteractionPayload.

(** [verifySlackSignature(signingSecret, signature, timestamp, body)], the
    clock read at [now] milliseconds. *)
Definition verifySlackSignature (signingSecret : string)
    (signature timestamp : option string) (body : string) (now : Z) : bool :=
  match signature, timestamp with
  | Some sig, Some ts =>
      if (String.eqb sig "" || String.eqb ts "")%bool then false
      else
        let currentTime := now / 1000 in
        let tooOld := match parseInt10 ts with
                      | Some requestTimestamp =>
                          300 <? Z.abs (currentTime - requestTimestamp)
                      | None => false
                      end in
        if tooOld then false
        else
          let sigBaseString := "v0:" +:+ ts +:+ ":" +:+ body in
          let mySignature := "v0=" +:+ hmacSha256Hex signingSecret sigBaseString in
          timingSafeEqual mySignature sig
  | _, _ => false
  end.

(** [handleApprovalAction(payload, action, pendingDir)]: the file system
    after the call and the result; [iso] is the instant read for
    [approvedAt]. The update of the Slack message is outside the model. *)
Definition handleApprovalAction (payload : SlackInteractionPayload)
    (action : SlackAction) (pendingDir : string) (iso : string) (fs : FileSystem)
    : FileSystem * ActionResult :=
  let mutationId := value action in
  let isApprove := startsWith (action_id action) "approve_" in
  let isReject := startsWith (action_id action) "reject_" in
  if (negb isApprove && negb isReject)%bool
  then (fs, {| ok := false; message := "Unknown action" |})
  else
    let responseFile := join pendingDir (mutationId +:+ ".json") in
    let pendingFile := join pendingDir (mutationId +:+ "_pending.json") in
    match fs !! pendingFile with
    | None =>
        (fs, {| ok := false;
                message := "This approval request has expired or was already handled" |})
    | Some _ =>
        let response :=
          {| approved := isApprove;
             approvedBy := "slack:" +:+ username (user payload);
             approvedByName := user_name (user payload);
             approvedAt := iso;
             reason := if isApprove then "Approved via Slack"
                       else "Rejected via Slack" |} in
        (delete pendingFile (<[responseFile := FileDecision response]> fs),
         {| ok := true;
            message := if isApprove then "Mutation approved"
                       else "Mutation rejected" |})
    end.

Record Request := {
  url : string;
  method : string;
  signatureHeader : option string;
  timestampHeader : option string;
  body : string
}.

(** The status of the response and, where the body depends on the outcome
    of an approval, the text it carries. *)
Record Response := { status : nat; response_text : option string }.

(** The handler [createRequestHandler(config)] returns, on one request. *)
Definition handleRequest (signingSecret pendingDir : string) (req : Request)
    (now : Z) (iso : string) (fs : FileSystem) : FileSystem * Response :=
  if (String.eqb (url req) "/health" && String.eqb (method req) "GET")%bool
  then (fs, {| status := 200; response_text := None |})
  else if (negb (String.eqb (url req) "/slack/interactions")
           || negb (String.eqb (method req) "POST"))%bool
  then (fs, {| status := 404; response_text := Some "Not found" |})
  else if negb (verifySlackSignature signingSecret (signatureHeader req)
                  (timestampHeader req) (body req) now)
  then (fs, {| status := 401; response_text := Some "Invalid signature" |})
  else
    match decodePayload (body req) with
    | None => (fs, {| status := 500; response_text := Some "Internal error" |})
    | Some payload =>
        match (if String.eqb (payload_type payload) "block_actions"
               then actions payload else None) with
        | Some (action :: _) =>
            if (startsWith (action_id action) "approve_"
                || startsWith (action_id action) "reject_")%bool
            then
              let '(fs', result) :=
                handleApprovalAction payload action pendingDir iso fs in
              (fs', {| status := 200; response_text := Some (message result) |})
            else (fs, {| status := 200; response_text := None |})
        | _ => (fs, {| status := 200; response_text := None |})
        end
    end.

End Receiver.

End Webhook.

(** ** Concrete graphs, investigations and requests *)

Module Examples.
Import Graph Memory.

(** [addService({id, name, type, tags: [], metadata: {}})] *)
Definition svc (i n : string) (ty : ServiceType) : ServiceNode :=
  {| id := i; name := n; type := ty; team := None; owner := None; tier := None;
     repository := None; documentation := None; runbooks := None; tags := [];
     metadata := []; createdAt := 0; updatedAt := 0 |}.

(** [addDependency({source, target, type, criticality, metadata: {}})] *)
Definition dep (s t : string) (ty : EdgeType) (c : Criticality) : DependencyEdge :=
  {| edge_id := ""; source := s; target := t; edge_type := ty; protocol := None;
     criticality := c; description := None; edge_metadata := [] |}.

(** Two services, added at instant 1000, and the one edge api -> cache,
    of degraded criticality. *)
Definition cacheGraph : ServiceGraph :=
  addDependency (dep "api" "cache" edge_cache degraded)
    (addService (svc "cache" "Cache" cache) 1000
       (addService (svc "api" "API" service) 1000 empty)).

(** An investigation with one weak evidence note for hypothesis h1. *)
Definition weakEvidenceState : InvestigationState :=
  fst (addEvidence "h1" "cpu at 60 percent" weak None None
         {| env_id := "note-1"; env_now := "2024-01-01T00:00:01.000Z" |}
         (initialState "why is the api slow" None "inv-1"
            "2024-01-01T00:00:00.000Z")).

Definition cpuHypothesis : HypothesisT :=
  {| hyp_id := "h1"; statement := "CPU exhaustion on the api hosts" |}.

(** A result of the tool aws_query that matches no word of a query and
    shows no error, with the id and the summary the scratchpad keeps for it. *)
Definition quietResult (rid : string)
    : Compactor.PlanEntry * option Types.CompactToolResult :=
  ({| Compactor.entry_base :=
        {| Types.tool := "aws_query";
           Types.args := {| Types.arg_query := Types.ArgUndefined;
                            Types.arg_search := Types.ArgUndefined;
                            Types.arg_filter := Types.ArgUndefined;
                            Types.args_json := "{}" |};
           Types.result := Types.PayloadString "ok";
           Types.durationMs := 10;
           Types.timestamp := "2024-01-01T00:00:00.500Z" |};
      Compactor.entry_resultId := Some rid |},
   Some {| Types.resultId := rid; Types.summary := "ok"; Types.services := [];
           Types.healthStatus := Types.health_ok; Types.hasErrors := false |}).

(** An investigation whose only note cites the result aws-0001. *)
Definition citingState : InvestigationState :=
  fst (addNote symptom "latency is high"
         {| opt_confidence := Some conf_high; opt_evidenceStrength := None;
            opt_sourceResultIds := Some ["aws-0001"];
            opt_servicesInvolved := None; opt_hypothesisId := None |}
         {| env_id := "note-1"; env_now := "2024-01-01T00:00:01.000Z" |}
         (initialState "why is the api slow" None "inv-1"
            "2024-01-01T00:00:00.000Z")).

(** The default configuration with the floor of the compact tier lowered
    to the weight of a citation. *)
Definition citationKeeps : Compactor.CompactorConfig :=
  {| Compactor.weights := Compactor.weights Compactor.DEFAULT_CONFIG;
     Compactor.maxFullResults := 10; Compactor.maxCompactResults := 15;
     Compactor.minScoreForFull := 6 # 10; Compactor.minScoreToKeep := 15 # 100;
     Compactor.tokensPerFullResult := 2000;
     Compactor.tokensPerCompactResult := 150 |}.

(** A result of tool [t] whose arguments hold the query [q]. *)
Definition queried (t q : string) : Scratchpad.NewResult :=
  {| Scratchpad.new_tool := t;
     Scratchpad.new_args := {| Types.arg_query := Types.ArgString q;
                               Types.arg_search := Types.ArgUndefined;
                               Types.arg_filter := Types.ArgUndefined;
                               Types.args_json := "{}" |};
     Scratchpad.new_result := Types.PayloadString "ok";
     Scratchpad.new_durationMs := 10 |}.

(** The agent's loop on a scratchpad with soft cap 3 for tool T: each
    tool call is recorded by [appendToolResult] after [canCallTool] was
    consulted. [afterCalls qs] is the scratchpad once the calls with the
    queries [qs] are recorded. *)
Definition afterCalls (limits : gmap string Z) (t : string) (qs : list string)
    : Scratchpad.Scratchpad :=
  fold_left
    (fun sp q => fst (Scratchpad.appendToolResult (queried t q) None None
                        1700000000000%N "2023-11-14T22:13:20.000Z" sp))
    qs (Scratchpad.create limits).

Definition capThree : gmap string Z := {[ "T" := 3 ]}.

(** One investigation: the result of a call of T is recorded, a plan
    clears it, its summary is set, and the oldest results are dropped. *)
Definition clearingCalls : list Scratchpad.Call :=
  [ Scratchpad.CallAppendToolResult (queried "T" "alpha") None None
      1700000000000%N "2023-11-14T22:13:20.000Z";
    Scratchpad.CallApplyCompactionPlan
      {| Compactor.plan_keepFull := []; Compactor.plan_keepCompact := [];
         Compactor.plan_clear :=
           [ {| Compactor.entry :=
                  {| Compactor.entry_base :=
                       Scratchpad.stamped (queried "T" "alpha")
                         "2023-11-14T22:13:20.000Z";
                     Compactor.entry_resultId := Some "t-3v2801" |};
                Compactor.score := 17 # 100;
                Compactor.components :=
                  {| Compactor.recency := 1 # 10; Compactor.queryRelevance := 0;
                     Compactor.errorSignals := 0;
                     Compactor.hypothesisRelevance := 0;
                     Compactor.serviceRelevance := 0;
                     Compactor.citedInNotes := 1 |};
                Compactor.scored_compact := None;
                Compactor.keepFull := false |} ];
         Compactor.estimatedTokensSaved := 2000 |};
    Scratchpad.CallClearOldestToolResults 0 ].

(** Two calls of T recorded within the same millisecond. *)
Definition twoCalls : list Scratchpad.Call :=
  [ Scratchpad.CallAppendToolResult (queried "T" "alpha") None None
      1700000000000%N "2023-11-14T22:13:20.000Z";
    Scratchpad.CallAppendToolResult (queried "T" "beta") None None
      1700000000000%N "2023-11-14T22:13:20.000Z" ].

(** A click on the approve button of mutation mut_1 by the user ops. *)
Definition approveClick : Webhook.SlackAction :=
  {| Webhook.action_id := "approve_mut_1"; Webhook.block_id := "b1";
     Webhook.value := "mut_1" |}.

Definition approvePayload : Webhook.SlackInteractionPayload :=
  {| Webhook.payload_type := "block_actions";
     Webhook.user := {| Webhook.user_id := "U1"; Webhook.username := "ops";
                        Webhook.user_name := "Ops" |};
     Webhook.actions := Some [approveClick];
     Webhook.has_channel := false; Webhook.has_message := false |}.

(** A stand-in for the keyed hash and for the decoder, to run the receiver
    on an example: the tag of a message is the key and the message. *)
Definition exampleMac (key message : string) : string :=
  key +:+ "|" +:+ message.

Definition exampleDecode (body : string) : option Webhook.SlackInteractionPayload :=
  Some approvePayload.

(** A request stamped at second 1700000000 and signed under the secret s
    with [exampleMac]. *)
Definition signedRequest : Webhook.Request :=
  {| Webhook.url := "/slack/interactions"; Webhook.method := "POST";
     Webhook.signatureHeader :=
       Some ("v0=" +:+ exampleMac "s" "v0:1700000000:payload=click");
     Webhook.timestampHeader := Some "1700000000";
     Webhook.body := "payload=click" |}.

(** The pending directory holding the request of mutation mut_1. *)
Definition pendingMut1 : gmap string Webhook.FileContent :=
  {[ "/pending/mut_1_pending.json" := Webhook.FileText "pending" ]}.

End Examples.

(** ** Predicates used to state and prove the properties *)

Module Invariants.
Import JsString JsMap Types.

Section OfGraphs.
Import Graph ServiceContext.

(** What every impact path pushed by [traverse] satisfies. *)
Definition wellFormedImpact (serviceId : string) (p : ImpactPath) : Prop :=
  hops p = List.length (path p)
  /\ (2 <= hops p)%nat
  /\ List.hd_error (path p) = Some serviceId
  /\ impact_source p = serviceId.

(** The loop of [calculateBlastRadius] on paths of two hops or more: no
    direct dependent is added, and every service seen so far that the graph
    knows is among the transitive dependents. *)
Definition blastInv (g : ServiceGraph) (a0 a : BlastAcc) : Prop :=
  acc_direct a = acc_direct a0
  /\ forall x s, In x (acc_seen a) -> getService x g = Some s ->
                 In s (acc_transitive a).

End OfGraphs.

Section OfPlans.
Import Compactor.
Local Open Scope Q_scope.

(** A scored result is cited when the summary it carries names a result id
    that some note of the investigation lists among its sources. *)
Definition citedResult (st : option Memory.InvestigationState) (s : ScoredResult)
    : Prop :=
  match scored_compact s with
  | Some c => resultId c <> ""%string /\ In (resultId c) (citedIds st)
  | None => False
  end.

(** No weight of the score is negative. *)
Definition nonnegWeights (w : ScoreWeights) : Prop :=
  0 <= w_recency w /\ 0 <= w_queryRelevance w /\ 0 <= w_errorSignals w
  /\ 0 <= w_hypothesisRelevance w /\ 0 <= w_serviceRelevance w
  /\ 0 <= w_citedInNotes w.

(** A cited result weighs at least the weight of a citation. *)
Definition citationCounts (cfg : CompactorConfig)
    (st : option Memory.InvestigationState) (s : ScoredResult) : Prop :=
  citedResult st s -> w_citedInNotes (weights cfg) <= score s.

End OfPlans.

Section OfIds.
Local Open Scope N_scope.

(** The value of a base-36 digit character, and of a digit string read
    most significant first; the value of a digit list, least significant
    first. *)
Definition digitVal (c : ascii) : N :=
  let n := N_of_ascii c in if n <? 58 then n - 48 else n - 87.

Definition isBase36 (c : ascii) : bool :=
  let n := N_of_ascii c in
  ((48 <=? n) && (n <=? 57) || (97 <=? n) && (n <=? 122))%bool.

Definition value36 (ds : list N) : N := fold_right (fun d acc => d + 36 * acc) 0 ds.

Definition parse36 (l : list ascii) : N :=
  fold_left (fun acc c => acc * 36 + digitVal c) l 0.

(** The dash that ends the tool prefix of an id. *)
Definition isDash (c : ascii) : bool := Ascii.eqb c "-".

(** What follows the last dash of a text. *)
Fixpoint afterLastDash (l : list ascii) : list ascii :=
  match l with
  | [] => []
  | c :: l' => if existsb isDash l' then afterLastDash l'
               else if isDash c then l' else c :: l'
  end.

End OfIds.

Section OfScratchpads.
Import Scratchpad.

(** [sp'] holds the full results of [sp] under the same ids, has drawn no
    new id, and archives nothing that [sp] did not hold. *)
Definition sameResults (sp sp' : Scratchpad) : Prop :=
  resultIdCounter sp' = resultIdCounter sp
  /\ (forall rid, base <$> (tieredResults sp' !! rid) = base <$> (tieredResults sp !! rid))
  /\ (forall rid, is_Some (archivedResults sp' !! rid) ->
                  is_Some (archivedResults sp !! rid)
                  \/ is_Some (tieredResults sp !! rid)).

(** What the ids assigned so far, with the results stored under them,
    have to do with the state: each is a key of [tieredResults] holding
    that result; each was built with a counter the scratchpad has passed
    and a sane clock; the two maps hold no other key; and no id was
    assigned twice. *)
Definition tracks (sp : Scratchpad) (assigned : list (string * ToolResultEntry))
    : Prop :=
  (forall rid e, In (rid, e) assigned ->
                 base <$> (tieredResults sp !! rid) = Some e)
  /\ (forall rid e, In (rid, e) assigned ->
        exists t now k, rid = resultIdOf t now k /\ (46656 <= now)%N
                        /\ (k <= resultIdCounter sp)%N)
  /\ (forall rid, is_Some (tieredResults sp !! rid)
                  \/ is_Some (archivedResults sp !! rid) ->
                  In rid (List.map fst assigned))
  /\ List.NoDup (List.map fst assigned).

End OfScratchpads.

End Invariants.

(** ** Service dependency graph: the other operations *)

Module GraphOps.
Import JsString JsMap Graph.

(** The [updates] of [updateService]: a member is [None] when the key is
    absent; an optional member of the node may be present with the value
    [undefined]. *)
Record ServiceUpdates := {
  upd_name : option string;
  upd_type : option ServiceType;
  upd_team : option (option string);
  upd_owner : option (option string);
  upd_tier : option (option Tier);
  upd_repository : option (option string);
  upd_documentation : option (option string);
  upd_runbooks : option (option (list string));
  upd_tags : option (list string);
  upd_metadata : option (list (string * string))
}.

(** [updateService(id, updates)], the clock read at [now]: the new graph
    and the node returned, [None] for [undefined]. *)
Definition updateService (i : string) (u : ServiceUpdates) (now : Z)
    (g : ServiceGraph) : ServiceGraph * option ServiceNode :=
  match mget i (nodes g) with
  | None => (g, None)
  | Some existing =>
      let updated :=
        {| id := id existing;
           name := default (name existing) (upd_name u);
           type := default (type existing) (upd_type u);
           team := default (team existing) (upd_team u);
           owner := default (owner existing) (upd_owner u);
           tier := default (tier existing) (upd_tier u);
           repository := default (repository existing) (upd_repository u);
           documentation := default (documentation existing) (upd_documentation u);
           runbooks := default (runbooks existing) (upd_runbooks u);
           tags := default (tags existing) (upd_tags u);
           metadata := default (metadata existing) (upd_metadata u);
           createdAt := createdAt existing;
           updatedAt := now |} in
      ({| nodes := mset i updated (nodes g); edges := edges g;
          outgoing := outgoing g; incoming := incoming g |}, Some updated)
  end.

(** [index.get(key)?.delete(edgeId)] on an adjacency index. *)
Definition unindex (key eid : string) (index : list (string * list string))
    : list (string * list string) :=
  match mget key index with
  | Some s => mset key (sdelete eid s) index
  | None => index
  end.

(** One turn of the first loop of [removeService], over the edges going
    out: the edge map and the incoming index. *)
Definition dropOutgoing (st : list (string * DependencyEdge) * list (string * list string))
    (eid : string) : list (string * DependencyEdge) * list (string * list string) :=
  match mget eid (fst st) with
  | Some edge => (mdelete eid (fst st), unindex (target edge) eid (snd st))
  | None => st
  end.

(** One turn of the second loop, over the edges coming in: the edge map and
    the outgoing index. *)
Definition dropIncoming (st : list (string * DependencyEdge) * list (string * list string))
    (eid : string) : list (string * DependencyEdge) * list (string * list string) :=
  match mget eid (fst st) with
  | Some edge => (mdelete eid (fst st), unindex (source edge) eid (snd st))
  | None => st
  end.

(** [removeService(id)]: the new graph and the boolean returned. The two
    sets are read before the loops; the second loop walks the incoming set
    as the first loop left it, the set being shared with the index. *)
Definition removeService (i : string) (g : ServiceGraph) : ServiceGraph * bool :=
  if mhas i (nodes g) then
    let outgoingEdges := default [] (mget i (outgoing g)) in
    let '(edges1, incoming1) :=
      fold_left dropOutgoing outgoingEdges (edges g, incoming g) in
    let incomingEdges := default [] (mget i incoming1) in
    let '(edges2, outgoing2) :=
      fold_left dropIncoming incomingEdges (edges1, outgoing g) in
    ({| nodes := mdelete i (nodes g); edges := edges2;
        outgoing := mdelete i outgoing2; incoming := mdelete i incoming1 |}, true)
  else (g, false).

(** [removeDependency(source, target)] *)
Definition removeDependency (src tgt : string) (g : ServiceGraph)
    : ServiceGraph * bool :=
  let i := edgeId src tgt in
  if mhas i (edges g) then
    ({| nodes := nodes g; edges := mdelete i (edges g);
        outgoing := unindex src i (outgoing g);
        incoming := unindex tgt i (incoming g) |}, true)
  else (g, false).

(** The loop shared by [getDependencies] (over [outgoing], reading the
    target) and [getDependents] (over [incoming], reading the source). *)
Definition neighbours (g : ServiceGraph) (out : bool) (serviceId : string)
    : list ServiceNode :=
  let edgeIds := default [] (mget serviceId (if out then outgoing g else incoming g)) in
  fold_left
    (fun acc eid =>
       match mget eid (edges g) with
       | Some edge =>
           match mget (if out then target edge else source edge) (nodes g) with
           | Some n => acc ++ [n]
           | None => acc
           end
       | None => acc
       end)
    edgeIds [].

(** [getDependencies(serviceId)] and [getDependents(serviceId)] *)
Definition getDependencies (g : ServiceGraph) (serviceId : string) : list ServiceNode :=
  neighbours g true serviceId.

Definition getDependents (g : ServiceGraph) (serviceId : string) : list ServiceNode :=
  neighbours g false serviceId.

(** [clear()] *)
Definition clear (g : ServiceGraph) : ServiceGraph := empty.

(** The calls that change a graph. *)
Inductive GraphCall :=
  | CallAddService (s : ServiceNode) (now : Z)
  | CallUpdateService (i : string) (u : ServiceUpdates) (now : Z)
  | CallRemoveService (i : string)
  | CallAddDependency (e : DependencyEdge)
  | CallRemoveDependency (src tgt : string)
  | CallClear.

Definition call (g : ServiceGraph) (c : GraphCall) : ServiceGraph :=
  match c with
  | CallAddService s now => addService s now g
  | CallUpdateService i u now => fst (updateService i u now g)
  | CallRemoveService i => fst (removeService i g)
  | CallAddDependency e => addDependency e g
  | CallRemoveDependency s t => fst (removeDependency s t g)
  | CallClear => clear g
  end.

(** The graph a sequence of calls builds from a new [ServiceGraph]. *)
Definition built (cs : list GraphCall) : ServiceGraph := fold_left call cs empty.

(** The queue entries of [findPath]. *)
Definition QueueItem : Type := string * list string.

(** The inner loop of [findPath] over the edges going out of a node:
    either the path found, or the queue with the unvisited targets pushed. *)
Fixpoint scanEdges (g : ServiceGraph) (to : string) (visited : list string)
    (pth : list string) (edgeIds : list string) (queue : list QueueItem)
    : list string + list QueueItem :=
  match edgeIds with
  | [] => inr queue
  | eid :: rest =>
      match mget eid (edges g) with
      | None => scanEdges g to visited pth rest queue
      | Some edge =>
          let newPath := pth ++ [target edge] in
          if String.eqb (target edge) to then inl newPath
          else scanEdges g to visited pth rest
                 (if mem (target edge) visited then queue
                  else queue ++ [(target edge, newPath)])
      end
  end.

(** The outcome of the [while] loop of [findPath] run for at most [fuel]
    turns. *)
Inductive SearchResult :=
  | Found (p : list string)
  | Unreachable
  | OutOfFuel.

Fixpoint search (g : ServiceGraph) (to : string) (fuel : nat)
    (queue : list QueueItem) (visited : list string) : SearchResult :=
  match fuel with
  | O => OutOfFuel
  | S fuel' =>
      match queue with
      | [] => Unreachable
      | (node, pth) :: queue' =>
          if mem node visited then search g to fuel' queue' visited
          else
            let visited' := sadd node visited in
            match scanEdges g to visited' pth
                    (default [] (mget node (outgoing g))) queue' with
            | inl p => Found p
            | inr queue'' => search g to fuel' queue'' visited'
            end
      end
  end.

(** A number of turns the loop of [findPath] cannot exceed: each turn
    either drops a queue entry or visits one more of the nodes edges lead
    to, pushing at most as many entries as there are indexed edge ids. *)
Definition searchBound (g : ServiceGraph) : nat :=
  let targets := List.map (fun kv => target (snd kv)) (edges g) in
  let fanout := List.length (List.concat (List.map snd (outgoing g))) in
  S (S (S (List.length targets) * S fanout)).

(** [findPath(from, to)]; the loop is run with [searchBound] turns. *)
Definition findPath (g : ServiceGraph) (from to : string) : SearchResult :=
  if String.eqb from to then Found [from]
  else if (negb (mhas from (nodes g)) || negb (mhas to (nodes g)))%bool then Unreachable
  else search g to (searchBound g) [(from, [from])] [].

End GraphOps.

(** ** Predicates on graphs *)

Module GraphInvariants.
Import JsString JsMap Graph GraphOps.

(** The keys of a map, in order. *)
Definition mkeys {V : Type} (m : list (string * V)) : list string := List.map fst m.

(** Every node is stored under its id and every edge under the id made of
    its end points, which is also its [id] member; no key occurs twice. *)
Definition keyed (g : ServiceGraph) : Prop :=
  List.NoDup (mkeys (nodes g))
  /\ (forall k n, mget k (nodes g) = Some n -> id n = k)
  /\ List.NoDup (mkeys (edges g))
  /\ (forall k e, mget k (edges g) = Some e ->
                  edge_id e = k /\ k = edgeId (source e) (target e)).

(** Every edge of the edge map is listed in the outgoing set of its source
    and in the incoming set of its target. *)
Definition indexed (g : ServiceGraph) : Prop :=
  forall k e, mget k (edges g) = Some e ->
    In k (default [] (mget (source e) (outgoing g)))
    /\ In k (default [] (mget (target e) (incoming g))).

(** A step of a path as [findPath] takes it: an edge id listed among the
    edges going out of [a] whose record leads to [b]. *)
Definition step (g : ServiceGraph) (a b : string) : Prop :=
  exists eid e, In eid (default [] (mget a (outgoing g)))
                /\ mget eid (edges g) = Some e /\ target e = b.

(** A path from [a] whose every step is a [step]. *)
Fixpoint walk (g : ServiceGraph) (a : string) (rest : list string) (z : string) : Prop :=
  match rest with
  | [] => a = z
  | b :: rest' => step g a b /\ walk g b rest' z
  end.

(** A queue entry of [findPath] holds a walk from [from] to its node. *)
Definition held (g : ServiceGraph) (from : string) (it : QueueItem) : Prop :=
  exists rest, snd it = from :: rest /\ walk g from rest (fst it).

(** What the loop of [findPath] knows of the nodes it has visited: none is
    [to], and every step from one leads to a node visited or queued, never
    to [to]. *)
Definition scanned (g : ServiceGraph) (to : string) (queue : list QueueItem)
    (visited : list string) : Prop :=
  forall v, In v visited ->
    v <> to /\ forall b, step g v b ->
                 b <> to /\ (In b visited \/ In b (List.map fst queue)).

(** The nodes [findPath] can meet when started at [from]. *)
Definition reachableNames (g : ServiceGraph) (from : string) : list string :=
  from :: List.map (fun kv => target (snd kv)) (edges g).

(** How many of them are not visited yet. *)
Definition unvisited (g : ServiceGraph) (from : string) (visited : list string) : nat :=
  List.length (List.filter (fun u => negb (mem u visited)) (reachableNames g from)).

(** The most edge ids one node lists. *)
Definition fanout (g : ServiceGraph) : nat :=
  List.length (List.concat (List.map snd (outgoing g))).

(** No ["->"] inside a service id. *)
Definition arrowFree (s : string) : bool := negb (includes s "->").

(** The edge ids an index lists under a service are made of that service's
    id, and the source they are made of holds no arrow. *)
Definition sourced (g : ServiceGraph) : Prop :=
  (forall s k, In k (default [] (mget s (outgoing g))) ->
               arrowFree s = true /\ exists t, k = edgeId s t)
  /\ (forall t k, In k (default [] (mget t (incoming g))) ->
                  exists s, arrowFree s = true /\ k = edgeId s t).

(** A call that adds no edge whose source holds an arrow. *)
Definition arrowFreeCall (c : GraphCall) : Prop :=
  match c with
  | CallAddDependency e => arrowFree (source e) = true
  | _ => True
  end.

(** A node with the timestamps replaced. *)
Definition restamped (now : Z) (n : ServiceNode) : ServiceNode :=
  {| id := id n; name := name n; type := type n; team := team n; owner := owner n;
     tier := tier n; repository := repository n; documentation := documentation n;
     runbooks := runbooks n; tags := tags n; metadata := metadata n;
     createdAt := now; updatedAt := now |}.

(** The nodes of a list restamped with the successive readings of a clock,
    from the [k]-th on. *)
Fixpoint restampedFrom (clock : nat -> Z) (k : nat) (ns : list ServiceNode)
    : list ServiceNode :=
  match ns with
  | [] => []
  | n :: ns' => restamped (clock k) n :: restampedFrom clock (S k) ns'
  end.

End GraphInvariants.

(** ** Graphs by their calls *)

Module GraphExamples.
Import Graph GraphOps Examples.

(** [svc] as the graph stores it when added at the instant [now]. *)
Definition svc_at (i n : string) (ty : ServiceType) (now : Z) : ServiceNode :=
  {| id := i; name := n; type := ty; team := None; owner := None; tier := None;
     repository := None; documentation := None; runbooks := None; tags := [];
     metadata := []; createdAt := now; updatedAt := now |}.

(** The calls that build [cacheGraph]. *)
Definition cacheCalls : list GraphCall :=
  [ CallAddService (svc "api" "API" service) 1000;
    CallAddService (svc "cache" "Cache" cache) 1000;
    CallAddDependency (dep "api" "cache" edge_cache degraded) ].

(** A chain web -> api -> db with a side edge web -> cdn. *)
Definition chainCalls : list GraphCall :=
  [ CallAddService (svc "web" "Web" service) 1000;
    CallAddService (svc "api" "API" service) 1001;
    CallAddService (svc "db" "DB" database) 1002;
    CallAddService (svc "cdn" "CDN" external) 1003;
    CallAddDependency (dep "web" "cdn" edge_external optional);
    CallAddDependency (dep "web" "api" sync critical);
    CallAddDependency (dep "api" "db" edge_database critical) ].

End GraphExamples.

(** ** Approval flow: prompts, audit trail and the Slack wait (agent/approval.ts) *)

Module ApprovalFlow.
Import JsString Approval Webhook.

(** [s.trimStart()] and [s.trim()], white space being [isSpace]. *)
Fixpoint trimStartChars (s : list ascii) : list ascii :=
  match s with
  | c :: s' => if isSpace c then trimStartChars s' else s
  | [] => []
  end.

Definition trim (s : string) : string :=
  string_of_list_ascii
    (List.rev (trimStartChars (List.rev (trimStartChars (list_ascii_of_string s))))).

(** The members of a [MutationRequest] the flow reads; [description],
    [parameters], [rollbackCommand] and [estimatedImpact] are only shown. *)
Record MutationRequest := {
  req_id : string;
  req_operation : string;
  req_resource : string;
  req_riskLevel : RiskLevel
}.

Record ApprovalResult := {
  res_approved : bool;
  res_approvedAt : option Z;
  res_approvedBy : option string;
  res_reason : option string
}.

(** A line of the audit file .runbook/audit/approvals.jsonl. *)
Record ApprovalAuditEntry := {
  audit_timestamp : Z;
  audit_mutationId : string;
  audit_operation : string;
  audit_resource : string;
  audit_riskLevel : RiskLevel;
  audit_approved : bool;
  audit_approvedBy : option string
}.

Definition isCriticalRisk (r : RiskLevel) : bool :=
  match r with critical => true | _ => false end.

Definition riskEqb (a b : RiskLevel) : bool :=
  match a, b with
  | low, low | medium, medium | high, high | critical, critical => true
  | _, _ => false
  end.

(** [logApproval(request, approved, approvedBy)]: one line appended to the
    audit file, the clock read at [now]. *)
Definition logApproval (request : MutationRequest) (approved : bool)
    (approvedBy : option string) (now : Z) (audit : list ApprovalAuditEntry)
    : list ApprovalAuditEntry :=
  audit ++ [{| audit_timestamp := now; audit_mutationId := req_id request;
               audit_operation := req_operation request;
               audit_resource := req_resource request;
               audit_riskLevel := req_riskLevel request;
               audit_approved := approved; audit_approvedBy := approvedBy |}].

(** [a || b] on strings that may be [undefined]: the empty string is falsy. *)
Definition orElse (a : option string) (b : string) : string :=
  match a with
  | Some s => if String.eqb s "" then b else s
  | None => b
  end.

(** The two instants a call reads: the one [logApproval] stamps the audit
    line with and the one the result carries as [approvedAt]. *)
Record Clock := { logged : Z; stamped : Z }.

(** [requestApproval(request)]: [response] is the line typed at the
    prompt, [user] is [process.env.USER]. *)
Definition requestApproval (request : MutationRequest) (response : string)
    (user : option string) (now : Clock) (audit : list ApprovalAuditEntry)
    : ApprovalResult * list ApprovalAuditEntry :=
  let normalizedResponse := trim (toLowerCase response) in
  let approved :=
    if isCriticalRisk (req_riskLevel request)
    then String.eqb normalizedResponse "yes"
    else (String.eqb normalizedResponse "y" || String.eqb normalizedResponse "yes")%bool in
  ({| res_approved := approved;
      res_approvedAt := if approved then Some (stamped now) else None;
      res_approvedBy := Some (orElse user "unknown");
      res_reason := if approved then None else Some "User rejected" |},
   logApproval request approved None (logged now) audit).

(** [waitForCLIApproval(request)] *)
Definition waitForCLIApproval (request : MutationRequest) (response : string)
    (now : Z) : ApprovalResult :=
  let normalizedResponse := trim (toLowerCase response) in
  let approved :=
    if isCriticalRisk (req_riskLevel request)
    then String.eqb normalizedResponse "yes"
    else (negb (String.eqb normalizedResponse "n")
          && negb (String.eqb normalizedResponse "no"))%bool in
  {| res_approved := approved;
     res_approvedAt := if approved then Some now else None;
     res_approvedBy := Some "cli-user";
     res_reason := Some (if approved then "Approved via CLI" else "Rejected via CLI") |}.

(** [canAutoApprove(riskLevel, config)] *)
Definition canAutoApprove (riskLevel : RiskLevel) (autoApprove : option (list RiskLevel))
    : bool :=
  existsb (riskEqb riskLevel) (default [] autoApprove).

Record ApprovalOptions := {
  useSlack : bool;
  slackChannel : option string;
  slackTimeout : option Z;
  autoApprove : option (list RiskLevel)
}.

(** What the flow meets outside itself: the line typed at the prompt, the
    environment, whether Slack is configured and with which default
    channel, whether sending the request to Slack succeeds, and the result
    [Promise.race] settles with. *)
Record World := {
  typed : string;
  envUser : option string;
  slackConfigured : bool;
  defaultChannel : option string;
  sendSucceeds : bool;
  raced : ApprovalResult
}.

(** [requestSlackApproval(request, channel, timeout)] *)
Definition requestSlackApproval (request : MutationRequest) (channel : option string)
    (w : World) (now : Clock) (audit : list ApprovalAuditEntry)
    : ApprovalResult * list ApprovalAuditEntry :=
  let slackChannel := orElse channel (default "" (defaultChannel w)) in
  if String.eqb slackChannel "" then requestApproval request (typed w) (envUser w) now audit
  else if sendSucceeds w
  then (raced w,
        logApproval request (res_approved (raced w)) (res_approvedBy (raced w))
          (logged now) audit)
  else requestApproval request (typed w) (envUser w) now audit.

(** [requestApprovalWithOptions(request, options)] *)
Definition requestApprovalWithOptions (request : MutationRequest)
    (options : ApprovalOptions) (w : World) (now : Clock)
    (audit : list ApprovalAuditEntry)
    : ApprovalResult * list ApprovalAuditEntry :=
  if match autoApprove options with
     | Some levels => existsb (riskEqb (req_riskLevel request)) levels
     | None => false
     end
  then ({| res_approved := true; res_approvedAt := Some (stamped now);
           res_approvedBy := Some "auto-approval";
           res_reason := Some "Auto-approved based on risk level" |},
        logApproval request true (Some "auto-approved") (logged now) audit)
  else if (useSlack options && slackConfigured w)%bool
  then requestSlackApproval request (slackChannel options) w now audit
  else requestApproval request (typed w) (envUser w) now audit.

(** [s.replace(pat, rep)] for a string pattern and a replacement without
    [$]: the first occurrence is replaced. *)
Fixpoint dropChars (n : nat) (s : string) : string :=
  match n, s with
  | S n', String _ s' => dropChars n' s'
  | _, _ => s
  end.

Fixpoint replaceFirst (s pat rep : string) : string :=
  if startsWith s pat then rep +:+ dropChars (String.length pat) s
  else match s with
       | EmptyString => EmptyString
       | String c s' => String c (replaceFirst s' pat rep)
       end.

(** The two files of [waitForSlackApproval(mutationId, timeout)], [dir]
    being [join(process.cwd(), '.runbook', 'pending')]. *)
Definition responseFileOf (dir mutationId : string) : string :=
  join dir (mutationId +:+ ".json").

Definition pendingFileOf (dir mutationId : string) : string :=
  replaceFirst (responseFileOf dir mutationId) ".json" "_pending.json".

(** What [JSON.parse] makes of a file that is not a decision of the
    receiver: it throws, or gives [null], or a value whose members read as
    given. *)
Inductive Parsed :=
  | ParseThrows
  | ParsedNull
  | ParsedValue (approvedIsTrue : bool) (approvedBy reason : option string).

Section Wait.

(** [JSON.stringify({ mutationId, createdAt })] *)
Variable stringifyPending : string -> string -> string.

(** [JSON.parse] on the text of a file. *)
Variable parseText : string -> Parsed.

(** The pending request written before the loop; [iso] is the instant read. *)
Definition announce (dir mutationId iso : string) (fs : FileSystem) : FileSystem :=
  <[pendingFileOf dir mutationId := FileText (stringifyPending mutationId iso)]> fs.

(** The body of the loop: the files after the turn and the result returned,
    if one is. A file that parses to [null] is unlinked before reading a
    member of it throws. *)
Definition pollOnce (dir mutationId : string) (now : Z) (fs : FileSystem)
    : FileSystem * option ApprovalResult :=
  let responseFile := responseFileOf dir mutationId in
  let found (approvedIsTrue : bool) (approvedBy reason : option string) :=
    (delete responseFile fs,
     Some {| res_approved := approvedIsTrue; res_approvedAt := Some now;
             res_approvedBy := Some (orElse approvedBy "slack-user");
             res_reason := reason |}) in
  match fs !! responseFile with
  | None => (fs, None)
  | Some (FileDecision r) =>
      found (approved r) (Some (approvedBy r)) (Some (reason r))
  | Some (FileText s) =>
      match parseText s with
      | ParseThrows => (fs, None)
      | ParsedNull => (delete responseFile fs, None)
      | ParsedValue a b r => found a b r
      end
  end.

(** A turn of the loop as the world presents it: the clock the loop test
    reads, the clock a result is stamped with, and what others did to the
    files since the turn before. *)
Record Turn := {
  turn_now : Z;
  turn_stamp : Z;
  turn_files : FileSystem -> FileSystem
}.

Definition timedOut : ApprovalResult :=
  {| res_approved := false; res_approvedAt := None; res_approvedBy := None;
     res_reason := Some "Slack approval timed out" |}.

(** The loop of [waitForSlackApproval] over the turns given: the files and
    the result, [None] while it is still waiting. *)
Fixpoint waitLoop (dir mutationId : string) (startTime timeout : Z)
    (turns : list Turn) (fs : FileSystem) : FileSystem * option ApprovalResult :=
  match turns with
  | [] => (fs, None)
  | t :: turns' =>
      let fs := turn_files t fs in
      if turn_now t - startTime <? timeout then
        match pollOnce dir mutationId (turn_stamp t) fs with
        | (fs', Some r) => (fs', Some r)
        | (fs', None) => waitLoop dir mutationId startTime timeout turns' fs'
        end
      else (fs, Some timedOut)
  end.

(** [waitForSlackApproval(mutationId, timeout)], started at [startTime]. *)
Definition waitForSlackApproval (dir mutationId iso : string) (startTime timeout : Z)
    (turns : list Turn) (fs : FileSystem) : FileSystem * option ApprovalResult :=
  waitLoop dir mutationId startTime timeout turns (announce dir mutationId iso fs).

End Wait.

End ApprovalFlow.

(** ** More examples of the approval flow *)

Module ApprovalExamples.
Import Examples.

(** A click on the reject button of mutation mut_1. *)
Definition rejectClick : Webhook.SlackAction :=
  {| Webhook.action_id := "reject_mut_1"; Webhook.block_id := "b1";
     Webhook.value := "mut_1" |}.

(** Stand-ins for [JSON.stringify] of a pending request and for
    [JSON.parse] of a foreign file, to run the wait on an example. *)
Definition examplePending (mutationId iso : string) : string :=
  mutationId +:+ "@" +:+ iso.

Definition exampleParse (text : string) : ApprovalFlow.Parsed :=
  ApprovalFlow.ParseThrows.

(** A turn of the wait, one second after its start, before which the
    receiver handled the approve click of the user ops. *)
Definition clickTurn : ApprovalFlow.Turn :=
  {| ApprovalFlow.turn_now := 1700000001000;
     ApprovalFlow.turn_stamp := 1700000001001;
     ApprovalFlow.turn_files :=
       fun files => fst (Webhook.handleApprovalAction approvePayload approveClick
                           "/pending" "2023-11-14T22:13:21.000Z" files) |}.

(** The deletion of a production database, a critical mutation. *)
Definition dropDatabase : ApprovalFlow.MutationRequest :=
  {| ApprovalFlow.req_id := "mut_1"; ApprovalFlow.req_operation := "delete-db";
     ApprovalFlow.req_resource := "prod-db";
     ApprovalFlow.req_riskLevel := Approval.critical |}.

End ApprovalExamples.

(** ** Predicates on scratchpads and plans *)

Module ScratchpadInvariants.
Import JsString Types Scratchpad.

(** The tool result an entry makes [trackToolUsage] count, if it is one. *)
Definition trackedOf (e : ScratchpadEntry) : list ToolResultEntry :=
  match e with
  | EntryToolResult r => [r]
  | EntryTiered r => [base r]
  | EntryOther _ => []
  end.

(** The tool results a call records, oldest first. *)
Definition trackedBy (c : Call) : list ToolResultEntry :=
  match c with
  | CallAppend e => trackedOf e
  | CallAppendToolResult e _ _ _ iso => [stamped e iso]
  | CallLoad parsed => List.concat (List.map trackedOf parsed)
  | _ => []
  end.

Definition tracked (cs : list Call) : list ToolResultEntry :=
  List.concat (List.map trackedBy cs).

(** [trackToolUsage] as the step of a fold. *)
Definition track (u : gmap string ToolUsageStats) (e : ToolResultEntry)
    : gmap string ToolUsageStats :=
  trackToolUsage e u.

(** The results of one tool among them. *)
Definition resultsOf (toolName : string) (l : list ToolResultEntry)
    : list ToolResultEntry :=
  List.filter (fun e => String.eqb (tool e) toolName) l.

(** The query text [trackToolUsage] keeps of a result, if it is a string. *)
Definition queryText (e : ToolResultEntry) : list string :=
  match queryArg (args e) with
  | ArgString q => [q]
  | _ => []
  end.

(** A scored result of a plan names the result id [rid]. *)
Definition names (rid : string) (s : Compactor.ScoredResult) : bool :=
  match Compactor.entry_resultId (Compactor.entry s) with
  | Some i => (negb (String.eqb i "") && String.eqb i rid)%bool
  | None => false
  end.

Definition named (rid : string) (l : list Compactor.ScoredResult) : bool :=
  existsb (names rid) l.

(** The tier a plan leaves a result of tier [t] in. *)
Definition tierAfter (plan : Compactor.CompactionPlan) (rid : string) (t : StorageTier)
    : StorageTier :=
  if named rid (Compactor.plan_clear plan) then cleared
  else if named rid (Compactor.plan_keepCompact plan) then compact
  else if named rid (Compactor.plan_keepFull plan) then full
  else t.

End ScratchpadInvariants.

(** ** Predicates on rankings and allocations *)

Module CompactorInvariants.
Import JsString Types Compactor.
Local Open Scope Q_scope.

(** A ranking in descending order of score. *)
Fixpoint descending (l : list ScoredResult) : Prop :=
  match l with
  | [] => True
  | x :: l' => Forall (fun y => score y <= score x) l' /\ descending l'
  end.

(** A scored result without its [keepFull] flag. *)
Definition unflag (r : ScoredResult) : ScoredResult := setKeepFull false r.

(** The three lists of an allocation, one after the other. *)
Definition allOf (a : Alloc) : list ScoredResult :=
  al_full a ++ al_compact a ++ al_clear a.

(** The ranking [compact] allocates from. *)
Definition ranking (cfg : CompactorConfig)
    (results : list (PlanEntry * option CompactToolResult)) (query : string)
    (st : option Memory.InvestigationState) : list ScoredResult :=
  sortByScore (scoreAll cfg query st (List.length results) results O).

(** The tests of the first and of the second branch of the loop of
    [compact], and of the loop of [compactWithBudget]. *)
Definition countFull (cfg : CompactorConfig) (a : Alloc) (r : ScoredResult) : bool :=
  ((Z.of_nat (List.length (al_full a)) <? maxFullResults cfg)%Z
   && geq (score r) (minScoreForFull cfg))%bool.

Definition countCompact (cfg : CompactorConfig) (a : Alloc) (r : ScoredResult) : bool :=
  ((Z.of_nat (List.length (al_compact a)) <? maxCompactResults cfg)%Z
   && geq (score r) (minScoreToKeep cfg))%bool.

Definition budgetFull (cfg : CompactorConfig) (budget : Z) (a : Alloc) (r : ScoredResult)
    : bool :=
  ((al_used a + tokensPerFullResult cfg <=? budget)%Z
   && geq (score r) (minScoreForFull cfg))%bool.

Definition budgetCompact (cfg : CompactorConfig) (budget : Z) (a : Alloc)
    (r : ScoredResult) : bool :=
  ((al_used a + tokensPerCompactResult cfg <=? budget)%Z
   && geq (score r) (minScoreToKeep cfg))%bool.

(** Once a list after the full one is begun, no later result can pass the
    test of an earlier list. *)
Definition settled (full compactT : Alloc -> ScoredResult -> bool) (a : Alloc)
    (rest : list ScoredResult) : Prop :=
  ((al_compact a <> [] \/ al_clear a <> []) -> Forall (fun r => full a r = false) rest)
  /\ (al_clear a <> [] -> Forall (fun r => compactT a r = false) rest).

End CompactorInvariants.

(** ** Investigation memory: the other mutators *)

Module MemoryOps.
Import JsString Memory.

(** [options.sourceResultId ? [options.sourceResultId] : []] *)
Definition sourceIds (sourceResultId : option string) : list string :=
  match sourceResultId with
  | Some r => if String.eqb r "" then [] else [r]
  | None => []
  end.

Definition withSymptoms (st : InvestigationState) (l : list string) : InvestigationState :=
  {| query := query st; incidentId := incidentId st; sessionId := sessionId st;
     notes := notes st; progressSummary := progressSummary st;
     servicesDiscovered := servicesDiscovered st; symptomsIdentified := l;
     activeHypotheses := activeHypotheses st; prunedHypotheses := prunedHypotheses st;
     confirmedRootCause := confirmedRootCause st;
     currentIteration := currentIteration st; startedAt := startedAt st;
     lastUpdatedAt := lastUpdatedAt st |}.

Definition withServices (st : InvestigationState) (l : list string) (updated : string)
    : InvestigationState :=
  {| query := query st; incidentId := incidentId st; sessionId := sessionId st;
     notes := notes st; progressSummary := progressSummary st;
     servicesDiscovered := l; symptomsIdentified := symptomsIdentified st;
     activeHypotheses := activeHypotheses st; prunedHypotheses := prunedHypotheses st;
     confirmedRootCause := confirmedRootCause st;
     currentIteration := currentIteration st; startedAt := startedAt st;
     lastUpdatedAt := updated |}.

(** [addSymptom(symptom, options)] *)
Definition addSymptom (text : string) (sourceResultId : option string)
    (services : option (list string)) (env : NoteEnv) (st : InvestigationState)
    : InvestigationState * InvestigationNote :=
  let st1 := if mem text (symptomsIdentified st) then st
             else withSymptoms st (symptomsIdentified st ++ [text]) in
  addNote symptom text
    {| opt_confidence := Some conf_high; opt_evidenceStrength := None;
       opt_sourceResultIds := Some (sourceIds sourceResultId);
       opt_servicesInvolved := Some (default [] services);
       opt_hypothesisId := None |} env st1.

(** [addRootCauseCandidate(cause, confidence, options)] *)
Definition addRootCauseCandidate (cause : string) (c : ConfidenceLevel)
    (hid : option string) (services : option (list string)) (env : NoteEnv)
    (st : InvestigationState) : InvestigationState * InvestigationNote :=
  addNote root_cause_candidate cause
    {| opt_confidence := Some c; opt_evidenceStrength := None;
       opt_sourceResultIds := Some [];
       opt_servicesInvolved := Some (default [] services);
       opt_hypothesisId := hid |} env st.

(** [addServiceImpact(service, impact, options)]; [severity] is the text
    of the severity given, if one is. *)
Definition addServiceImpact (svc impact : string) (sourceResultId : option string)
    (severity : option string) (env : NoteEnv) (st : InvestigationState)
    : InvestigationState * InvestigationNote :=
  let st1 := if mem svc (servicesDiscovered st) then st
             else withServices st (servicesDiscovered st ++ [svc]) (lastUpdatedAt st) in
  let text := "Service " +:+ svc +:+ ": " +:+ impact
              +:+ match severity with
                  | Some s => if String.eqb s "" then "" else " (" +:+ s +:+ ")"
                  | None => ""
                  end in
  addNote service_impact text
    {| opt_confidence := Some conf_high; opt_evidenceStrength := None;
       opt_sourceResultIds := Some (sourceIds sourceResultId);
       opt_servicesInvolved := Some [svc];
       opt_hypothesisId := None |} env st1.

(** [addDiscoveredServices(services)], the clock read at [now]. *)
Definition addDiscoveredServices (services : list string) (now : string)
    (st : InvestigationState) : InvestigationState :=
  let newServices :=
    List.filter (fun s => negb (mem s (servicesDiscovered st))) services in
  match newServices with
  | [] => st
  | _ => withServices st (servicesDiscovered st ++ newServices) now
  end.

(** [updateProgressSummary(summary)] *)
Definition updateProgressSummary (summary now : string) (st : InvestigationState)
    : InvestigationState :=
  {| query := query st; incidentId := incidentId st; sessionId := sessionId st;
     notes := notes st; progressSummary := summary;
     servicesDiscovered := servicesDiscovered st;
     symptomsIdentified := symptomsIdentified st;
     activeHypotheses := activeHypotheses st; prunedHypotheses := prunedHypotheses st;
     confirmedRootCause := confirmedRootCause st;
     currentIteration := currentIteration st; startedAt := startedAt st;
     lastUpdatedAt := now |}.

(** [advanceIteration()]: the new state; the number returned is its
    [currentIteration]. *)
Definition advanceIteration (now : string) (st : InvestigationState)
    : InvestigationState :=
  {| query := query st; incidentId := incidentId st; sessionId := sessionId st;
     notes := notes st; progressSummary := progressSummary st;
     servicesDiscovered := servicesDiscovered st;
     symptomsIdentified := symptomsIdentified st;
     activeHypotheses := activeHypotheses st; prunedHypotheses := prunedHypotheses st;
     confirmedRootCause := confirmedRootCause st;
     currentIteration := S (currentIteration st); startedAt := startedAt st;
     lastUpdatedAt := now |}.

(** [isResultCited(resultId)] *)
Definition isResultCited (rid : string) (st : InvestigationState) : bool :=
  existsb (fun n => mem rid (sourceResultIds n)) (notes st).

(** [getNotesByHypothesis(hypothesisId)] *)
Definition getNotesByHypothesis (hid : string) (st : InvestigationState)
    : list InvestigationNote :=
  List.filter (attachedTo hid) (notes st).

(** The calls that change the memory. *)
Inductive MemoryCall :=
  | CallAddNote (ty : FindingType) (text : string) (o : NoteOptions) (env : NoteEnv)
  | CallAddSymptom (text : string) (sourceResultId : option string)
      (services : option (list string)) (env : NoteEnv)
  | CallAddEvidence (hid text : string) (strength : EvidenceStrength)
      (sourceResultId : option string) (services : option (list string)) (env : NoteEnv)
  | CallAddHypothesisUpdate (h : HypothesisT) (action : HypothesisAction)
      (reasoning : option string) (env : NoteEnv)
  | CallAddRootCauseCandidate (cause : string) (c : ConfidenceLevel)
      (hid : option string) (services : option (list string)) (env : NoteEnv)
  | CallAddServiceImpact (svc impact : string) (sourceResultId : option string)
      (severity : option string) (env : NoteEnv)
  | CallAddDiscoveredServices (services : list string) (now : string)
  | CallUpdateProgressSummary (summary now : string)
  | CallAdvanceIteration (now : string).

Definition call (st : InvestigationState) (c : MemoryCall) : InvestigationState :=
  match c with
  | CallAddNote ty text o env => fst (addNote ty text o env st)
  | CallAddSymptom text r s env => fst (addSymptom text r s env st)
  | CallAddEvidence hid text strength r s env =>
      fst (addEvidence hid text strength r s env st)
  | CallAddHypothesisUpdate h action reasoning env =>
      fst (addHypothesisUpdate h action reasoning env st)
  | CallAddRootCauseCandidate cause c hid s env =>
      fst (addRootCauseCandidate cause c hid s env st)
  | CallAddServiceImpact svc impact r sev env =>
      fst (addServiceImpact svc impact r sev env st)
  | CallAddDiscoveredServices services now => addDiscoveredServices services now st
  | CallUpdateProgressSummary summary now => updateProgressSummary summary now st
  | CallAdvanceIteration now => advanceIteration now st
  end.

Definition run (st : InvestigationState) (cs : list MemoryCall) : InvestigationState :=
  fold_left call cs st.

(** Whether a call adds a note, or advances the iteration. *)
Definition addsNote (c : MemoryCall) : bool :=
  match c with
  | CallAddDiscoveredServices _ _ | CallUpdateProgressSummary _ _
  | CallAdvanceIteration _ => false
  | _ => true
  end.

Definition advances (c : MemoryCall) : bool :=
  match c with CallAdvanceIteration _ => true | _ => false end.

End MemoryOps.

(** ** Predicates on impact paths *)

Module ImpactInvariants.
Import JsString JsMap Graph ServiceContext.

(** A step of an impact traversal: upstream along an edge coming in, to
    its source; downstream along an edge going out, to its target. *)
Definition stepIn (g : ServiceGraph) (up : bool) (a b : string) : Prop :=
  exists eid e,
    In eid (default [] (mget a (if up then incoming g else outgoing g)))
    /\ mget eid (edges g) = Some e
    /\ (if up then source e else target e) = b.

Fixpoint walkIn (g : ServiceGraph) (up : bool) (a : string) (rest : list string)
    (z : string) : Prop :=
  match rest with
  | [] => a = z
  | b :: rest' => stepIn g up a b /\ walkIn g up b rest' z
  end.

(** What every path pushed by a traversal within [bound] nodes satisfies. *)
Definition followsEdges (g : ServiceGraph) (up : bool) (serviceId : string)
    (bound : nat) (p : ImpactPath) : Prop :=
  exists rest, path p = serviceId :: rest
               /\ walkIn g up serviceId rest (affected p)
               /\ hops p = S (List.length rest)
               /\ (hops p <= bound)%nat.

(** Paths in ascending order of hops. *)
Fixpoint ascendingHops (l : list ImpactPath) : Prop :=
  match l with
  | [] => True
  | p :: l' => Forall (fun q => (hops p <= hops q)%nat) l' /\ ascendingHops l'
  end.

(** A critical path of the blast radius and the service it reaches. *)
Definition reaches (g : ServiceGraph) (p : ImpactPath) (s : ServiceNode) : Prop :=
  getService (affected p) g = Some s /\ tier s = Some tier_critical.

End ImpactInvariants.

(** ** A scratchpad and a plan *)

Module ScratchpadExamples.
Import Examples.

(** The scratchpad once one call of T is recorded. *)
Definition oneResult : Scratchpad.Scratchpad := afterCalls capThree "T" ["alpha"].

(** A plan that clears the result recorded. *)
Definition clearingPlan : Compactor.CompactionPlan :=
  {| Compactor.plan_keepFull := []; Compactor.plan_keepCompact := [];
     Compactor.plan_clear :=
       [ {| Compactor.entry :=
              {| Compactor.entry_base :=
                   Scratchpad.stamped (queried "T" "alpha") "2023-11-14T22:13:20.000Z";
                 Compactor.entry_resultId := Some "t-3v2801" |};
            Compactor.score := 17 # 100;
            Compactor.components :=
              {| Compactor.recency := 1 # 10; Compactor.queryRelevance := 0;
                 Compactor.errorSignals := 0; Compactor.hypothesisRelevance := 0;
                 Compactor.serviceRelevance := 0; Compactor.citedInNotes := 1 |};
            Compactor.scored_compact := None;
            Compactor.keepFull := false |} ];
     Compactor.estimatedTokensSaved := 2000 |}.

(** A result scored [s] outside [scoreResult]. *)
Definition scoredAt (rid : string) (s : Q) : Compactor.ScoredResult :=
  {| Compactor.entry := fst (quietResult rid);
     Compactor.score := s;
     Compactor.components :=
       {| Compactor.recency := 0; Compactor.queryRelevance := 0;
          Compactor.errorSignals := 0; Compactor.hypothesisRelevance := 0;
          Compactor.serviceRelevance := 0; Compactor.citedInNotes := 0 |};
     Compactor.scored_compact := snd (quietResult rid);
     Compactor.keepFull := false |}.

(** Two results whose scores are neighbouring doubles: aws-0003 at
    0.19999999999999998, that is 7205759403792793 / 2^55, and after it
    aws-0010 at 0.2, that is 7205759403792794 / 2^55. *)
Definition closeScores : list Compactor.ScoredResult :=
  [ scoredAt "aws-0003" (7205759403792793 # 36028797018963968);
    scoredAt "aws-0010" (7205759403792794 # 36028797018963968) ].

End ScratchpadExamples.

(** * Properties *)

(** ** Approval protocol *)

Section ApprovalFacts.
Import JsString Approval.

Lemma existsb_includes_cons s kw kws :
  includesAny s (kw :: kws) = (includes s kw || includesAny s kws)%bool.
Proof. reflexivity. Qed.

Lemma includesAny_nil s : includesAny s [] = false.
Proof. reflexivity. Qed.

(** Case analysis on every substring test left in the goal, one at a time. *)
Ltac split_includes :=
  repeat match goal with
         | |- context [includes ?s ?kw] =>
             destruct (includes s kw); cbn [orb andb negb]; try reflexivity
         end.

(** C8 (as stated, refuted): an operation that only "changes" something is
    none of the listed critical, high or medium operations, so the stated
    table makes it low; the code classifies it medium. *)
Lemma classifyRisk_change_is_medium :
  classifyRisk "change-config" "web" = medium
  /\ classifyRisk_spec "change-config" "web" = low.
Proof. split; reflexivity. Qed.

(** C8 (amended): [classifyRisk] lower-cases both arguments and returns
    critical when the operation contains delete, terminate, destroy,
    truncate or drop; otherwise high when it contains restart, reboot or
    stop, or contains scale while the resource contains down, or contains
    deploy or update-service, or contains update or modify while the
    resource contains production or prod; otherwise medium when it contains
    update, modify, change or scale; and low otherwise. *)
Theorem classifyRisk_table (operation resource : string) :
  let op := toLowerCase operation in
  let res := toLowerCase resource in
  classifyRisk operation resource =
    if includesAny op ["delete"; "terminate"; "destroy"; "truncate"; "drop"]
    then critical
    else if (includesAny op ["restart"; "reboot"; "stop"]
             || (includes op "scale" && includes res "down")
             || includesAny op ["deploy"; "update-service"]
             || (includesAny op ["update"; "modify"]
                 && includesAny res ["production"; "prod"]))%bool
    then high
    else if includesAny op ["update"; "modify"; "change"; "scale"] then medium
    else low.
Proof.
  intros op res. unfold classifyRisk. fold op. fold res.
  rewrite !existsb_includes_cons, !includesAny_nil.
  split_includes.
Qed.

Lemma logAfter_snoc times t :
  logAfter (times ++ [t]) = recordCriticalMutation t (logAfter times).
Proof. unfold logAfter. now rewrite fold_left_app. Qed.

Lemma logAfter_lookup times : logAfter times !! "critical" = last times.
Proof.
  induction times as [|t times _] using rev_ind; [reflexivity|].
  rewrite logAfter_snoc, last_snoc. unfold recordCriticalMutation.
  apply lookup_insert_eq.
Qed.

(** C10: [checkCooldown] never reads its operation argument, whatever the
    log holds; and after the process recorded critical mutations at the
    instants [times], the answer depends on the last of them alone: allowed
    with nothing remaining when there is none or when at least [cooldownMs]
    have elapsed since, refused with [cooldownMs] minus the elapsed time
    remaining otherwise. *)
Theorem checkCooldown_ignores_operation
    (op1 op2 : string) (cooldownMs : option Z) (now : Z) :
  (forall log : gmap string Z,
      checkCooldown op1 cooldownMs now log = checkCooldown op2 cooldownMs now log)
  /\ (forall times : list Z,
        checkCooldown op1 cooldownMs now (logAfter times) =
          match last times with
          | None => {| allowed := true; remainingMs := 0 |}
          | Some lastMutation =>
              if default 60000 cooldownMs <=? now - lastMutation
              then {| allowed := true; remainingMs := 0 |}
              else {| allowed := false;
                      remainingMs := default 60000 cooldownMs - (now - lastMutation) |}
          end).
Proof.
  split; [reflexivity|].
  intros times. unfold checkCooldown. rewrite logAfter_lookup.
  destruct (last times) as [t|]; [|reflexivity].
  cbv zeta. rewrite Z.geb_leb. reflexivity.
Qed.

End ApprovalFacts.

(** ** Service graph and blast radius *)

Section GraphFacts.
Import JsString JsMap Graph ServiceContext Invariants.

Lemma fold_left_preserves {A B : Type} (P : A -> Prop) (f : A -> B -> A)
    (l : list B) (a : A) :
  (forall a' b, In b l -> P a' -> P (f a' b)) -> P a -> P (fold_left f l a).
Proof.
  revert a. induction l as [|b l IH]; intros a Hstep Ha; [exact Ha|].
  cbn [fold_left]. apply IH.
  - intros a' b' Hb'. apply Hstep. now right.
  - apply Hstep; [now left | exact Ha].
Qed.

Lemma hd_error_snoc {A : Type} (l : list A) (x y : A) :
  List.hd_error l = Some x -> List.hd_error (l ++ [y]) = Some x.
Proof. destruct l; [discriminate | trivial]. Qed.

Lemma traverse_wellFormed g up serviceId budget :
  forall current pth crit st,
    List.hd_error pth = Some serviceId ->
    Forall (wellFormedImpact serviceId) (fst st) ->
    Forall (wellFormedImpact serviceId)
      (fst (traverse g up serviceId budget current pth crit st)).
Proof.
  induction budget as [|budget IH]; intros current pth crit st Hhd Hst; [exact Hst|].
  cbn [traverse]. destruct (mem current (snd st)); [exact Hst|].
  apply fold_left_preserves; [|exact Hst].
  intros st' eid _ Hst'. destruct (mget eid (edges g)) as [edge|]; [|exact Hst'].
  apply IH.
  - now apply hd_error_snoc.
  - cbn [fst]. apply Forall_app. split; [exact Hst'|].
    constructor; [|constructor].
    unfold wellFormedImpact; cbn.
    repeat split.
    + rewrite length_app. cbn. destruct pth; [discriminate | cbn; lia].
    + now apply hd_error_snoc.
Qed.

(** The seed ['critical'] is least in the table of [mergeCriticality], so
    it is what every merge along a path returns. *)
Lemma mergeCriticality_critical c : mergeCriticality critical c = critical.
Proof. now destruct c. Qed.

Lemma traverse_critical g up serviceId budget :
  forall current pth st,
    Forall (fun p => impact_criticality p = critical) (fst st) ->
    Forall (fun p => impact_criticality p = critical)
      (fst (traverse g up serviceId budget current pth critical st)).
Proof.
  induction budget as [|budget IH]; intros current pth st Hst; [exact Hst|].
  cbn [traverse]. destruct (mem current (snd st)); [exact Hst|].
  apply fold_left_preserves; [|exact Hst].
  intros st' eid _ Hst'. destruct (mget eid (edges g)) as [edge|]; [|exact Hst'].
  rewrite mergeCriticality_critical. apply IH.
  cbn [fst]. apply Forall_app. split; [exact Hst'|].
  constructor; [reflexivity | constructor].
Qed.

Lemma insertByHops_In p q l : In q (insertByHops p l) <-> q = p \/ In q l.
Proof.
  induction l as [|r l IH]; cbn.
  - intuition.
  - destruct (Nat.leb (hops p) (hops r)); cbn; [intuition|].
    rewrite IH. intuition.
Qed.

Lemma sortByHops_In q l : In q (sortByHops l) <-> In q l.
Proof.
  induction l as [|p l IH]; cbn; [tauto|].
  rewrite insertByHops_In, IH. intuition.
Qed.

Lemma sortByHops_Forall (P : ImpactPath -> Prop) l :
  Forall P l -> Forall P (sortByHops l).
Proof.
  rewrite !List.Forall_forall. intros H q Hq. apply H. now apply sortByHops_In.
Qed.

Lemma impact_wellFormed g (up : bool) serviceId maxDepth p :
  In p (if up then getUpstreamImpact g serviceId maxDepth
        else getDownstreamImpact g serviceId maxDepth) ->
  wellFormedImpact serviceId p /\ impact_criticality p = critical.
Proof.
  intros Hp. split.
  - revert p Hp. apply List.Forall_forall.
    destruct up; apply sortByHops_Forall, traverse_wellFormed;
      first [reflexivity | constructor].
  - revert p Hp. apply List.Forall_forall.
    destruct up; apply sortByHops_Forall, traverse_critical; constructor.
Qed.

(** X1: whatever the graph, the service and the depth, every impact path
    returned by [getUpstreamImpact] and by [getDownstreamImpact] carries the
    criticality critical. *)
Theorem impact_always_critical (g : ServiceGraph) (serviceId : string)
    (maxDepth : option Z) :
  Forall (fun p => impact_criticality p = critical)
    (getUpstreamImpact g serviceId maxDepth)
  /\ Forall (fun p => impact_criticality p = critical)
       (getDownstreamImpact g serviceId maxDepth).
Proof.
  split; apply List.Forall_forall; intros p Hp.
  - now apply (impact_wellFormed g true serviceId maxDepth p).
  - now apply (impact_wellFormed g false serviceId maxDepth p).
Qed.

Lemma mem_true_iff x xs : mem x xs = true <-> In x xs.
Proof.
  unfold mem. rewrite existsb_exists. split.
  - intros (y & Hy & Heq). apply String.eqb_eq in Heq. now subst.
  - intros Hx. exists x. split; [exact Hx | apply String.eqb_refl].
Qed.

Lemma sadd_In x y s : In x (sadd y s) <-> x = y \/ In x s.
Proof.
  unfold sadd. destruct (mem y s) eqn:Hm.
  - apply mem_true_iff in Hm. split; [now right | intros [->|]; trivial].
  - rewrite in_app_iff. cbn. intuition.
Qed.

Lemma blastStep_inv g a0 a p :
  (2 <= hops p)%nat -> blastInv g a0 a ->
  blastInv g a0 (blastStep g a p) /\ In (affected p) (acc_seen (blastStep g a p))
  /\ (forall x, In x (acc_seen a) -> In x (acc_seen (blastStep g a p))).
Proof.
  intros Hh [Hd Hs]. unfold blastStep.
  destruct (mem (affected p) (acc_seen a)) eqn:Hm.
  - apply mem_true_iff in Hm. repeat split; trivial.
  - destruct (getService (affected p) g) as [svc|] eqn:Hsvc; cbn.
    + assert (Nat.eqb (hops p) 1 = false) as -> by (apply Nat.eqb_neq; lia).
      repeat split; trivial.
      * intros x s [->|Hx]%sadd_In Hx'; apply in_app_iff.
        -- right. left. congruence.
        -- left. eauto.
      * apply sadd_In. now left.
      * intros x Hx. apply sadd_In. now right.
    + repeat split; trivial.
      * intros x s [->|Hx]%sadd_In Hx'; [congruence | eauto].
      * apply sadd_In. now left.
      * intros x Hx. apply sadd_In. now right.
Qed.

Lemma blastLoop_inv g a0 ps :
  forall a, Forall (fun p => (2 <= hops p)%nat) ps -> blastInv g a0 a ->
    blastInv g a0 (fold_left (blastStep g) ps a)
    /\ (forall p, In p ps -> In (affected p) (acc_seen (fold_left (blastStep g) ps a)))
    /\ (forall x, In x (acc_seen a) -> In x (acc_seen (fold_left (blastStep g) ps a))).
Proof.
  induction ps as [|p ps IH]; intros a Hps Ha.
  - repeat split; [apply Ha | apply Ha | contradiction | trivial].
  - apply Forall_cons_1 in Hps as [Hp Hps].
    destruct (blastStep_inv g a0 a p Hp Ha) as (Ha' & Hin & Hmono).
    destruct (IH _ Hps Ha') as (Hfin & Hall & Hmono').
    cbn [fold_left]. repeat split; try apply Hfin.
    + intros q [<-|Hq]; [now apply Hmono' | now apply Hall].
    + intros x Hx. now apply Hmono', Hmono.
Qed.

(** C9: every impact path of [getUpstreamImpact] has [hops] equal to the
    length of its stored path, which starts at the queried service, so
    [hops] is at least 2; hence [calculateBlastRadius], whose test for a
    direct dependent is [hops === 1], returns no direct dependent and puts
    every affected service the graph knows among the transitive ones. *)
Theorem blast_radius_never_direct (g : ServiceGraph) (serviceId : string) :
  (forall (maxDepth : option Z) (p : ImpactPath),
      In p (getUpstreamImpact g serviceId maxDepth) ->
      hops p = List.length (path p)
      /\ List.hd_error (path p) = Some serviceId
      /\ (2 <= hops p)%nat)
  /\ (forall maxDependentsDepth : Z,
        let br := calculateBlastRadius g maxDependentsDepth serviceId in
        directDependents br = []
        /\ totalAffected br = List.length (transitiveDependents br)
        /\ forall (p : ImpactPath) (s : ServiceNode),
             In p (getUpstreamImpact g serviceId (Some maxDependentsDepth)) ->
             getService (affected p) g = Some s ->
             In s (transitiveDependents br)).
Proof.
  split.
  - intros maxDepth p Hp.
    destruct (impact_wellFormed g true serviceId maxDepth p Hp) as [(H1 & H2 & H3 & _) _].
    auto.
  - intros maxDependentsDepth br.
    set (a0 := {| acc_direct := []; acc_transitive := []; acc_critical := [];
                  acc_paths := []; acc_seen := [] |}).
    destruct (blastLoop_inv g a0
                (getUpstreamImpact g serviceId (Some maxDependentsDepth)) a0)
      as ((Hd & Hs) & Hall & _).
    + apply List.Forall_forall. intros p Hp.
      now destruct (impact_wellFormed g true serviceId _ p Hp) as [(_ & H2 & _) _].
    + split; [reflexivity | intros x s []].
    + subst br. unfold calculateBlastRadius. fold a0. cbn.
      rewrite Hd. cbn. repeat split; trivial.
      intros p s Hp Hsvc. apply (Hs (affected p)); [apply Hall, Hp | exact Hsvc].
Qed.

End GraphFacts.

(** ** Impact criticality and the JSON round trip *)

Section GraphRoundTrip.
Import JsString JsMap Graph Examples.

(** C1 (the code at the failing input): with the single edge api -> cache
    of degraded criticality, the one impact path downstream of api, and the
    one upstream of cache, is reported critical, while the least
    criticality among the edges of its stored path is degraded. The seed
    ['critical'] of the traversal is the least element of the order, so the
    merge returns it whatever the edges are. *)
Theorem impact_criticality_is_the_seed :
  getDownstreamImpact cacheGraph "api" None
    = [{| impact_source := "api"; affected := "cache"; path := ["api"; "cache"];
          hops := 2; impact_criticality := critical |}]
  /\ pathMinCriticality cacheGraph false ["api"; "cache"] = Some degraded
  /\ getUpstreamImpact cacheGraph "cache" None
    = [{| impact_source := "cache"; affected := "api"; path := ["cache"; "api"];
          hops := 2; impact_criticality := critical |}]
  /\ pathMinCriticality cacheGraph true ["cache"; "api"] = Some degraded.
Proof. repeat split; vm_compute; reflexivity. Qed.

(** C2 (the code at the failing input): a graph whose service api was
    added at instant 1000, written with [toJSON] and read back with
    [fromJSON] at instant 2000, holds api with both timestamps 2000:
    [addService] stamps the node anew over the dates [fromJSON] parsed. *)
Theorem fromJSON_restamps_nodes :
  let g := addService (svc "api" "API" service) 1000 empty in
  let restored := fromJSON (toJSON g) (fun _ => 2000) in
  option_map (fun n => (createdAt n, updatedAt n)) (getService "api" g)
    = Some (1000, 1000)
  /\ option_map (fun n => (createdAt n, updatedAt n)) (getService "api" restored)
    = Some (2000, 2000).
Proof. split; reflexivity. Qed.

Lemma mset_values_Forall {V : Type} (P : V -> Prop) k v (m : list (string * V)) :
  P v -> Forall P (mvalues m) -> Forall P (mvalues (mset k v m)).
Proof.
  intros Hv. unfold mvalues. induction m as [|[k' v'] m IH]; cbn; intros Hm.
  - now constructor.
  - apply Forall_cons_1 in Hm as [Hv' Hm].
    destruct (String.eqb k k'); cbn; constructor; auto.
Qed.

Lemma addDependency_nodes edge g : nodes (addDependency edge g) = nodes g.
Proof. reflexivity. Qed.

(** X3: every node of a graph read by [fromJSON] carries, as [createdAt]
    and as [updatedAt], an instant read from the clock during the call, not
    the instants of the document. *)
Theorem fromJSON_stamps_from_clock (doc : GraphDocument) (clock : nat -> Z) :
  Forall (fun n => exists k, createdAt n = clock k /\ updatedAt n = clock k)
    (getAllServices (fromJSON doc clock)).
Proof.
  unfold fromJSON, getAllServices.
  set (P := fun n => exists k, createdAt n = clock k /\ updatedAt n = clock k).
  assert (forall es g, Forall P (mvalues (nodes g)) ->
            Forall P (mvalues (nodes (fold_left (fun g e => addDependency e g) es g))))
    as Hedges.
  { induction es as [|e es IH]; intros g Hg; [exact Hg|].
    cbn [fold_left]. apply IH. now rewrite addDependency_nodes. }
  apply Hedges.
  apply (fold_left_preserves (fun acc : ServiceGraph * nat => Forall P (mvalues (nodes (fst acc))))).
  - intros [g k] node _ Hg. cbn [fst snd addService nodes] in *.
    apply mset_values_Forall; [|exact Hg]. exists k. split; reflexivity.
  - constructor.
Qed.

End GraphRoundTrip.

(** ** Investigation memory *)

Section MemoryFacts.
Import JsString Memory Examples.

(** C4 (as stated, refuted): confirming h1 after a single weak evidence
    note puts that note's content in the evidence of the root cause,
    though no strong-evidence note is attached to h1. *)
Lemma confirmed_evidence_includes_weak :
  option_map rc_evidence
    (confirmedRootCause
       (fst (addHypothesisUpdate cpuHypothesis confirmed None
               {| env_id := "note-2"; env_now := "2024-01-01T00:00:02.000Z" |}
               weakEvidenceState)))
    = Some ["cpu at 60 percent"]
  /\ strongEvidenceContents "h1" weakEvidenceState = [].
Proof. split; reflexivity. Qed.

(** C4 (amended): marking a hypothesis confirmed sets [confirmedRootCause]
    to the hypothesis's statement, with high confidence, and with evidence
    the contents, in order, of all the notes of type evidence attached to
    that hypothesis, whatever their strength; so it holds the content of
    every strong evidence note recorded for the hypothesis. *)
Theorem confirmed_root_cause (h : HypothesisT) (reasoning : option string)
    (env : NoteEnv) (st : InvestigationState) :
  let st' := fst (addHypothesisUpdate h confirmed reasoning env st) in
  let attached :=
    List.filter (fun n => (attachedTo (hyp_id h) n && isEvidence (note_type n))%bool)
      (notes st) in
  confirmedRootCause st'
    = Some {| rc_hypothesis := statement h; rc_confidence := conf_high;
              rc_evidence := List.map content attached |}
  /\ (forall n, In n (notes st) -> note_type n = evidence ->
                hypothesisId n = Some (hyp_id h) ->
                In (content n) (List.map content attached))
  /\ (forall c, In c (List.map content attached) ->
                exists n, In n (notes st) /\ content n = c
                          /\ note_type n = evidence
                          /\ hypothesisId n = Some (hyp_id h)).
Proof.
  cbv zeta. split; [reflexivity|]. split.
  - intros n Hn Hty Hh. apply in_map, filter_In. split; [exact Hn|].
    unfold attachedTo. rewrite Hh, Hty, String.eqb_refl. reflexivity.
  - intros c (n & <- & [Hn Hc]%filter_In)%in_map_iff.
    exists n. repeat split; trivial.
    + apply andb_prop in Hc as [_ Hc]. now destruct (note_type n).
    + apply andb_prop in Hc as [Hc _]. unfold attachedTo in Hc.
      destruct (hypothesisId n) as [i|]; [|discriminate].
      apply String.eqb_eq in Hc. now subst.
Qed.

End MemoryFacts.

(** ** Context compactor *)

Section CompactorFacts.
Import JsString Types Compactor Examples Invariants.
Local Open Scope Q_scope.

Lemma Qdiv_nonneg (a b : nat) :
  0 <= inject_Z (Z.of_nat a) / inject_Z (Z.of_nat b).
Proof.
  unfold Qdiv. apply Qmult_le_0_compat.
  - unfold Qle, inject_Z; cbn. lia.
  - unfold Qle, Qinv, inject_Z; cbn. destruct (Z.of_nat b) eqn:Hb; cbn; lia.
Qed.

Lemma scoreRecency_nonneg i n : 0 <= scoreRecency i n.
Proof.
  unfold scoreRecency. destruct (Nat.leb n 1); [discriminate|].
  pose proof (Qdiv_nonneg i (n - 1)) as H.
  set (x := inject_Z (Z.of_nat i) / inject_Z (Z.of_nat (n - 1))) in *.
  lra.
Qed.

Lemma scoreQueryRelevance_nonneg e q : 0 <= scoreQueryRelevance e q.
Proof.
  unfold scoreQueryRelevance. apply Q.min_glb; [discriminate|].
  apply Qdiv_nonneg.
Qed.

Lemma scoreErrorSignals_nonneg e c : 0 <= scoreErrorSignals e c.
Proof.
  unfold scoreErrorSignals.
  destruct c as [[? ? ? [] []]|];
    repeat match goal with |- context [if ?b then _ else _] => destruct b end;
    discriminate.
Qed.

Lemma firstEvidenceMatch_nonneg e ids ns s :
  firstEvidenceMatch e ids ns = Some s -> 0 <= s.
Proof.
  induction ns as [|n ns IH]; cbn; [discriminate|].
  destruct (Memory.hypothesisId n); [|exact IH].
  match goal with |- context [if ?b then _ else _] => destruct b end; [|exact IH].
  intros [= <-]. destruct (Memory.evidenceStrength n) as [[]|]; discriminate.
Qed.

Lemma scoreHypothesisRelevance_nonneg e st act :
  0 <= scoreHypothesisRelevance e st act.
Proof.
  unfold scoreHypothesisRelevance.
  assert (forall (st' : Memory.InvestigationState) ids,
             0 <= match firstEvidenceMatch e ids (Memory.notes st') with
                  | Some s => s
                  | None =>
                      if existsb
                           (fun s => includes (toLowerCase (args_json (args e)))
                                       (take 20 (toLowerCase s)))
                           (Memory.symptomsIdentified st')
                      then 5 # 10 else 0
                  end) as Hst.
  { intros st' ids.
    destruct (firstEvidenceMatch e ids (Memory.notes st')) eqn:Hm.
    - eapply firstEvidenceMatch_nonneg, Hm.
    - destruct (existsb _ _); discriminate. }
  destruct st as [st'|], act as [[|a ids]|]; try discriminate; try apply Hst.
  destruct (Memory.activeHypotheses st'); [discriminate | apply Hst].
Qed.

Lemma firstServiceMatch_nonneg rs a r svcs : 0 <= firstServiceMatch rs a r svcs.
Proof.
  induction svcs as [|s svcs IH]; cbn; [discriminate|].
  repeat match goal with |- context [if ?b then _ else _] => destruct b end;
    first [discriminate | exact IH].
Qed.

Lemma scoreServiceRelevance_nonneg e svcs c : 0 <= scoreServiceRelevance e svcs c.
Proof.
  unfold scoreServiceRelevance. destruct svcs as [[|s svcs]|]; try discriminate.
  apply firstServiceMatch_nonneg.
Qed.

Lemma scoreCitedInNotes_nonneg r ids : 0 <= scoreCitedInNotes r ids.
Proof.
  unfold scoreCitedInNotes. destruct r, ids; try discriminate.
  repeat match goal with |- context [if ?b then _ else _] => destruct b end;
    discriminate.
Qed.

Lemma scoreResult_citationCounts cfg st e ctx :
  nonnegWeights (weights cfg) ->
  ctx_resultIdToCited ctx = Some (citedIds st) ->
  citationCounts cfg st (scoreResult cfg e ctx).
Proof.
  intros (H1 & H2 & H3 & H4 & H5 & H6) Hctx Hcited.
  unfold citedResult in Hcited. cbn in Hcited.
  destruct (ctx_compact ctx) as [c|] eqn:Hc; [|contradiction].
  destruct Hcited as [Hne Hin].
  cbn [scoreResult score]. unfold computeWeightedScore, computeScoreComponents.
  cbn [recency queryRelevance errorSignals hypothesisRelevance serviceRelevance
       citedInNotes].
  rewrite Hctx, Hc. cbn [option_map scoreCitedInNotes].
  apply String.eqb_neq in Hne. rewrite Hne.
  apply mem_true_iff in Hin. rewrite Hin.
  pose proof (Qmult_le_0_compat _ _
    (scoreRecency_nonneg (ctx_resultIndex ctx) (ctx_totalResults ctx)) H1).
  pose proof (Qmult_le_0_compat _ _
    (scoreQueryRelevance_nonneg (entry_base e) (ctx_query ctx)) H2).
  pose proof (Qmult_le_0_compat _ _
    (scoreErrorSignals_nonneg (entry_base e) (Some c)) H3).
  pose proof (Qmult_le_0_compat _ _
    (scoreHypothesisRelevance_nonneg (entry_base e) (ctx_investigationState ctx)
       (ctx_activeHypotheses ctx)) H4).
  pose proof (Qmult_le_0_compat _ _
    (scoreServiceRelevance_nonneg (entry_base e)
       (ctx_servicesUnderInvestigation ctx) (Some c)) H5).
  lra.
Qed.

Lemma scoreAll_citationCounts cfg q st total rs :
  nonnegWeights (weights cfg) ->
  forall index, Forall (citationCounts cfg st) (scoreAll cfg q st total rs index).
Proof.
  intros Hw. induction rs as [|[e c] rs IH]; intros index; cbn [scoreAll].
  - constructor.
  - constructor; [|apply IH]. now apply scoreResult_citationCounts.
Qed.

Lemma scoreAll_length cfg q st total rs index :
  List.length (scoreAll cfg q st total rs index) = List.length rs.
Proof.
  revert index. induction rs as [|[e c] rs IH]; intros index; cbn; [|rewrite IH];
    reflexivity.
Qed.

Lemma insertByScore_In x q l : In q (insertByScore x l) <-> q = x \/ In q l.
Proof.
  induction l as [|y l IH]; cbn.
  - intuition.
  - destruct (geq (score x) (score y)); cbn; [intuition|].
    rewrite IH. intuition.
Qed.

Lemma sortByScore_In q l : In q (sortByScore l) <-> In q l.
Proof.
  induction l as [|x l IH]; cbn; [tauto|].
  rewrite insertByScore_In, IH. intuition.
Qed.

Lemma insertByScore_length x l :
  List.length (insertByScore x l) = S (List.length l).
Proof.
  induction l as [|y l IH]; cbn; [reflexivity|].
  destruct (geq (score x) (score y)); cbn; [|rewrite IH]; reflexivity.
Qed.

Lemma sortByScore_length l : List.length (sortByScore l) = List.length l.
Proof.
  induction l as [|x l IH]; [reflexivity|].
  change (sortByScore (x :: l)) with (insertByScore x (sortByScore l)).
  now rewrite insertByScore_length, IH.
Qed.

(** The count-based loop with room for every result in the compact tier:
    what it clears scores below the floor of that tier. *)
Lemma countLoop_clear cfg (P : ScoredResult -> Prop) rs :
  (forall r b, P r -> P (setKeepFull b r)) ->
  forall a,
    (Z.of_nat (List.length (al_compact a)) + Z.of_nat (List.length rs)
     <= maxCompactResults cfg)%Z ->
    Forall P rs ->
    Forall (fun s => P s /\ ~ minScoreToKeep cfg <= score s) (al_clear a) ->
    Forall (fun s => P s /\ ~ minScoreToKeep cfg <= score s)
      (al_clear (fold_left (countStep cfg) rs a)).
Proof.
  intros HP. induction rs as [|r rs IH]; intros a Hroom Hrs Ha; [exact Ha|].
  apply Forall_cons_1 in Hrs as [Hr Hrs].
  cbn [fold_left]. apply IH; [|exact Hrs|]; unfold countStep;
    cbn [List.length] in Hroom.
  - destruct (_ && _)%bool; cbn [al_compact]; [lia|].
    destruct (_ && _)%bool; cbn [al_compact]; [|lia].
    rewrite length_app. cbn. lia.
  - destruct (_ && _)%bool; cbn [al_clear]; [exact Ha|].
    destruct ((Z.of_nat (List.length (al_compact a)) <? maxCompactResults cfg)%Z
              && geq (score r) (minScoreToKeep cfg))%bool eqn:Hk;
      cbn [al_clear]; [exact Ha|].
    apply Forall_app. split; [exact Ha|]. constructor; [|constructor].
    split; [now apply HP|]. cbn [setKeepFull score].
    apply andb_false_iff in Hk as [Hk|Hk].
    + apply Z.ltb_ge in Hk. lia.
    + unfold geq in Hk. intros Hle. apply Qle_bool_iff in Hle. congruence.
Qed.

(** C3 (as stated, refuted): of two quiet results, the older one is cited
    by a note of the investigation; under the default configuration its
    score is 0.1 * 0.20 for recency plus 0.15 for the citation, below the
    floor 0.2 of the compact tier, and the plan clears it. *)
Lemma compact_clears_cited_result :
  let plan := compact DEFAULT_CONFIG [quietResult "aws-0001"; quietResult "aws-0002"]
                "why is the api slow" (Some citingState) None in
  List.map (fun s => entry_resultId (entry s)) (plan_clear plan) = [Some "aws-0001"%string]
  /\ List.map (fun s => entry_resultId (entry s)) (plan_keepCompact plan)
     = [Some "aws-0002"%string]
  /\ In "aws-0001"%string (citedIds (Some citingState)).
Proof. vm_compute. repeat split; trivial. now left. Qed.

(** C3 (amended): in the count-based mode (no token budget), when no weight
    is negative, the weight of a citation reaches [minScoreToKeep] and the
    results are no more than [maxCompactResults], the plan of [compact]
    clears no result whose summary carries a result id cited by a note:
    such a result is kept full or compact. *)
Theorem compact_keeps_cited (cfg : CompactorConfig)
    (results : list (PlanEntry * option CompactToolResult)) (query : string)
    (st : option Memory.InvestigationState) (tokenBudget : option Z) :
  default 0%Z tokenBudget = 0%Z ->
  nonnegWeights (weights cfg) ->
  minScoreToKeep cfg <= w_citedInNotes (weights cfg) ->
  (Z.of_nat (List.length results) <= maxCompactResults cfg)%Z ->
  Forall (fun s => ~ citedResult st s)
    (plan_clear (compact cfg results query st tokenBudget)).
Proof.
  intros Hmode Hw Hfloor Hroom. apply List.Forall_forall. intros s Hs Hcited.
  assert (compact cfg results query st tokenBudget
          = compactByCount cfg
              (sortByScore (scoreAll cfg query st (List.length results) results O)))
    as Heq.
  { unfold compact. destruct tokenBudget as [b|]; [|reflexivity].
    cbn in Hmode. subst b. reflexivity. }
  rewrite Heq in Hs. unfold compactByCount in Hs. cbn [plan_clear] in Hs.
  pose proof (countLoop_clear cfg (citationCounts cfg st)
                (sortByScore (scoreAll cfg query st (List.length results) results O)))
    as Hloop.
  specialize (Hloop (fun r b H => H) emptyAlloc).
  rewrite sortByScore_length, scoreAll_length in Hloop.
  specialize (Hloop Hroom).
  assert (Forall (citationCounts cfg st)
            (sortByScore (scoreAll cfg query st (List.length results) results O)))
    as Hall.
  { apply List.Forall_forall. intros r Hr.
    apply (proj1 (sortByScore_In _ _)) in Hr.
    exact (proj1 (List.Forall_forall _ _)
             (scoreAll_citationCounts cfg query st _ results Hw O) r Hr). }
  specialize (Hloop Hall (List.Forall_nil _)).
  rewrite List.Forall_forall in Hloop.
  destruct (Hloop s Hs) as [Hcount Hlow].
  apply Hlow. eapply Qle_trans; [exact Hfloor | now apply Hcount].
Qed.

(** The hypotheses of [compact_keeps_cited] hold of the two quiet results,
    the older one cited, once the floor of the compact tier is the weight
    of a citation: nothing cited is cleared. *)
Lemma compact_keeps_cited_witness :
  Forall (fun s => ~ citedResult (Some citingState) s)
    (plan_clear (compact citationKeeps
                   [quietResult "aws-0001"; quietResult "aws-0002"]
                   "why is the api slow" (Some citingState) None)).
Proof.
  apply (compact_keeps_cited citationKeeps
           [quietResult "aws-0001"; quietResult "aws-0002"]
           "why is the api slow" (Some citingState) None).
  - reflexivity.
  - repeat split; discriminate.
  - discriminate.
  - cbn. lia.
Defined.

End CompactorFacts.

(** ** Scratchpad: graceful limits *)

Section LimitFacts.
Import JsString Types Scratchpad Examples.

(** C5 (as stated, refuted): with soft cap 3 for T and each call recorded
    after it was checked, the fourth check finds three calls recorded and
    warns that the tool "has been called 3 times (suggested limit: 3)", a
    text without "3/3"; without any call recorded in between, no check
    warns at all. And a query whose similarity with the only recorded
    query is exactly 0.8 draws no warning below the cap. *)
Lemma fourth_check_has_no_3_of_3 :
  warning (canCallTool (afterCalls capThree "T" ["alpha"; "beta"; "gamma"])
             "T" (Some "delta"))
    = Some (overLimitWarning "T" 3 3)
  /\ includes (overLimitWarning "T" 3 3) "3/3" = false
  /\ canCallTool (create capThree) "T" (Some "delta")
     = {| allowed := true; warning := None |}
  /\ Qeq (maxSimilarity "a b c d" ["a b c d e"]) (8 # 10)
  /\ canCallTool (afterCalls ∅ "U" ["a b c d e"]) "U" (Some "a b c d")
     = {| allowed := true; warning := None |}.
Proof. repeat split; vm_compute; reflexivity. Qed.

Lemma retryLoop_some (q : string) (stats : ToolUsageStats) :
  q <> "" -> queries stats <> [] ->
  (8 # 10 < maxSimilarity q (queries stats))%Q ->
  retryLoop (Some q) stats = Some (maxSimilarity q (queries stats)).
Proof.
  intros Hq Hqs Hsim. unfold retryLoop.
  apply String.eqb_neq in Hq. rewrite Hq.
  destruct (queries stats) as [|q0 qs]; [congruence|].
  cbn [List.length Nat.ltb Nat.leb negb andb].
  assert (Qle_bool (maxSimilarity q (q0 :: qs)) (8 # 10) = false) as ->; [|reflexivity].
  apply not_true_is_false. intros Hle%Qle_bool_iff. now apply Qlt_not_le in Hsim.
Qed.

Lemma retryLoop_none (query : option string) (stats : ToolUsageStats) :
  (forall q, query = Some q ->
     q = "" \/ queries stats = []
     \/ (maxSimilarity q (queries stats) <= 8 # 10)%Q) ->
  retryLoop query stats = None.
Proof.
  intros H. unfold retryLoop. destruct query as [q|]; [|reflexivity].
  destruct (H q eq_refl) as [->|[Hqs|Hsim]]; [reflexivity| |].
  - rewrite Hqs. cbn. now rewrite andb_false_r.
  - apply Qle_bool_iff in Hsim. rewrite Hsim. cbn.
    now destruct (negb (String.eqb q "") && _)%bool.
Qed.

(** C5 (amended): [canCallTool] always allows the call and counts nothing
    itself; the count [n] is that of the recorded results of the tool, and
    with none recorded there is no warning. The soft cap [L] is the limit
    the configuration has for the tool, or 5 when it has none or has 0;
    a tool named as a property every object inherits ([toString],
    [constructor], ...) and not configured has no cap at all. The query
    resembles a recorded one when it is not empty and its largest Jaccard
    similarity with the recorded queries of the tool is strictly above 0.8;
    at 0.8 exactly or below it does not. With a cap: if [n >= L] the
    warning tells the [n] calls and the limit [L]; otherwise, if the query
    resembles a recorded one, the warning reports the similarity;
    otherwise, if [n = L - 1], the warning reads "(n+1/L calls)";
    otherwise there is none. Without a cap the only warning is that of
    the resembling query. So with cap 3 and the calls recorded one by one,
    it is the third check that carries "3/3", when its query resembles no
    recorded one; with the same query repeated, the third check reports a
    similarity of 100%; and a sixth call of an unconfigured tool named
    toString draws no warning. *)
Theorem canCallTool_graceful (sp : Scratchpad) (toolName : string)
    (query : option string) :
  let r := canCallTool sp toolName query in
  allowed r = true
  /\ (toolUsage sp !! toolName = None -> warning r = None)
  /\ ((forall l, toolLimits sp !! toolName = Some l -> l <> 0 ->
         limitOf sp toolName = LimitNumber l)
      /\ (toolLimits sp !! toolName = Some 0 ->
          limitOf sp toolName = LimitNumber 5)
      /\ (toolLimits sp !! toolName = None -> ~ In toolName inheritedNames ->
          limitOf sp toolName = LimitNumber 5)
      /\ (toolLimits sp !! toolName = None -> In toolName inheritedNames ->
          limitOf sp toolName = LimitInherited))
  /\ (forall stats L,
        toolUsage sp !! toolName = Some stats ->
        limitOf sp toolName = LimitNumber L ->
        let n := callCount stats in
        (L <= n -> warning r = Some (overLimitWarning toolName n L))
        /\ (n < L -> forall q, query = Some q -> q <> "" -> queries stats <> [] ->
            (8 # 10 < maxSimilarity q (queries stats))%Q ->
            warning r
            = Some (similarWarning toolName (maxSimilarity q (queries stats))))
        /\ (n < L ->
            (forall q, query = Some q ->
               q = "" \/ queries stats = []
               \/ (maxSimilarity q (queries stats) <= 8 # 10)%Q) ->
            (n = L - 1 -> warning r = Some (approachingWarning toolName n L))
            /\ (n <> L - 1 -> warning r = None)))
  /\ (forall stats,
        toolUsage sp !! toolName = Some stats ->
        limitOf sp toolName = LimitInherited ->
        (forall q, query = Some q -> q <> "" -> queries stats <> [] ->
           (8 # 10 < maxSimilarity q (queries stats))%Q ->
           warning r
           = Some (similarWarning toolName (maxSimilarity q (queries stats))))
        /\ ((forall q, query = Some q ->
               q = "" \/ queries stats = []
               \/ (maxSimilarity q (queries stats) <= 8 # 10)%Q) ->
            warning r = None))
  /\ warning (canCallTool (afterCalls capThree "T" ["alpha"; "beta"]) "T"
                (Some "gamma"))
     = Some (approachingWarning "T" 2 3)
  /\ includes (approachingWarning "T" 2 3) "3/3" = true
  /\ warning (canCallTool (afterCalls capThree "T" ["alpha"; "alpha"]) "T"
                (Some "alpha"))
     = Some (similarWarning "T" 1)
  /\ includes (similarWarning "T" 1) "100% similarity" = true
  /\ canCallTool (afterCalls capThree "toString" ["a"; "b"; "c"; "d"; "e"]) "toString"
       (Some "f")
     = {| allowed := true; warning := None |}.
Proof.
  cbv zeta. unfold canCallTool.
  refine (conj _ (conj _ (conj _ (conj _ (conj _ _))))).
  - destruct (toolUsage sp !! toolName) as [stats|]; [|reflexivity].
    destruct (atOrOver _ _); [reflexivity|].
    destruct (retryLoop query stats); [reflexivity|].
    destruct (oneBelow _ _); reflexivity.
  - intros ->. reflexivity.
  - unfold limitOf. refine (conj _ (conj _ (conj _ _))).
    + intros l -> Hl. apply Z.eqb_neq in Hl. now rewrite Hl.
    + intros ->. reflexivity.
    + intros -> Hin. destruct (mem toolName inheritedNames) eqn:E; [|reflexivity].
      exfalso. apply Hin. unfold mem in E. apply existsb_exists in E as (x & Hx & Heq).
      apply String.eqb_eq in Heq. now subst x.
    + intros -> Hin. destruct (mem toolName inheritedNames) eqn:E; [reflexivity|].
      exfalso. unfold mem in E.
      assert (existsb (String.eqb toolName) inheritedNames = true) as E';
        [|rewrite E' in E; discriminate E].
      apply existsb_exists. exists toolName. split; [exact Hin | apply String.eqb_refl].
  - intros stats L -> ->. cbn [atOrOver oneBelow]. refine (conj _ (conj _ _)).
    + intros Hn. rewrite Z.geb_leb, (proj2 (Z.leb_le _ _) Hn). reflexivity.
    + intros Hn q -> Hq Hqs Hsim.
      rewrite Z.geb_leb, (proj2 (Z.leb_gt _ _) Hn).
      now rewrite (retryLoop_some q stats Hq Hqs Hsim).
    + intros Hn Hno.
      rewrite Z.geb_leb, (proj2 (Z.leb_gt _ _) Hn).
      rewrite (retryLoop_none query stats Hno).
      split; intros Hc.
      * apply Z.eqb_eq in Hc. now rewrite Hc.
      * apply Z.eqb_neq in Hc. now rewrite Hc.
  - intros stats -> ->. cbn [atOrOver oneBelow]. split.
    + intros q -> Hq Hqs Hsim. now rewrite (retryLoop_some q stats Hq Hqs Hsim).
    + intros Hno. now rewrite (retryLoop_none query stats Hno).
  - repeat split; vm_compute; reflexivity.
Qed.

End LimitFacts.

(** ** Scratchpad: result ids are never reused *)

Section ResultIdFacts.
Import JsString Types Scratchpad Invariants.
Local Open Scope N_scope.

Lemma digitChar_spec d :
  d < 36 -> digitVal (digitChar d) = d /\ isBase36 (digitChar d) = true.
Proof.
  intros Hd. unfold digitChar, digitVal, isBase36.
  destruct (N.ltb_spec d 10) as [H10|H10]; rewrite N_ascii_embedding by lia; cbv zeta.
  - destruct (N.ltb_spec (48 + d) 58); [|lia]. split; [lia|].
    rewrite (proj2 (N.leb_le 48 (48 + d))), (proj2 (N.leb_le (48 + d) 57)) by lia.
    reflexivity.
  - destruct (N.ltb_spec (87 + d) 58); [lia|]. split; [lia|].
    rewrite (proj2 (N.leb_le 97 (87 + d))), (proj2 (N.leb_le (87 + d) 122)) by lia.
    apply orb_true_r.
Qed.

Lemma digits36_S fuel n :
  digits36 (S fuel) n
  = if n <? 36 then [n] else (n mod 36) :: digits36 fuel (n / 36).
Proof. reflexivity. Qed.

Lemma pow36_ge k : 1 <= 36 ^ k.
Proof.
  change 1 with (36 ^ 0). apply N.pow_le_mono_r; lia.
Qed.

(** With one unit of fuel more than bits, [digits36] writes all of [n]. *)
Lemma digits36_spec fuel :
  forall n, n < 2 ^ N.of_nat fuel ->
    value36 (digits36 (S fuel) n) = n
    /\ Forall (fun d => d < 36) (digits36 (S fuel) n)
    /\ forall k : nat, 36 ^ N.of_nat k <= n ->
                       (k < List.length (digits36 (S fuel) n))%nat.
Proof.
  induction fuel as [|fuel IH]; intros n Hn; rewrite digits36_S.
  - change (2 ^ N.of_nat 0) with 1 in Hn. assert (n = 0) as -> by lia.
    cbn. repeat split; [repeat constructor|].
    intros k Hk. pose proof (pow36_ge (N.of_nat k)). lia.
  - destruct (N.ltb_spec n 36) as [H36|H36].
    + cbn. repeat split; [lia | repeat constructor; exact H36 |].
      intros [|k] Hk; [lia|].
      assert (36 ^ 1 <= 36 ^ N.of_nat (S k)) by (apply N.pow_le_mono_r; lia).
      change (36 ^ 1) with 36 in *. lia.
    + assert (n / 36 < 2 ^ N.of_nat fuel) as Hq.
      { apply N.Div0.div_lt_upper_bound.
        rewrite Nat2N.inj_succ, N.pow_succ_r' in Hn. lia. }
      destruct (IH _ Hq) as (Hv & Hall & Hlen).
      cbn [value36 fold_right]. fold (value36 (digits36 (S fuel) (n / 36))).
      rewrite Hv. repeat split.
      * pose proof (N.div_mod' n 36). lia.
      * constructor; [apply N.mod_lt; lia | exact Hall].
      * intros [|k] Hk; cbn [List.length]; [lia|].
        apply -> Nat.succ_lt_mono. apply Hlen.
        apply N.div_le_lower_bound; [lia|].
        rewrite Nat2N.inj_succ, N.pow_succ_r' in Hk. exact Hk.
Qed.

Lemma parse36_digits ds :
  Forall (fun d => d < 36) ds ->
  parse36 (List.rev (List.map digitChar ds)) = value36 ds.
Proof.
  unfold parse36. induction ds as [|d ds IH]; intros Hds; [reflexivity|].
  apply Forall_cons_1 in Hds as [Hd Hds].
  cbn [List.map List.rev]. rewrite fold_left_app. cbn [fold_left].
  rewrite (IH Hds). destruct (digitChar_spec d Hd) as [-> _].
  cbn [value36 fold_right]. fold (value36 ds). lia.
Qed.

Lemma base36_digits ds :
  Forall (fun d => d < 36) ds ->
  Forall (fun c => isBase36 c = true) (List.rev (List.map digitChar ds)).
Proof.
  intros Hds. apply Forall_rev, Forall_map.
  eapply Forall_impl; [exact Hds|]. intros d Hd. now apply digitChar_spec.
Qed.

(** [n.toString(36)] reads back as [n], consists of base-36 digits, and
    has four characters or more from 36^3 on. *)
Lemma toString36_spec n :
  let l := list_ascii_of_string (toString36 n) in
  parse36 l = n
  /\ Forall (fun c => isBase36 c = true) l
  /\ (46656 <= n -> (4 <= List.length l)%nat).
Proof.
  cbv zeta. unfold toString36. rewrite list_ascii_of_string_of_list_ascii.
  destruct (digits36_spec (N.to_nat (N.size n)) n) as (Hv & Hall & Hlen).
  { rewrite N2Nat.id. apply N.size_gt. }
  repeat split.
  - now rewrite parse36_digits.
  - now apply base36_digits.
  - intros Hn. rewrite length_rev, length_map.
    specialize (Hlen 3%nat Hn). lia.
Qed.

Lemma list_ascii_of_append a b :
  list_ascii_of_string (a +:+ b)
  = (list_ascii_of_string a ++ list_ascii_of_string b)%list.
Proof.
  induction a as [|c a IH]; [reflexivity|].
  change (list_ascii_of_string (String c a +:+ b))
    with (c :: list_ascii_of_string (a +:+ b)).
  now rewrite IH.
Qed.

Lemma string_length_list s :
  String.length s = List.length (list_ascii_of_string s).
Proof.
  induction s as [|c s IH]; [reflexivity|].
  change (S (String.length s) = S (List.length (list_ascii_of_string s))).
  now rewrite IH.
Qed.

Lemma padStart2_spec s :
  let l := list_ascii_of_string (padStart2 s) in
  parse36 l = parse36 (list_ascii_of_string s)
  /\ (Forall (fun c => isBase36 c = true) (list_ascii_of_string s) ->
      Forall (fun c => isBase36 c = true) l).
Proof.
  destruct s as [|c [|c' s]]; cbn; split; trivial.
  - intros _. repeat constructor.
  - intros H. constructor; [reflexivity | exact H].
Qed.

Lemma base36_no_dash l :
  Forall (fun c => isBase36 c = true) l -> existsb isDash l = false.
Proof.
  induction 1 as [|c l Hc _ IH]; [reflexivity|].
  cbn. rewrite IH, orb_false_r. unfold isDash.
  destruct (Ascii.eqb_spec c "-") as [->|]; [discriminate Hc | reflexivity].
Qed.

Lemma afterLastDash_app p u :
  existsb isDash u = false -> afterLastDash (p ++ "-"%char :: u) = u.
Proof.
  intros Hu. induction p as [|c p IH]; cbn [app afterLastDash].
  - now rewrite Hu.
  - rewrite existsb_app. cbn [existsb]. unfold isDash at 2.
    rewrite Ascii.eqb_refl, orb_true_r. exact IH.
Qed.

(** The text after the last dash of an id is the stamp and the counter. *)
Lemma resultIdOf_tail toolName now counter :
  46656 <= now ->
  exists stamp : list ascii,
    List.length stamp = 4%nat
    /\ afterLastDash (list_ascii_of_string (resultIdOf toolName now counter))
       = (stamp ++ list_ascii_of_string (padStart2 (toString36 counter)))%list.
Proof.
  intros Hnow.
  destruct (toString36_spec now) as (_ & Hb & Hlen). specialize (Hlen Hnow).
  destruct (toString36_spec counter) as (_ & Hc & _).
  apply (proj2 (padStart2_spec (toString36 counter))) in Hc.
  exists (list_ascii_of_string (takeLast 4 (toString36 now))).
  unfold takeLast. rewrite list_ascii_of_string_of_list_ascii, string_length_list.
  split.
  - rewrite length_skipn. lia.
  - unfold resultIdOf. rewrite !list_ascii_of_append.
    unfold takeLast. rewrite list_ascii_of_string_of_list_ascii, string_length_list.
    change (list_ascii_of_string "-") with ["-"%char]. cbn [app].
    apply afterLastDash_app, base36_no_dash, Forall_app. split; [|exact Hc].
    now apply Forall_drop.
Qed.

(** Two ids built with different counters differ. *)
Lemma resultIdOf_inj t1 now1 k1 t2 now2 k2 :
  46656 <= now1 -> 46656 <= now2 ->
  resultIdOf t1 now1 k1 = resultIdOf t2 now2 k2 -> k1 = k2.
Proof.
  intros H1 H2 Heq.
  destruct (resultIdOf_tail t1 now1 k1 H1) as (s1 & Hl1 & Ht1).
  destruct (resultIdOf_tail t2 now2 k2 H2) as (s2 & Hl2 & Ht2).
  rewrite Heq, Ht2 in Ht1.
  apply app_inj_1 in Ht1 as [_ Hc]; [|congruence].
  destruct (toString36_spec k1) as (Hp1 & _ & _).
  destruct (toString36_spec k2) as (Hp2 & _ & _).
  rewrite <- Hp1, <- Hp2.
  rewrite <- (proj1 (padStart2_spec (toString36 k1))).
  rewrite <- (proj1 (padStart2_spec (toString36 k2))).
  now rewrite Hc.
Qed.

End ResultIdFacts.

(** ** Scratchpad: retrieval by id *)

Section RetrievalFacts.
Import JsString Types Scratchpad Examples Invariants.

Lemma is_Some_fmap_eq {A B : Type} (f : A -> B) (x y : option A) :
  f <$> x = f <$> y -> is_Some x -> is_Some y.
Proof.
  destruct x as [a|], y as [b|]; cbn; intros Heq [c Hc]; try discriminate; eauto.
Qed.

Lemma sameResults_refl sp : sameResults sp sp.
Proof. repeat split; auto. Qed.

Lemma sameResults_trans sp1 sp2 sp3 :
  sameResults sp1 sp2 -> sameResults sp2 sp3 -> sameResults sp1 sp3.
Proof.
  intros (Hc1 & Ht1 & Ha1) (Hc2 & Ht2 & Ha2). repeat split.
  - congruence.
  - intros rid. now rewrite Ht2, Ht1.
  - intros rid [H|H]%Ha2; [now apply Ha1|].
    right. eapply is_Some_fmap_eq; [apply Ht1 | exact H].
Qed.

Lemma sameResults_fold {A : Type} (f : Scratchpad -> A -> Scratchpad) (l : list A) :
  (forall sp x, sameResults sp (f sp x)) ->
  forall sp, sameResults sp (fold_left f l sp).
Proof.
  intros Hf. induction l as [|x l IH]; intros sp; [apply sameResults_refl|].
  cbn [fold_left]. eapply sameResults_trans; [apply Hf | apply IH].
Qed.

Lemma planTarget_Some sp s rid r :
  planTarget sp s = Some (rid, r) -> tieredResults sp !! rid = Some r.
Proof.
  unfold planTarget. destruct (Compactor.entry_resultId _) as [i|]; [|discriminate].
  destruct (String.eqb i ""); [discriminate|].
  destruct (tieredResults sp !! i) eqn:Hi; [|discriminate].
  now intros [= <- <-].
Qed.

(** Replacing the value at a key by one with the same full result. *)
Lemma rebase_lookup (m : gmap string TieredToolResult) rid r r' i :
  m !! rid = Some r -> base r' = base r ->
  base <$> (<[rid := r']> m !! i) = base <$> (m !! i).
Proof.
  intros Hr Hb. destruct (decide (rid = i)) as [<-|Hne].
  - rewrite lookup_insert_eq, Hr. cbn. now rewrite Hb.
  - now rewrite lookup_insert_ne.
Qed.

Lemma keepFullStep_same sp s : sameResults sp (keepFullStep sp s).
Proof.
  unfold keepFullStep. destruct (planTarget sp s) as [[rid r]|] eqn:Ht;
    [|apply sameResults_refl].
  apply planTarget_Some in Ht. repeat split; cbn; auto.
  intros i. now apply rebase_lookup with (r := r).
Qed.

Lemma keepCompactStep_same sp s : sameResults sp (keepCompactStep sp s).
Proof.
  unfold keepCompactStep. destruct (planTarget sp s) as [[rid r]|] eqn:Ht;
    [|apply sameResults_refl].
  apply planTarget_Some in Ht. repeat split; cbn; auto.
  intros i. now apply rebase_lookup with (r := r).
Qed.

Lemma clearStep_same sp s : sameResults sp (clearStep sp s).
Proof.
  unfold clearStep. destruct (planTarget sp s) as [[rid r]|] eqn:Ht;
    [|apply sameResults_refl].
  apply planTarget_Some in Ht. repeat split; cbn.
  - intros i. now apply rebase_lookup with (r := r).
  - intros i [<-|H]%lookup_insert_is_Some'; [right | now left].
    rewrite Ht. eauto.
Qed.

Lemma applyCompactionPlan_same plan sp : sameResults sp (applyCompactionPlan plan sp).
Proof.
  unfold applyCompactionPlan.
  set (sp1 := fold_left keepFullStep (Compactor.plan_keepFull plan) sp).
  set (sp2 := fold_left keepCompactStep (Compactor.plan_keepCompact plan) sp1).
  apply (sameResults_trans sp sp1); [apply sameResults_fold, keepFullStep_same|].
  apply (sameResults_trans sp1 sp2); [apply sameResults_fold, keepCompactStep_same|].
  apply sameResults_fold, clearStep_same.
Qed.

Lemma setCompactResult_same rid c sp : sameResults sp (setCompactResult rid c sp).
Proof.
  unfold setCompactResult. destruct (tieredResults sp !! rid) as [r|] eqn:Hr;
    [|apply sameResults_refl].
  repeat split; cbn; auto.
  intros i. now apply rebase_lookup with (r := r).
Qed.

Lemma append_same e sp : sameResults sp (append e sp).
Proof. repeat split; cbn; auto. Qed.

Lemma load_same parsed sp : sameResults sp (load parsed sp).
Proof. unfold load. apply sameResults_fold. intros sp' e. apply append_same. Qed.

Lemma clearOldest_same k sp : sameResults sp (clearOldestToolResults k sp).
Proof. repeat split; cbn; auto. Qed.

Lemma tracks_same sp sp' assigned :
  tracks sp assigned -> sameResults sp sp' -> tracks sp' assigned.
Proof.
  intros (H1 & H2 & H3 & H4) (Hc & Ht & Ha). split; [|split; [|split]].
  - intros rid e Hin. rewrite Ht. now apply H1.
  - intros rid e Hin. rewrite Hc. now apply H2 with e.
  - intros rid [H|H]; apply H3.
    + left. eapply is_Some_fmap_eq; [apply Ht | exact H].
    + destruct (Ha rid H); [now right | now left].
  - exact H4.
Qed.

Lemma tracks_appendToolResult sp assigned e c t now iso :
  tracks sp assigned -> (46656 <= now)%N ->
  tracks (fst (appendToolResult e c t now iso sp))
    (assigned ++ [(snd (appendToolResult e c t now iso sp), stamped e iso)]).
Proof.
  intros (H1 & H2 & H3 & H4) Hnow. cbn [appendToolResult fst snd].
  set (rid := resultIdOf (new_tool e) now (resultIdCounter sp + 1)).
  assert (forall i e', In (i, e') assigned -> i <> rid) as Hfresh.
  { intros i e' Hin Heq.
    destruct (H2 i e' Hin) as (t' & now' & k' & -> & Hnow' & Hk).
    apply resultIdOf_inj in Heq; trivial. lia. }
  split; [|split; [|split]]; cbn [tieredResults resultIdCounter archivedResults].
  - intros i e' [Hin|[[= <- <-]|[]]]%in_app_iff.
    + rewrite lookup_insert_ne; [now apply H1|].
      intros Heq. now apply (Hfresh i e').
    + now rewrite lookup_insert_eq.
  - intros i e' [Hin|[[= <- <-]|[]]]%in_app_iff.
    + destruct (H2 i e' Hin) as (t' & now' & k' & -> & Hnow' & Hk).
      exists t', now', k'. repeat split; trivial. lia.
    + exists (new_tool e), now, (resultIdCounter sp + 1)%N.
      repeat split; trivial; lia.
  - intros i Hi. rewrite map_app, in_app_iff. cbn.
    destruct (decide (rid = i)) as [<-|Hne]; [right; now left | left].
    apply H3. rewrite lookup_insert_ne in Hi by exact Hne. exact Hi.
  - rewrite map_app. apply List.NoDup_app; [exact H4 | repeat constructor; intros [] |].
    intros i Hi [<-|[]]. apply in_map_iff in Hi as ((i' & e') & Heq & Hin).
    cbn in Heq. subst i'. now apply (Hfresh rid e').
Qed.

Lemma tracks_run cs :
  forall sp assigned,
    tracks sp assigned -> Forall clockSane cs ->
    tracks (fst (run sp cs)) (assigned ++ snd (run sp cs)).
Proof.
  induction cs as [|c cs IH]; intros sp assigned Hsp Hcs.
  - cbn. now rewrite app_nil_r.
  - apply Forall_cons_1 in Hcs as [Hc Hcs]. cbn [run].
    destruct c as [e|e cc t now iso|plan|rid cc|k|parsed]; cbn [step].
    2: { cbn [clockSane] in Hc.
         pose proof (tracks_appendToolResult sp assigned e cc t now iso Hsp Hc) as Hsp'.
         cbn [appendToolResult fst snd] in Hsp'.
         specialize (IH _ _ Hsp' Hcs).
         cbn [appendToolResult].
         destruct (run _ cs) as [sp2 rest] eqn:Hrun. cbn [fst snd] in *.
         now rewrite <- app_assoc in IH. }
    all: match goal with
         | |- context [run ?sp1 ?rest] =>
             assert (tracks sp1 assigned) as Hsp'
               by (eapply tracks_same; [exact Hsp|];
                   first [ apply append_same | apply applyCompactionPlan_same
                         | apply setCompactResult_same | apply clearOldest_same
                         | apply load_same ]);
             specialize (IH _ _ Hsp' Hcs);
             destruct (run sp1 rest) as [sp2 more]; exact IH
         end.
Qed.

Lemma tracks_create limits : tracks (create limits) [].
Proof.
  split; [|split; [|split]]; try contradiction.
  - intros rid [[? H]|[? H]]; cbn in H; now rewrite lookup_empty in H.
  - constructor.
Qed.

(** C7: after any sequence of calls on a new scratchpad, every id that
    [appendToolResult] assigned on the way is answered by [getResultById]
    with the full result stored under it, whatever plans were applied since;
    and [getResultById] answers null exactly for the ids never assigned.
    The clock is taken to read at least 36^3 ms, as any instant after the
    first minute of 1970 does. *)
Theorem getResultById_total (limits : gmap string Z) (cs : list Call) :
  Forall clockSane cs ->
  let sp := fst (run (create limits) cs) in
  let assigned := snd (run (create limits) cs) in
  (forall rid e, In (rid, e) assigned -> getResultById rid sp = Some e)
  /\ (forall rid, getResultById rid sp = None <-> ~ In rid (List.map fst assigned)).
Proof.
  intros Hcs sp assigned.
  destruct (tracks_run cs (create limits) [] (tracks_create limits) Hcs)
    as (H1 & _ & H3 & _).
  cbn [app] in H1, H3. fold sp in H1, H3. fold assigned in H1, H3.
  assert (forall rid e, In (rid, e) assigned -> getResultById rid sp = Some e) as Hget.
  { intros rid e Hin. specialize (H1 rid e Hin). unfold getResultById.
    destruct (tieredResults sp !! rid); [exact H1 | discriminate H1]. }
  split; [exact Hget|].
  intros rid. split.
  - intros Hnone ((i & e) & <- & Hin)%in_map_iff.
    cbn in Hnone. rewrite (Hget _ _ Hin) in Hnone. discriminate.
  - intros Hnot. unfold getResultById.
    destruct (tieredResults sp !! rid) eqn:Ht.
    + exfalso. apply Hnot, H3. left. eauto.
    + destruct (archivedResults sp !! rid) eqn:Ha; [|reflexivity].
      exfalso. apply Hnot, H3. right. eauto.
Qed.

(** X2: the ids [appendToolResult] assigns in the course of any sequence
    of calls on a new scratchpad are pairwise distinct, the clock reading
    at least 36^3 ms. *)
Theorem assigned_ids_distinct (limits : gmap string Z) (cs : list Call) :
  Forall clockSane cs ->
  List.NoDup (List.map fst (snd (run (create limits) cs))).
Proof.
  intros Hcs.
  now destruct (tracks_run cs (create limits) [] (tracks_create limits) Hcs)
    as (_ & _ & _ & H).
Qed.

(** Two results recorded within the same millisecond get the ids
    t-3v2801 and t-3v2802. *)
Lemma assigned_ids_distinct_witness :
  Forall clockSane twoCalls
  /\ List.map fst (snd (run (create capThree) twoCalls)) = ["t-3v2801"; "t-3v2802"]
  /\ List.NoDup (List.map fst (snd (run (create capThree) twoCalls))).
Proof.
  assert (Forall clockSane twoCalls) as Hsane.
  { repeat constructor; cbn; lia. }
  split; [exact Hsane|]. split; [reflexivity|].
  exact (assigned_ids_distinct capThree twoCalls Hsane).
Defined.

(** The calls of [clearingCalls] read a sane clock; the result recorded
    first, cleared by the plan since, is still answered in full. *)
Lemma getResultById_total_witness :
  Forall clockSane clearingCalls
  /\ option_map tier (tieredResults (fst (run (create capThree) clearingCalls))
                        !! "t-3v2801")
     = Some cleared
  /\ getResultById "t-3v2801" (fst (run (create capThree) clearingCalls))
     = Some (stamped (queried "T" "alpha") "2023-11-14T22:13:20.000Z").
Proof.
  assert (Forall clockSane clearingCalls) as Hsane.
  { repeat constructor. cbn. lia. }
  split; [exact Hsane|]. split; [reflexivity|].
  apply (proj1 (getResultById_total capThree clearingCalls Hsane)).
  vm_compute. now left.
Defined.

End RetrievalFacts.

(** ** Webhook receiver *)

Section WebhookFacts.
Import JsString Webhook Examples.

Variable hmacSha256Hex : string -> string -> string.
Variable decodePayload : string -> option SlackInteractionPayload.

Lemma append_inj_r (a x y : string) : a +:+ x = a +:+ y -> x = y.
Proof.
  induction a as [|c a IH]; [trivial|].
  intros H. apply IH. now injection H.
Qed.

Lemma timingSafeEqual_eq a b : timingSafeEqual a b = true <-> a = b.
Proof.
  unfold timingSafeEqual. split.
  - destruct (Nat.eqb _ _); [apply String.eqb_eq | discriminate].
  - intros ->. now rewrite Nat.eqb_refl, String.eqb_refl.
Qed.

(** The no-break space is white space to [parseInt]: a timestamp behind
    one is read, and refused when it is stale. *)
Lemma parseInt10_skips_no_break_space :
  parseInt10 (String (ascii_of_nat 160) "1600000000") = Some 1600000000
  /\ forall signingSecret sig body,
       verifySlackSignature hmacSha256Hex signingSecret (Some sig)
         (Some (String (ascii_of_nat 160) "1600000000")) body 1700000000000 = false.
Proof.
  split; [reflexivity|]. intros signingSecret sig body.
  unfold verifySlackSignature. now destruct (String.eqb sig "").
Qed.

(** A mutation id that climbs out of the pending directory is no plain
    name. *)
Lemma climbing_id_is_not_plain : isPlainName "x/../mut_1" = false.
Proof. reflexivity. Qed.

(** C6 (as stated, refuted): the click on approve of mutation mut_1
    reaches [handleApprovalAction] once its request is accepted; with no
    mut_1_pending.json in the pending directory the handler reports the
    request expired and writes no mut_1.json. *)
Lemma approval_without_pending_writes_nothing :
  handleApprovalAction approvePayload approveClick "/pending"
    "2023-11-14T22:13:20.000Z" ∅
  = (∅, {| ok := false;
           message := "This approval request has expired or was already handled" |}).
Proof. reflexivity. Qed.

(** C6 (amended): for a POST to /slack/interactions. When both headers are
    present and the timestamp header reads as the integer [t], the request
    is accepted if and only if [t] is within 300 seconds of the current
    time and the signature header equals "v0=" followed by the hex
    HMAC-SHA256 of "v0:{ts}:{body}" under the signing secret. A request that
    is not accepted is answered 401 and changes no file. An accepted
    request whose payload is a block action with a first action id starting
    approve_ or reject_ is answered 200; when the pending directory is a
    path in normal form and the mutation id, the value of the action, holds
    no path separator, then, if {mutationId}_pending.json exists in the
    directory, the request leaves {mutationId}.json holding the decision
    and no {mutationId}_pending.json, every other file being as it was,
    and if it does not exist, no file changes. *)
Theorem webhook_contract (signingSecret pendingDir : string) (req : Request)
    (now : Z) (iso : string) (fs : FileSystem) :
  url req = "/slack/interactions" -> method req = "POST" ->
  let accepted :=
    verifySlackSignature hmacSha256Hex signingSecret (signatureHeader req)
      (timestampHeader req) (body req) now in
  let answer :=
    handleRequest hmacSha256Hex decodePayload signingSecret pendingDir req now iso fs in
  (forall sig ts t,
      signatureHeader req = Some sig -> timestampHeader req = Some ts ->
      parseInt10 ts = Some t ->
      (accepted = true <->
       Z.abs (now / 1000 - t) <= 300
       /\ sig = "v0=" +:+ hmacSha256Hex signingSecret
                           ("v0:" +:+ ts +:+ ":" +:+ body req)))
  /\ (accepted = false ->
      answer = (fs, {| status := 401; response_text := Some "Invalid signature" |}))
  /\ (accepted = true ->
      forall payload action rest,
        decodePayload (body req) = Some payload ->
        payload_type payload = "block_actions" ->
        actions payload = Some (action :: rest) ->
        (startsWith (action_id action) "approve_"
         || startsWith (action_id action) "reject_")%bool = true ->
        status (snd answer) = 200%nat
        /\ (isNormalDir pendingDir = true ->
            isPlainName (value action) = true ->
            let pendingFile := join pendingDir (value action +:+ "_pending.json") in
            let responseFile := join pendingDir (value action +:+ ".json") in
            (is_Some (fs !! pendingFile) ->
             fst answer !! responseFile
             = Some (FileDecision
                       {| approved := startsWith (action_id action) "approve_";
                          approvedBy := "slack:" +:+ username (user payload);
                          approvedByName := user_name (user payload);
                          approvedAt := iso;
                          reason := if startsWith (action_id action) "approve_"
                                    then "Approved via Slack"
                                    else "Rejected via Slack" |})
             /\ fst answer !! pendingFile = None
             /\ forall other, other <> responseFile -> other <> pendingFile ->
                              fst answer !! other = fs !! other)
            /\ (fs !! pendingFile = None -> fst answer = fs))).
Proof.
  intros Hurl Hmethod accepted answer.
  assert (answer
          = if negb accepted
            then (fs, {| status := 401; response_text := Some "Invalid signature" |})
            else
              match decodePayload (body req) with
              | None => (fs, {| status := 500; response_text := Some "Internal error" |})
              | Some payload =>
                  match (if String.eqb (payload_type payload) "block_actions"
                         then actions payload else None) with
                  | Some (action :: _) =>
                      if (startsWith (action_id action) "approve_"
                          || startsWith (action_id action) "reject_")%bool
                      then
                        let '(fs', result) :=
                          handleApprovalAction payload action pendingDir iso fs in
                        (fs', {| status := 200; response_text := Some (message result) |})
                      else (fs, {| status := 200; response_text := None |})
                  | _ => (fs, {| status := 200; response_text := None |})
                  end
              end) as Hanswer.
  { subst answer accepted. unfold handleRequest. rewrite Hurl, Hmethod. reflexivity. }
  split; [|split].
  - intros sig ts t Hsig Hts Ht. subst accepted.
    rewrite Hsig, Hts. unfold verifySlackSignature. rewrite Ht.
    destruct (String.eqb_spec ts "") as [->|_]; [discriminate Ht|].
    rewrite orb_false_r.
    destruct (String.eqb_spec sig "") as [->|_].
    { split; [discriminate | intros [_ H]; discriminate H]. }
    destruct (Z.ltb_spec 300 (Z.abs (now / 1000 - t))) as [Hold|Hfresh].
    + split; [discriminate | intros [H _]; lia].
    + rewrite timingSafeEqual_eq. split.
      * intros <-. split; [exact Hfresh | reflexivity].
      * intros [_ ->]. reflexivity.
  - intros Hacc. rewrite Hanswer, Hacc. reflexivity.
  - intros Hacc payload action rest Hdec Hty Hact Hbtn.
    rewrite Hanswer, Hacc, Hdec, Hty, String.eqb_refl, Hact. cbn [negb].
    rewrite Hbtn.
    unfold handleApprovalAction.
    assert ((negb (startsWith (action_id action) "approve_")
             && negb (startsWith (action_id action) "reject_"))%bool = false) as ->.
    { destruct (startsWith (action_id action) "approve_"),
               (startsWith (action_id action) "reject_"); trivial; discriminate. }
    split.
    { now destruct (fs !! join pendingDir (value action +:+ "_pending.json")). }
    intros _ _.
    set (pendingFile := join pendingDir (value action +:+ "_pending.json")).
    set (responseFile := join pendingDir (value action +:+ ".json")).
    assert (responseFile <> pendingFile) as Hne.
    { unfold responseFile, pendingFile, join.
      intros H. do 3 apply append_inj_r in H. discriminate H. }
    destruct (fs !! pendingFile) as [pending|] eqn:Hpending; cbn [fst snd status].
    + split; [|discriminate].
      intros _. split; [|split].
      * rewrite lookup_delete_ne by auto. apply lookup_insert_eq.
      * apply lookup_delete_eq.
      * intros other H1 H2. rewrite lookup_delete_ne by auto.
        now rewrite lookup_insert_ne by auto.
    + split; [intros [? H]; discriminate H | reflexivity].
Qed.

End WebhookFacts.

(** The hypotheses of [webhook_contract] hold of [signedRequest], a POST
    to /slack/interactions; with the stand-in hash it is accepted at second
    1700000100, and the approval of mut_1, a plain name, is written into
    /pending, a directory in normal form. *)
Lemma webhook_contract_witness :
  (Webhook.url Examples.signedRequest = "/slack/interactions"
   /\ Webhook.method Examples.signedRequest = "POST")
  /\ Webhook.verifySlackSignature Examples.exampleMac "s"
       (Webhook.signatureHeader Examples.signedRequest)
       (Webhook.timestampHeader Examples.signedRequest)
       (Webhook.body Examples.signedRequest) 1700000100000 = true
  /\ (Webhook.isNormalDir "/pending" = true
      /\ Webhook.isPlainName (Webhook.value Examples.approveClick) = true)
  /\ Webhook.status
       (snd (Webhook.handleRequest Examples.exampleMac Examples.exampleDecode "s"
               "/pending" Examples.signedRequest 1700000100000
               "2023-11-14T22:15:00.000Z" Examples.pendingMut1)) = 200%nat
  /\ is_Some
       (fst (Webhook.handleRequest Examples.exampleMac Examples.exampleDecode "s"
               "/pending" Examples.signedRequest 1700000100000
               "2023-11-14T22:15:00.000Z" Examples.pendingMut1)
          !! Webhook.join "/pending" (Webhook.value Examples.approveClick +:+ ".json"))
  /\ fst (Webhook.handleRequest Examples.exampleMac Examples.exampleDecode "s"
            "/pending" Examples.signedRequest 1700000100000
            "2023-11-14T22:15:00.000Z" Examples.pendingMut1)
       !! Webhook.join "/pending" (Webhook.value Examples.approveClick +:+ "_pending.json")
     = None.
Proof.
  split; [split; reflexivity|]. split; [vm_compute; reflexivity|].
  split; [split; reflexivity|].
  pose proof (proj2 (proj2
    (webhook_contract Examples.exampleMac Examples.exampleDecode "s" "/pending"
       Examples.signedRequest 1700000100000 "2023-11-14T22:15:00.000Z"
       Examples.pendingMut1 eq_refl eq_refl))) as H.
  cbv zeta in H.
  destruct (H ltac:(vm_compute; reflexivity) Examples.approvePayload
              Examples.approveClick [] eq_refl eq_refl eq_refl eq_refl)
    as [Hstatus Hfiles].
  split; [exact Hstatus|].
  destruct (Hfiles eq_refl eq_refl) as [Hwritten _].
  destruct (Hwritten ltac:(vm_compute; eauto)) as (Hresponse & Hpending & _).
  split; [rewrite Hresponse; eauto | exact Hpending].
Defined.

(** ** Service graph: maps in insertion order *)

Section JsMapFacts.
Import JsString JsMap GraphInvariants.
Context {V : Type}.
Implicit Types (m : list (string * V)) (k : string) (v : V).

Lemma mget_mset_eq k v m : mget k (mset k v m) = Some v.
Proof.
  induction m as [|[k' v'] m IH]; cbn.
  - now rewrite String.eqb_refl.
  - destruct (String.eqb k k') eqn:E; cbn; rewrite ?String.eqb_refl, ?E; trivial.
Qed.

Lemma mget_mset_ne k k' v m : k <> k' -> mget k' (mset k v m) = mget k' m.
Proof.
  intros Hne. induction m as [|[k0 v0] m IH]; cbn.
  - destruct (String.eqb_spec k' k); [congruence | reflexivity].
  - destruct (String.eqb_spec k k0) as [->|]; cbn.
    + destruct (String.eqb_spec k' k0); [congruence | reflexivity].
    + destruct (String.eqb k' k0); [reflexivity | exact IH].
Qed.

Lemma mget_mdelete_eq k m : mget k (mdelete k m) = None.
Proof.
  unfold mdelete. induction m as [|[k' v'] m IH]; cbn; [reflexivity|].
  destruct (String.eqb k k') eqn:E; cbn; [exact IH|]. now rewrite E.
Qed.

Lemma mget_mdelete_ne k k' m : k <> k' -> mget k' (mdelete k m) = mget k' m.
Proof.
  intros Hne. unfold mdelete. induction m as [|[k0 v0] m IH]; cbn; [reflexivity|].
  destruct (String.eqb_spec k k0) as [->|]; cbn.
  - destruct (String.eqb_spec k' k0); [congruence | exact IH].
  - destruct (String.eqb k' k0); [reflexivity | exact IH].
Qed.

Lemma mget_mdelete_Some k k' v m : mget k' (mdelete k m) = Some v -> k <> k' /\ mget k' m = Some v.
Proof.
  intros H. destruct (String.eqb_spec k k') as [->|Hne].
  - now rewrite mget_mdelete_eq in H.
  - now rewrite mget_mdelete_ne in H.
Qed.

Lemma mget_In k v m : mget k m = Some v -> In (k, v) m.
Proof.
  induction m as [|[k' v'] m IH]; cbn; [discriminate|].
  destruct (String.eqb_spec k k') as [->|]; [intros [= ->]; now left | right; auto].
Qed.

Lemma mget_key k v m : mget k m = Some v -> In k (mkeys m).
Proof. intros H%mget_In. now apply (in_map fst) in H. Qed.

Lemma mget_None k m : ~ In k (mkeys m) -> mget k m = None.
Proof.
  intros H. destruct (mget k m) eqn:E; [|reflexivity].
  exfalso. eapply H, mget_key, E.
Qed.

Lemma In_mget k v m : List.NoDup (mkeys m) -> In (k, v) m -> mget k m = Some v.
Proof.
  induction m as [|[k' v'] m IH]; cbn; [contradiction|].
  intros Hnd [[= -> ->]|Hin]; [now rewrite String.eqb_refl|].
  apply List.NoDup_cons_iff in Hnd as [Hk' Hnd].
  destruct (String.eqb_spec k k') as [->|]; [|auto].
  exfalso. apply Hk'. now apply (in_map fst) in Hin.
Qed.

Lemma mkeys_mset k v m :
  mkeys (mset k v m) = if mhas k m then mkeys m else (mkeys m ++ [k])%list.
Proof.
  unfold mhas, mkeys. induction m as [|[k' v'] m IH]; cbn; [reflexivity|].
  destruct (String.eqb_spec k k') as [->|]; cbn; [reflexivity|].
  rewrite IH. now destruct (mget k m).
Qed.

Lemma NoDup_mset k v m : List.NoDup (mkeys m) -> List.NoDup (mkeys (mset k v m)).
Proof.
  intros Hnd. rewrite mkeys_mset. unfold mhas.
  destruct (mget k m) eqn:E; [exact Hnd|].
  apply List.NoDup_app; [exact Hnd | repeat constructor; intros [] |].
  intros x Hx [Heq|[]]. subst x.
  unfold mkeys in Hx. apply in_map_iff in Hx as ([k' v'] & Hk & Hin). cbn in Hk. subst k'.
  now rewrite (In_mget k v' m Hnd Hin) in E.
Qed.

Lemma NoDup_mdelete k m : List.NoDup (mkeys m) -> List.NoDup (mkeys (mdelete k m)).
Proof.
  unfold mdelete, mkeys. induction m as [|[k' v'] m IH]; cbn; [trivial|].
  intros [Hk' Hnd]%List.NoDup_cons_iff.
  destruct (String.eqb k k'); cbn; [auto|].
  constructor; [|auto].
  intros ([k0 v0] & Hk & Hin%filter_In)%in_map_iff. cbn in Hk. subst k0.
  apply Hk'. destruct Hin as [Hin _]. now apply (in_map fst) in Hin.
Qed.

Lemma mhas_true k m : mhas k m = true <-> exists v, mget k m = Some v.
Proof.
  unfold mhas. destruct (mget k m); split; eauto; try discriminate.
  intros [? [=]].
Qed.

End JsMapFacts.

Section SetFacts.
Import JsString JsMap.

Lemma sdelete_In x y s : In x (sdelete y s) <-> x <> y /\ In x s.
Proof.
  unfold sdelete. rewrite filter_In. split.
  - intros [Hin Hne]. split; [|exact Hin].
    intros ->. now rewrite String.eqb_refl in Hne.
  - intros [Hne Hin]. split; [exact Hin|].
    destruct (String.eqb_spec y x); [congruence | reflexivity].
Qed.

End SetFacts.

(** ** Service graph: what every built graph satisfies *)

Section GraphInvariantFacts.
Import JsString JsMap Graph GraphOps GraphInvariants.

Lemma default_init (k x : string) (m : list (string * list string)) :
  default [] (mget k (if mhas x m then m else mset x [] m)) = default [] (mget k m).
Proof.
  unfold mhas. destruct (mget x m) eqn:E; [reflexivity|].
  destruct (String.eqb_spec x k) as [->|Hne].
  - now rewrite mget_mset_eq, E.
  - now rewrite mget_mset_ne.
Qed.

Lemma unindex_get key eid key' (idx : list (string * list string)) :
  default [] (mget key' (unindex key eid idx))
  = if String.eqb key key' then sdelete eid (default [] (mget key idx))
    else default [] (mget key' idx).
Proof.
  unfold unindex. destruct (mget key idx) as [s|] eqn:E.
  - destruct (String.eqb_spec key key') as [->|Hne].
    + now rewrite mget_mset_eq.
    + now rewrite mget_mset_ne.
  - destruct (String.eqb_spec key key') as [->|Hne]; [now rewrite E|reflexivity].
Qed.

Lemma unindex_In key eid key' k (idx : list (string * list string)) :
  In k (default [] (mget key' (unindex key eid idx)))
  <-> In k (default [] (mget key' idx)) /\ (key = key' -> k <> eid).
Proof.
  rewrite unindex_get. destruct (String.eqb_spec key key') as [->|Hne].
  - rewrite sdelete_In. intuition.
  - intuition.
Qed.

Lemma unindex_absent key eid key' (idx : list (string * list string)) :
  mget key' (unindex key eid idx) = None <-> mget key' idx = None.
Proof.
  unfold unindex. destruct (mget key idx) as [s|] eqn:E; [|reflexivity].
  destruct (String.eqb_spec key key') as [->|Hne].
  - rewrite mget_mset_eq, E. split; discriminate.
  - now rewrite mget_mset_ne.
Qed.

Lemma addDependency_out (e : DependencyEdge) (g : ServiceGraph) s k :
  In k (default [] (mget s (outgoing (addDependency e g))))
  <-> In k (default [] (mget s (outgoing g)))
      \/ (s = source e /\ k = edgeId (source e) (target e)).
Proof.
  cbn [addDependency outgoing].
  destruct (String.eqb_spec (source e) s) as [<-|Hne].
  - rewrite mget_mset_eq. simpl (default _ (Some _)). rewrite sadd_In, default_init. intuition.
  - rewrite mget_mset_ne by exact Hne. rewrite default_init. intuition congruence.
Qed.

Lemma addDependency_in (e : DependencyEdge) (g : ServiceGraph) t k :
  In k (default [] (mget t (incoming (addDependency e g))))
  <-> In k (default [] (mget t (incoming g)))
      \/ (t = target e /\ k = edgeId (source e) (target e)).
Proof.
  cbn [addDependency incoming].
  destruct (String.eqb_spec (target e) t) as [<-|Hne].
  - rewrite mget_mset_eq. simpl (default _ (Some _)). rewrite sadd_In, default_init. intuition.
  - rewrite mget_mset_ne by exact Hne. rewrite default_init. intuition congruence.
Qed.

(** The two loops of [removeService], as one. *)
Section DropLoop.
Variable pick : DependencyEdge -> string.
Variable f : list (string * DependencyEdge) * list (string * list string) -> string
             -> list (string * DependencyEdge) * list (string * list string).
Hypothesis f_eq : forall st eid,
  f st eid = match mget eid (fst st) with
             | Some edge => (mdelete eid (fst st), unindex (pick edge) eid (snd st))
             | None => st
             end.

Lemma drop_sub ids : forall st k e,
  mget k (fst (fold_left f ids st)) = Some e -> mget k (fst st) = Some e.
Proof.
  induction ids as [|i ids IH]; intros st k e H; [exact H|].
  cbn [fold_left] in H. apply IH in H. rewrite f_eq in H.
  destruct (mget i (fst st)); [|exact H].
  now apply mget_mdelete_Some in H.
Qed.

Lemma drop_gone ids : forall st k,
  In k ids -> mget k (fst (fold_left f ids st)) = None.
Proof.
  induction ids as [|i ids IH]; intros st k Hin; [contradiction|].
  cbn [fold_left]. destruct (in_dec string_dec k ids) as [Hk|Hk]; [now apply IH|].
  destruct Hin as [->|Hin]; [|contradiction].
  destruct (mget k (fst (fold_left f ids (f st k)))) as [e|] eqn:E; [|reflexivity].
  apply drop_sub in E. rewrite f_eq in E.
  destruct (mget k (fst st)) eqn:E'; cbn [fst] in E.
  - now rewrite mget_mdelete_eq in E.
  - congruence.
Qed.

Lemma drop_kept ids : forall st k e,
  mget k (fst st) = Some e -> ~ In k ids -> mget k (fst (fold_left f ids st)) = Some e.
Proof.
  induction ids as [|i ids IH]; intros st k e H Hk; [exact H|].
  cbn [fold_left]. apply IH; [|intros ?; apply Hk; now right].
  rewrite f_eq. destruct (mget i (fst st)); [|exact H]. cbn [fst].
  rewrite mget_mdelete_ne; [exact H|]. intros ->. apply Hk. now left.
Qed.

Lemma drop_NoDup ids : forall st,
  List.NoDup (mkeys (fst st)) -> List.NoDup (mkeys (fst (fold_left f ids st))).
Proof.
  induction ids as [|i ids IH]; intros st H; [exact H|].
  cbn [fold_left]. apply IH. rewrite f_eq.
  destruct (mget i (fst st)); [|exact H]. now apply NoDup_mdelete.
Qed.

Lemma drop_index_sub ids : forall st key k,
  In k (default [] (mget key (snd (fold_left f ids st)))) ->
  In k (default [] (mget key (snd st))).
Proof.
  induction ids as [|i ids IH]; intros st key k H; [exact H|].
  cbn [fold_left] in H. apply IH in H. rewrite f_eq in H.
  destruct (mget i (fst st)); [|exact H].
  cbn [snd] in H. now apply unindex_In in H.
Qed.

Lemma drop_index_absent ids : forall st key,
  mget key (snd (fold_left f ids st)) = None <-> mget key (snd st) = None.
Proof.
  induction ids as [|i ids IH]; intros st key; [reflexivity|].
  cbn [fold_left]. rewrite IH, f_eq.
  destruct (mget i (fst st)); [|reflexivity].
  cbn [snd]. apply unindex_absent.
Qed.

Lemma drop_indexed ids : forall st,
  (forall k e, mget k (fst st) = Some e -> In k (default [] (mget (pick e) (snd st)))) ->
  forall k e, mget k (fst (fold_left f ids st)) = Some e ->
              In k (default [] (mget (pick e) (snd (fold_left f ids st)))).
Proof.
  induction ids as [|i ids IH]; intros st H; [exact H|].
  cbn [fold_left]. apply IH. intros k e. rewrite f_eq.
  destruct (mget i (fst st)) as [edge|] eqn:E; [|apply H].
  cbn [fst snd]. intros [Hne Hk]%mget_mdelete_Some.
  apply unindex_In. split; [now apply H|]. intros _ ->. now apply Hne.
Qed.

End DropLoop.

Lemma dropOutgoing_eq st eid :
  dropOutgoing st eid = match mget eid (fst st) with
                        | Some edge => (mdelete eid (fst st), unindex (target edge) eid (snd st))
                        | None => st
                        end.
Proof. reflexivity. Qed.

Lemma dropIncoming_eq st eid :
  dropIncoming st eid = match mget eid (fst st) with
                        | Some edge => (mdelete eid (fst st), unindex (source edge) eid (snd st))
                        | None => st
                        end.
Proof. reflexivity. Qed.

(** The components of the graph [removeService] leaves. *)
Lemma removeService_parts i g :
  mhas i (nodes g) = true ->
  let st1 := fold_left dropOutgoing (default [] (mget i (outgoing g))) (edges g, incoming g) in
  let st2 := fold_left dropIncoming (default [] (mget i (snd st1))) (fst st1, outgoing g) in
  removeService i g
  = ({| nodes := mdelete i (nodes g); edges := fst st2;
        outgoing := mdelete i (snd st2); incoming := mdelete i (snd st1) |}, true).
Proof.
  intros H. unfold removeService. rewrite H. cbv zeta.
  destruct (fold_left dropOutgoing _ _) as [edges1 incoming1]. cbn [fst snd].
  destruct (fold_left dropIncoming _ _) as [edges2 outgoing2]. reflexivity.
Qed.

Lemma keyed_empty : keyed empty.
Proof. repeat split; try constructor; cbn; discriminate. Qed.

Lemma indexed_empty : indexed empty.
Proof. intros k e; cbn; discriminate. Qed.

Lemma keyed_addService s now g : keyed g -> keyed (addService s now g).
Proof.
  intros (Hn & Hid & He & Hk). unfold keyed. cbn [addService nodes edges].
  refine (conj _ (conj _ (conj He Hk))).
  - now apply NoDup_mset.
  - intros k n. destruct (String.eqb_spec (id s) k) as [<-|Hne].
    + rewrite mget_mset_eq. now intros [= <-].
    + rewrite mget_mset_ne by exact Hne. apply Hid.
Qed.

Lemma indexed_addService s now g : indexed g -> indexed (addService s now g).
Proof.
  intros H k e Hk. cbn [addService outgoing incoming edges] in *.
  rewrite !default_init. now apply H.
Qed.

Lemma keyed_updateService i u now g : keyed g -> keyed (fst (updateService i u now g)).
Proof.
  intros Hkeyed. pose proof Hkeyed as (Hn & Hid & He & Hk). unfold updateService.
  destruct (mget i (nodes g)) as [existing|] eqn:E; [|exact Hkeyed].
  unfold keyed. cbn [fst nodes edges]. refine (conj _ (conj _ (conj He Hk))).
  - now apply NoDup_mset.
  - intros k n. destruct (String.eqb_spec i k) as [<-|Hne].
    + rewrite mget_mset_eq. intros [= <-]. cbn. now apply Hid.
    + rewrite mget_mset_ne by exact Hne. apply Hid.
Qed.

Lemma indexed_updateService i u now g : indexed g -> indexed (fst (updateService i u now g)).
Proof.
  intros H. unfold updateService. now destruct (mget i (nodes g)).
Qed.

Lemma keyed_addDependency e g : keyed g -> keyed (addDependency e g).
Proof.
  intros (Hn & Hid & He & Hk). unfold keyed. cbn [addDependency nodes edges].
  refine (conj Hn (conj Hid (conj _ _))).
  - now apply NoDup_mset.
  - intros k e'. destruct (String.eqb_spec (edgeId (source e) (target e)) k) as [<-|Hne].
    + rewrite mget_mset_eq. now intros [= <-].
    + rewrite mget_mset_ne by exact Hne. apply Hk.
Qed.

Lemma indexed_addDependency e g : indexed g -> indexed (addDependency e g).
Proof.
  intros H k e'. rewrite addDependency_out, addDependency_in.
  cbn [addDependency edges].
  destruct (String.eqb_spec (edgeId (source e) (target e)) k) as [<-|Hne].
  - rewrite mget_mset_eq. intros [= <-]. cbn. split; right; now split.
  - rewrite mget_mset_ne by exact Hne. intros Hk. split; left; now apply H.
Qed.

Lemma keyed_removeDependency s t g : keyed g -> keyed (fst (removeDependency s t g)).
Proof.
  intros Hkeyed. pose proof Hkeyed as (Hn & Hid & He & Hk). unfold removeDependency.
  destruct (mhas _ _); [|exact Hkeyed].
  unfold keyed. cbn [fst nodes edges]. refine (conj Hn (conj Hid (conj _ _))).
  - now apply NoDup_mdelete.
  - intros k e [_ H]%mget_mdelete_Some. now apply Hk.
Qed.

Lemma indexed_removeDependency s t g : indexed g -> indexed (fst (removeDependency s t g)).
Proof.
  intros H. unfold removeDependency. destruct (mhas _ _); [|exact H].
  intros k e [Hne Hk]%mget_mdelete_Some. cbn [fst outgoing incoming].
  rewrite !unindex_In. destruct (H k e Hk). repeat split; trivial; intros _ ->; now apply Hne.
Qed.

Lemma keyed_removeService i g : keyed g -> keyed (fst (removeService i g)).
Proof.
  intros Hkeyed. pose proof Hkeyed as (Hn & Hid & He & Hk). destruct (mhas i (nodes g)) eqn:E.
  2:{ unfold removeService. rewrite E. exact Hkeyed. }
  rewrite (removeService_parts i g E). cbn [fst nodes edges].
  assert (forall k e,
    mget k (fst (fold_left dropIncoming
      (default [] (mget i (snd (fold_left dropOutgoing (default [] (mget i (outgoing g)))
                                  (edges g, incoming g)))))
      (fst (fold_left dropOutgoing (default [] (mget i (outgoing g))) (edges g, incoming g)),
       outgoing g))) = Some e -> mget k (edges g) = Some e) as Hsub.
  { intros k e H. apply (drop_sub source dropIncoming dropIncoming_eq) in H. cbn [fst] in H.
    now apply (drop_sub target dropOutgoing dropOutgoing_eq) in H. }
  refine (conj _ (conj _ (conj _ _))).
  - now apply NoDup_mdelete.
  - intros k n [_ H]%mget_mdelete_Some. now apply Hid.
  - apply (drop_NoDup source dropIncoming dropIncoming_eq). cbn [fst].
    now apply (drop_NoDup target dropOutgoing dropOutgoing_eq).
  - intros k e H. apply Hsub in H. now apply Hk.
Qed.

(** What is left of the edges once [removeService] has run on a graph whose
    edges are indexed: none touches the removed service. *)
Lemma removeService_edges i g k e :
  indexed g -> mhas i (nodes g) = true ->
  mget k (edges (fst (removeService i g))) = Some e ->
  mget k (edges g) = Some e /\ source e <> i /\ target e <> i.
Proof.
  intros Hidx E. rewrite (removeService_parts i g E). cbn [fst edges].
  set (st1 := fold_left dropOutgoing _ _).
  intros H.
  assert (mget k (fst st1) = Some e) as H1
    by now apply (drop_sub source dropIncoming dropIncoming_eq) in H.
  assert (mget k (edges g) = Some e) as H0
    by now apply (drop_sub target dropOutgoing dropOutgoing_eq) in H1.
  split; [exact H0|]. split.
  - intros Hs. destruct (Hidx k e H0) as [Hout _]. rewrite Hs in Hout.
    unfold st1 in H1.
    now rewrite (drop_gone target dropOutgoing dropOutgoing_eq _ _ k Hout) in H1.
  - intros Ht.
    assert (In k (default [] (mget i (snd st1)))) as Hin.
    { rewrite <- Ht.
      apply (drop_indexed target dropOutgoing dropOutgoing_eq
               (default [] (mget i (outgoing g))) (edges g, incoming g)); [|exact H1].
      intros k' e' Hk'. now apply Hidx. }
    now rewrite (drop_gone source dropIncoming dropIncoming_eq _ _ k Hin) in H.
Qed.

Lemma indexed_removeService i g : indexed g -> indexed (fst (removeService i g)).
Proof.
  intros Hidx. destruct (mhas i (nodes g)) eqn:E.
  2:{ unfold removeService. now rewrite E. }
  intros k e H. destruct (removeService_edges i g k e Hidx E H) as (H0 & Hs & Ht).
  revert H. rewrite (removeService_parts i g E). cbn [fst edges outgoing incoming].
  set (st1 := fold_left dropOutgoing _ _). intros H.
  rewrite !mget_mdelete_ne by congruence. split.
  - apply (drop_indexed source dropIncoming dropIncoming_eq _ (fst st1, outgoing g)); [|exact H].
    cbn [fst snd]. intros k' e' Hk'.
    apply (drop_sub target dropOutgoing dropOutgoing_eq) in Hk'. now apply Hidx.
  - apply (drop_indexed target dropOutgoing dropOutgoing_eq _ (edges g, incoming g)).
    + intros k' e' Hk'. now apply Hidx.
    + now apply (drop_sub source dropIncoming dropIncoming_eq) in H.
Qed.

Lemma keyed_call g c : keyed g -> keyed (call g c).
Proof.
  destruct c; cbn [call]; auto using keyed_addService, keyed_updateService,
    keyed_removeService, keyed_addDependency, keyed_removeDependency.
  intros _. apply keyed_empty.
Qed.

Lemma indexed_call g c : indexed g -> indexed (call g c).
Proof.
  destruct c; cbn [call]; auto using indexed_addService, indexed_updateService,
    indexed_removeService, indexed_addDependency, indexed_removeDependency.
  intros _. apply indexed_empty.
Qed.

Lemma built_keyed cs : keyed (built cs).
Proof.
  unfold built. apply (fold_left_preserves keyed); [|apply keyed_empty].
  intros g c _. apply keyed_call.
Qed.

Lemma built_indexed cs : indexed (built cs).
Proof.
  unfold built. apply (fold_left_preserves indexed); [|apply indexed_empty].
  intros g c _. apply indexed_call.
Qed.

End GraphInvariantFacts.

(** ** Service graph: edge ids and the services they join *)

Section EdgeIdFacts.
Import JsString JsMap Graph GraphOps GraphInvariants.

Lemma arrowFree_tail c s : arrowFree (String c s) = true -> arrowFree s = true.
Proof.
  unfold arrowFree. cbn [includes].
  destruct (startsWith (String c s) "->"); [discriminate|trivial].
Qed.

Lemma arrowFree_start s : arrowFree s = true -> startsWith s "->" = false.
Proof.
  unfold arrowFree. destruct s as [|c s]; [reflexivity|].
  cbn [includes]. now destruct (startsWith (String c s) "->").
Qed.

Lemma append_nil_l (s : string) : "" +:+ s = s.
Proof. reflexivity. Qed.

Lemma append_cons (c : ascii) (s t : string) : String c s +:+ t = String c (s +:+ t).
Proof. reflexivity. Qed.

(** An edge id tells its end points, as long as the sources hold no arrow. *)
Lemma edgeId_inj s t s' t' :
  arrowFree s = true -> arrowFree s' = true ->
  edgeId s t = edgeId s' t' -> s = s' /\ t = t'.
Proof.
  unfold edgeId. revert s'. induction s as [|c s IH]; intros [|c' s'] Hs Hs' H;
    rewrite ?append_cons, ?append_nil_l in H.
  - now injection H as ->.
  - exfalso. apply arrowFree_start in Hs'. injection H as <- H.
    destruct s' as [|d s']; rewrite ?append_cons, ?append_nil_l in H; [discriminate|].
    injection H as <- _. destruct s'; vm_compute in Hs'; discriminate.
  - exfalso. apply arrowFree_start in Hs. injection H as -> H.
    destruct s as [|d s]; rewrite ?append_cons, ?append_nil_l in H; [discriminate|].
    injection H as -> _. destruct s; vm_compute in Hs; discriminate.
  - injection H as -> H.
    destruct (IH s' (arrowFree_tail _ _ Hs) (arrowFree_tail _ _ Hs') H) as [-> ->].
    now split.
Qed.

Lemma mdelete_default_In (k s i : string) (m : list (string * list string)) :
  In k (default [] (mget s (mdelete i m))) -> s <> i /\ In k (default [] (mget s m)).
Proof.
  destruct (String.eqb_spec i s) as [->|Hne].
  - now rewrite mget_mdelete_eq.
  - rewrite mget_mdelete_ne by exact Hne. intros H. split; [congruence | exact H].
Qed.

Lemma sourced_empty : sourced empty.
Proof. split; intros ? ? []. Qed.

Lemma sourced_call g c : arrowFreeCall c -> sourced g -> sourced (call g c).
Proof.
  intros Hc [Hout Hin]. destruct c as [s now|i u now|i|e|s t|]; cbn [call].
  - split; intros x k; cbn [addService outgoing incoming]; rewrite default_init; auto.
  - unfold updateService. destruct (mget i (nodes g)); now split.
  - destruct (mhas i (nodes g)) eqn:E.
    2:{ unfold removeService. rewrite E. now split. }
    rewrite (removeService_parts i g E). cbn [fst outgoing incoming]. split.
    + intros s k [_ H]%mdelete_default_In.
      apply (drop_index_sub source dropIncoming dropIncoming_eq) in H. now apply Hout.
    + intros t k [_ H]%mdelete_default_In.
      apply (drop_index_sub target dropOutgoing dropOutgoing_eq) in H. now apply Hin.
  - cbn in Hc. split.
    + intros s k [H|[-> ->]]%addDependency_out; [now apply Hout|]. split; eauto.
    + intros t k [H|[-> ->]]%addDependency_in; [now apply Hin|]. eauto.
  - unfold removeDependency. destruct (mhas _ _); [|now split].
    cbn [fst outgoing incoming]. split.
    + intros x k [H _]%unindex_In. now apply Hout.
    + intros x k [H _]%unindex_In. now apply Hin.
  - apply sourced_empty.
Qed.

Lemma built_sourced cs : Forall arrowFreeCall cs -> sourced (built cs).
Proof.
  intros H. unfold built. apply (fold_left_preserves sourced); [|apply sourced_empty].
  intros g c Hc. apply sourced_call. exact (proj1 (List.Forall_forall _ _) H c Hc).
Qed.

(** In a graph whose ids tell the end points, an edge listed under a
    service leaves it, or reaches it. *)
Lemma listed_out g s k e :
  keyed g -> indexed g -> sourced g ->
  In k (default [] (mget s (outgoing g))) -> mget k (edges g) = Some e ->
  source e = s /\ k = edgeId s (target e).
Proof.
  intros (_ & _ & _ & Hk) Hidx [Hout _] Hin He.
  destruct (Hout s k Hin) as (Hs & t & ->).
  destruct (Hk _ e He) as [_ Heq].
  destruct (Hidx _ e He) as [Hin' _].
  destruct (Hout _ _ Hin') as [Hs' _].
  destruct (edgeId_inj _ _ _ _ Hs Hs' Heq) as [-> ->]. now split.
Qed.

Lemma listed_in g t k e :
  keyed g -> indexed g -> sourced g ->
  In k (default [] (mget t (incoming g))) -> mget k (edges g) = Some e ->
  target e = t /\ k = edgeId (source e) t.
Proof.
  intros (_ & _ & _ & Hk) Hidx [Hout Hinc] Hin He.
  destruct (Hinc t k Hin) as (s & Hs & ->).
  destruct (Hk _ e He) as [_ Heq].
  destruct (Hidx _ e He) as [Hin' _].
  destruct (Hout _ _ Hin') as [Hs' _].
  destruct (edgeId_inj _ _ _ _ Hs Hs' Heq) as [-> ->]. now split.
Qed.

End EdgeIdFacts.

(** ** Service graph: the graphs calls build *)

Section BuiltGraphFacts.
Import JsString JsMap Graph GraphOps GraphInvariants GraphExamples.

Lemma values_keys {V : Type} (key : V -> string) (m : list (string * V)) :
  List.NoDup (mkeys m) -> (forall k v, mget k m = Some v -> key v = k) ->
  List.map key (mvalues m) = mkeys m.
Proof.
  intros Hnd Hkey. unfold mvalues, mkeys. rewrite List.map_map.
  apply List.map_ext_in. intros [k v] Hin. cbn. apply Hkey. now apply In_mget.
Qed.

Lemma values_Forall {V : Type} (P : V -> Prop) (m : list (string * V)) :
  List.NoDup (mkeys m) -> (forall k v, mget k m = Some v -> P v) -> Forall P (mvalues m).
Proof.
  intros Hnd H. apply List.Forall_forall. intros v Hv.
  unfold mvalues in Hv. apply in_map_iff in Hv as ([k v'] & Heq & Hin). cbn in Heq. subst v'.
  apply (H k). now apply In_mget.
Qed.

(** X4: whatever calls built a graph, its services have pairwise distinct
    ids and each is found under its id; its edges have pairwise distinct
    ids, each the arrow id of its end points, each found by its end points
    and listed in the outgoing set of its source and the incoming set of
    its target. *)
Theorem built_graph_consistent (cs : list GraphCall) :
  List.NoDup (List.map id (getAllServices (built cs)))
  /\ Forall (fun n => getService (id n) (built cs) = Some n) (getAllServices (built cs))
  /\ List.NoDup (List.map edge_id (getAllEdges (built cs)))
  /\ Forall (fun e => edge_id e = edgeId (source e) (target e)
                      /\ getDependency (source e) (target e) (built cs) = Some e
                      /\ In (edge_id e) (default [] (mget (source e) (outgoing (built cs))))
                      /\ In (edge_id e) (default [] (mget (target e) (incoming (built cs)))))
       (getAllEdges (built cs)).
Proof.
  destruct (built_keyed cs) as (Hn & Hid & He & Hk).
  pose proof (built_indexed cs) as Hidx.
  unfold getAllServices, getAllEdges, getService, getDependency.
  split; [|split; [|split]].
  - rewrite (values_keys id); [exact Hn | exact Hn | exact Hid].
  - apply values_Forall; [exact Hn|]. intros k n H. now rewrite (Hid k n H).
  - rewrite (values_keys edge_id); [exact He | exact He |]. intros k e H. now apply Hk.
  - apply values_Forall; [exact He|]. intros k e H.
    destruct (Hk k e H) as [H1 H2]. destruct (Hidx k e H) as [H3 H4].
    rewrite H1. rewrite <- H2. auto.
Qed.

Lemma neighbours_In g (out : bool) s n :
  In n (neighbours g out s)
  <-> exists eid e, In eid (default [] (mget s (if out then outgoing g else incoming g)))
                    /\ mget eid (edges g) = Some e
                    /\ mget (if out then target e else source e) (nodes g) = Some n.
Proof.
  unfold neighbours.
  set (step := fun acc eid => match mget eid (edges g) with
                              | Some edge => match mget (if out then target edge else source edge)
                                                     (nodes g) with
                                             | Some n => (acc ++ [n])%list
                                             | None => acc
                                             end
                              | None => acc
                              end).
  assert (forall ids acc,
            In n (fold_left step ids acc)
            <-> In n acc \/ exists eid e, In eid ids /\ mget eid (edges g) = Some e
                  /\ mget (if out then target e else source e) (nodes g) = Some n) as H.
  { induction ids as [|i ids IH]; intros acc; cbn [fold_left].
    - split; [now left | intros [H|(? & ? & [] & _)]; exact H].
    - rewrite IH. unfold step. split.
      + intros [H|(eid & e & Hin & He & Hn)].
        * destruct (mget i (edges g)) as [e|] eqn:E; [|now left].
          destruct (mget _ (nodes g)) as [m|] eqn:E'; [|now left].
          apply in_app_iff in H as [H|[<-|[]]]; [now left|].
          right. exists i, e. repeat split; trivial. now left.
        * right. exists eid, e. repeat split; trivial. now right.
      + intros [H|(eid & e & [<-|Hin] & He & Hn)].
        * left. destruct (mget i (edges g)); [|exact H].
          destruct (mget _ (nodes g)); [|exact H]. apply in_app_iff. now left.
        * left. rewrite He, Hn. apply in_app_iff. right. now left.
        * right. exists eid, e. now repeat split. }
  rewrite H. split; [intros [[]|H']; exact H' | intros H'; now right].
Qed.

(** X5: removing a service of a built graph returns [true] and leaves a
    graph without that service, with every other service as it was, in
    which no edge leaves or reaches the removed service, no dependency or
    dependent list names it, and neither index has an entry for it. *)
Theorem removeService_detaches (cs : list GraphCall) (i : string) (n : ServiceNode) :
  getService i (built cs) = Some n ->
  snd (removeService i (built cs)) = true
  /\ getService i (fst (removeService i (built cs))) = None
  /\ (forall j, j <> i ->
        getService j (fst (removeService i (built cs))) = getService j (built cs))
  /\ Forall (fun e => source e <> i /\ target e <> i /\ In e (getAllEdges (built cs)))
       (getAllEdges (fst (removeService i (built cs))))
  /\ (forall j, Forall (fun m => id m <> i)
                  (getDependencies (fst (removeService i (built cs))) j
                   ++ getDependents (fst (removeService i (built cs))) j))
  /\ mget i (outgoing (fst (removeService i (built cs)))) = None
  /\ mget i (incoming (fst (removeService i (built cs)))) = None.
Proof.
  intros Hsvc.
  assert (mhas i (nodes (built cs)) = true) as E
    by (unfold mhas; unfold getService in Hsvc; now rewrite Hsvc).
  pose proof (built_keyed cs) as Hkeyed. pose proof (built_indexed cs) as Hidx.
  pose proof (keyed_removeService i _ Hkeyed) as (Hn' & Hid' & He' & Hk').
  pose proof (removeService_edges i (built cs)) as Hedges.
  assert (nodes (fst (removeService i (built cs))) = mdelete i (nodes (built cs))) as Hnodes
    by now rewrite (removeService_parts i _ E).
  split; [now rewrite (removeService_parts i _ E)|].
  split; [unfold getService; rewrite Hnodes; apply mget_mdelete_eq|].
  split; [intros j Hj; unfold getService; rewrite Hnodes; now apply mget_mdelete_ne|].
  split.
  { apply values_Forall; [exact He'|]. intros k e H.
    destruct (Hedges k e Hidx E H) as (H0 & Hs & Ht). repeat split; trivial.
    unfold getAllEdges, mvalues. apply (in_map snd _ (k, e)). now apply mget_In. }
  split.
  { intros j. apply List.Forall_forall. intros m Hm.
    assert (exists k, mget k (nodes (fst (removeService i (built cs)))) = Some m) as [k Hk].
    { apply in_app_iff in Hm as [Hm|Hm]; apply neighbours_In in Hm as (? & e & _ & _ & H);
        eauto. }
    rewrite (Hid' k m Hk). rewrite Hnodes in Hk. now apply mget_mdelete_Some in Hk as [? _]. }
  rewrite (removeService_parts i _ E). cbn [fst outgoing incoming].
  split; apply mget_mdelete_eq.
Qed.

Lemma filter_all {A : Type} (l : list A) : List.filter (fun _ => true) l = l.
Proof. induction l as [|a l IH]; cbn; congruence. Qed.

Lemma filter_twice {A : Type} (p q : A -> bool) (l : list A) :
  List.filter p (List.filter q l) = List.filter (fun x => q x && p x)%bool l.
Proof.
  induction l as [|a l IH]; cbn; [reflexivity|].
  destruct (q a); cbn; [destruct (p a)|]; congruence.
Qed.

Lemma mdelete_absent {V : Type} (k : string) (m : list (string * V)) :
  mget k m = None -> mdelete k m = m.
Proof.
  unfold mdelete. induction m as [|[k' v] m IH]; cbn; [reflexivity|].
  destruct (String.eqb k k'); [discriminate|]. intros H. cbn. now rewrite IH.
Qed.

Lemma values_filter {V : Type} (p : string * V -> bool) (q : V -> bool)
    (m : list (string * V)) :
  (forall kv, In kv m -> p kv = q (snd kv)) ->
  mvalues (List.filter p m) = List.filter q (mvalues m).
Proof.
  unfold mvalues. induction m as [|kv m IH]; intros H; cbn; [reflexivity|].
  rewrite (H kv) by now left. destruct (q (snd kv)); cbn; rewrite IH; auto.
  all: intros kv' Hkv'; apply H; now right.
Qed.

(** The edges either loop of [removeService] leaves are those whose id is
    not among the ids walked. *)
Lemma drop_filter (pick : DependencyEdge -> string) f
    (f_eq : forall st eid,
       f st eid = match mget eid (fst st) with
                  | Some edge => (mdelete eid (fst st), unindex (pick edge) eid (snd st))
                  | None => st
                  end) ids :
  forall st, fst (fold_left f ids st)
             = List.filter (fun kv => negb (mem (fst kv) ids)) (fst st).
Proof.
  induction ids as [|i ids IH]; intros st; cbn [fold_left].
  - cbn. now rewrite filter_all.
  - rewrite IH.
    assert (fst (f st i) = mdelete i (fst st)) as ->.
    { rewrite f_eq. destruct (mget i (fst st)) eqn:E; [reflexivity|].
      now rewrite mdelete_absent. }
    unfold mdelete. rewrite filter_twice. apply List.filter_ext.
    intros [k e]. cbn. rewrite (String.eqb_sym i k). now destruct (String.eqb k i).
Qed.

(** X6: when no edge was ever added with an arrow inside its source id,
    removing a service removes exactly the edges that leave or reach it:
    the edges left are the others, in their order. *)
Theorem removeService_exact (cs : list GraphCall) (i : string) (n : ServiceNode) :
  Forall arrowFreeCall cs ->
  getService i (built cs) = Some n ->
  getAllEdges (fst (removeService i (built cs)))
  = List.filter (fun e => negb (String.eqb (source e) i) && negb (String.eqb (target e) i))%bool
      (getAllEdges (built cs)).
Proof.
  intros Hcs Hsvc.
  assert (mhas i (nodes (built cs)) = true) as E
    by (unfold mhas; unfold getService in Hsvc; now rewrite Hsvc).
  pose proof (built_keyed cs) as Hkeyed. pose proof (built_indexed cs) as Hidx.
  pose proof (built_sourced cs Hcs) as Hsrc.
  set (g := built cs) in *.
  unfold getAllEdges. rewrite (removeService_parts i g E). cbn [fst edges].
  set (st1 := fold_left dropOutgoing _ _).
  rewrite (drop_filter source dropIncoming dropIncoming_eq). cbn [fst].
  unfold st1 at 2. rewrite (drop_filter target dropOutgoing dropOutgoing_eq). cbn [fst].
  rewrite filter_twice. apply values_filter. intros [k e] Hin. cbn [fst snd].
  assert (mget k (edges g) = Some e) as He by (apply In_mget; [apply Hkeyed | exact Hin]).
  destruct (Hidx k e He) as [Hout Hinc].
  destruct (String.eqb_spec (source e) i) as [Hs|Hs].
  - rewrite Hs in Hout. apply mem_true_iff in Hout. now rewrite Hout.
  - assert (mem k (default [] (mget i (outgoing g))) = false) as Hnot.
    { destruct (mem k _) eqn:Hm; [|reflexivity]. apply mem_true_iff in Hm.
      now destruct (listed_out g i k e Hkeyed Hidx Hsrc Hm He). }
    rewrite Hnot. cbn [negb andb].
    assert (mget k (fst st1) = Some e) as H1.
    { apply (drop_kept target dropOutgoing dropOutgoing_eq); [exact He|].
      intros Hm%mem_true_iff. congruence. }
    destruct (String.eqb_spec (target e) i) as [Ht|Ht].
    + assert (In k (default [] (mget i (snd st1)))) as Hm.
      { rewrite <- Ht.
        apply (drop_indexed target dropOutgoing dropOutgoing_eq
                 (default [] (mget i (outgoing g))) (edges g, incoming g)); [|exact H1].
        intros k' e' Hk'. now apply Hidx. }
      apply mem_true_iff in Hm. now rewrite Hm.
    + destruct (mem k (default [] (mget i (snd st1)))) eqn:Hm; [|reflexivity].
      apply mem_true_iff in Hm.
      apply (drop_index_sub target dropOutgoing dropOutgoing_eq) in Hm. cbn [snd] in Hm.
      now destruct (listed_in g i k e Hkeyed Hidx Hsrc Hm He).
Qed.

End BuiltGraphFacts.

(** ** Service graph: [findPath] *)

Section FindPathFacts.
Import JsString JsMap Graph GraphOps GraphInvariants GraphExamples.

Lemma filter_length_le {A : Type} (p q : A -> bool) (l : list A) :
  (forall x, q x = true -> p x = true) ->
  (List.length (List.filter q l) <= List.length (List.filter p l))%nat.
Proof.
  intros H. induction l as [|a l IH]; cbn; [lia|].
  destruct (q a) eqn:Hq; [rewrite (H a Hq); cbn; lia|].
  destruct (p a); cbn; lia.
Qed.

Lemma filter_length_lt {A : Type} (p q : A -> bool) (l : list A) (x : A) :
  (forall y, q y = true -> p y = true) -> In x l -> p x = true -> q x = false ->
  (List.length (List.filter q l) < List.length (List.filter p l))%nat.
Proof.
  intros H. induction l as [|a l IH]; cbn; [contradiction|].
  intros [->|Hin] Hp Hq.
  - rewrite Hp, Hq. cbn. pose proof (filter_length_le p q l H). lia.
  - specialize (IH Hin Hp Hq). destruct (q a) eqn:Hqa; [rewrite (H a Hqa); cbn; lia|].
    destruct (p a); cbn; lia.
Qed.

Lemma mem_sadd u x s : mem u (sadd x s) = (String.eqb u x || mem u s)%bool.
Proof.
  apply eq_true_iff_eq. rewrite orb_true_iff, !mem_true_iff, sadd_In, String.eqb_eq.
  reflexivity.
Qed.

Lemma unvisited_sadd g from node visited :
  In node (reachableNames g from) -> mem node visited = false ->
  (unvisited g from (sadd node visited) < unvisited g from visited)%nat.
Proof.
  intros Hin Hm. unfold unvisited.
  apply (filter_length_lt _ _ _ node); trivial.
  - intros y. rewrite mem_sadd. now destruct (String.eqb y node), (mem y visited).
  - now rewrite Hm.
  - now rewrite mem_sadd, String.eqb_refl.
Qed.

Lemma listed_length (k : string) (m : list (string * list string)) :
  (List.length (default [] (mget k m)) <= List.length (List.concat (List.map snd m)))%nat.
Proof.
  induction m as [|[k' s] m IH]; cbn; [lia|].
  rewrite List.length_app. destruct (String.eqb k k'); cbn; lia.
Qed.

Lemma target_reachable g from k e :
  mget k (edges g) = Some e -> In (target e) (reachableNames g from).
Proof.
  intros H%mget_In. right. now apply (in_map (fun kv => target (snd kv))) in H.
Qed.

Lemma scanEdges_queue g from to visited pth ids :
  forall queue queue',
    scanEdges g to visited pth ids queue = inr queue' ->
    (List.length queue' <= List.length queue + List.length ids)%nat
    /\ (Forall (fun it : QueueItem => In (fst it) (reachableNames g from)) queue ->
        Forall (fun it : QueueItem => In (fst it) (reachableNames g from)) queue').
Proof.
  induction ids as [|i ids IH]; intros queue queue' H; cbn [scanEdges] in H.
  - injection H as <-. split; [cbn; lia | trivial].
  - destruct (mget i (edges g)) as [e|] eqn:E.
    + destruct (String.eqb (target e) to); [discriminate|].
      apply IH in H as [Hlen Hall]. split.
      * destruct (mem (target e) visited); [|rewrite List.length_app in Hlen]; cbn in *; lia.
      * intros Hq. apply Hall. destruct (mem (target e) visited); [exact Hq|].
        apply Forall_app. split; [exact Hq|]. constructor; [|constructor].
        cbn. now apply (target_reachable g from i).
    + apply IH in H as [Hlen Hall]. split; [cbn; lia | exact Hall].
Qed.

(** The loop of [findPath] ends once it has as many turns as the queue is
    long, and a full fan of pushes more for every node not yet visited. *)
Lemma search_total g from to :
  forall fuel queue visited,
    Forall (fun it : QueueItem => In (fst it) (reachableNames g from)) queue ->
    (List.length queue + unvisited g from visited * S (fanout g) < fuel)%nat ->
    search g to fuel queue visited <> OutOfFuel.
Proof.
  induction fuel as [|fuel IH]; intros queue visited Hq Hfuel; [lia|].
  cbn [search]. destruct queue as [|[node pth] queue]; [discriminate|].
  apply Forall_cons in Hq as [Hnode Hq]. cbn [fst] in Hnode. cbn [List.length] in Hfuel.
  destruct (mem node visited) eqn:Hm.
  - apply IH; [exact Hq | lia].
  - destruct (scanEdges _ _ _ _ _ _) as [p|queue'] eqn:Hscan; [discriminate|].
    apply (scanEdges_queue g from) in Hscan as [Hlen Hall].
    apply IH; [now apply Hall|].
    pose proof (unvisited_sadd g from node visited Hnode Hm).
    pose proof (listed_length node (outgoing g)). fold (fanout g) in *.
    nia.
Qed.

Lemma search_more g to k :
  forall fuel queue visited,
    search g to fuel queue visited <> OutOfFuel ->
    search g to (fuel + k) queue visited = search g to fuel queue visited.
Proof.
  induction fuel as [|fuel IH]; intros queue visited H; [now contradiction H|].
  cbn [search Nat.add] in *. destruct queue as [|[node pth] queue]; [reflexivity|].
  destruct (mem node visited); [now apply IH|].
  destruct (scanEdges _ _ _ _ _ _); [reflexivity | now apply IH].
Qed.

Lemma walk_snoc g a rest z b :
  walk g a rest z -> step g z b -> walk g a (rest ++ [b]) b.
Proof.
  revert a. induction rest as [|c rest IH]; intros a; cbn.
  - intros <- H. now split.
  - intros [H1 H2] H. split; [exact H1 | now apply IH].
Qed.

Lemma scanEdges_sound g from to visited node pth ids :
  held g from (node, pth) ->
  (forall eid, In eid ids -> In eid (default [] (mget node (outgoing g)))) ->
  forall queue,
    Forall (held g from) queue ->
    match scanEdges g to visited pth ids queue with
    | inl p => held g from (to, p)
    | inr queue' => Forall (held g from) queue'
    end.
Proof.
  intros (rest & Hp & Hw) . cbn [fst snd] in Hp, Hw. subst pth.
  induction ids as [|i ids IH]; intros Hids queue Hq; cbn [scanEdges]; [exact Hq|].
  assert (forall eid, In eid ids -> In eid (default [] (mget node (outgoing g)))) as Hids'
    by (intros eid H; apply Hids; now right).
  destruct (mget i (edges g)) as [e|] eqn:E; [|now apply IH].
  assert (held g from (target e, (from :: rest) ++ [target e])) as Hnew.
  { exists (rest ++ [target e]). split; [reflexivity|]. cbn [fst].
    apply (walk_snoc g from rest node); [exact Hw|].
    exists i, e. split; [apply Hids; now left | now split]. }
  destruct (String.eqb_spec (target e) to) as [<-|Hne]; [exact Hnew|].
  apply IH; [exact Hids'|].
  destruct (mem (target e) visited); [exact Hq|].
  apply Forall_app. split; [exact Hq | now constructor].
Qed.

Lemma search_sound g from to :
  forall fuel queue visited p,
    Forall (held g from) queue ->
    search g to fuel queue visited = Found p -> held g from (to, p).
Proof.
  induction fuel as [|fuel IH]; intros queue visited p Hq H; [discriminate|].
  cbn [search] in H. destruct queue as [|[node pth] queue]; [discriminate|].
  apply Forall_cons in Hq as [Hnode Hq].
  destruct (mem node visited); [now apply (IH queue visited)|].
  pose proof (scanEdges_sound g from to (sadd node visited) node pth
                (default [] (mget node (outgoing g))) Hnode (fun _ H => H) queue Hq) as Hs.
  destruct (scanEdges _ _ _ _ _ _) as [p'|queue'].
  - now injection H as <-.
  - now apply (IH queue' (sadd node visited)).
Qed.

Lemma scanEdges_complete g to visited pth ids :
  forall queue queue',
    scanEdges g to visited pth ids queue = inr queue' ->
    (forall eid e, In eid ids -> mget eid (edges g) = Some e ->
       target e <> to /\ (In (target e) visited \/ In (target e) (List.map fst queue')))
    /\ (forall x, In x (List.map fst queue) -> In x (List.map fst queue'))
    /\ (Forall (fun it : QueueItem => fst it <> to) queue ->
        Forall (fun it : QueueItem => fst it <> to) queue').
Proof.
  induction ids as [|i ids IH]; intros queue queue' H; cbn [scanEdges] in H.
  - injection H as <-. split; [intros ? ? []|]. split; trivial.
  - destruct (mget i (edges g)) as [e|] eqn:E.
    + destruct (String.eqb_spec (target e) to) as [|Hne]; [discriminate|].
      apply IH in H as (Hids & Hsub & Hall).
      assert (In (target e) visited \/ In (target e) (List.map fst queue')) as Hhere.
      { destruct (mem (target e) visited) eqn:Hm; [left; now apply mem_true_iff|].
        right. apply Hsub. rewrite List.map_app, in_app_iff. right. now left. }
      split; [|split].
      * intros eid e' [<-|Hin] He'; [|now apply (Hids eid)].
        rewrite E in He'. injection He' as <-. now split.
      * intros x Hx. apply Hsub. destruct (mem (target e) visited); [exact Hx|].
        rewrite List.map_app, in_app_iff. now left.
      * intros Hq. apply Hall. destruct (mem (target e) visited); [exact Hq|].
        apply Forall_app. split; [exact Hq | now repeat constructor].
    + apply IH in H as (Hids & Hsub & Hall). split; [|now split].
      intros eid e' [<-|Hin] He'; [congruence | now apply (Hids eid)].
Qed.

Lemma search_unreachable g to :
  forall fuel queue visited,
    scanned g to queue visited ->
    Forall (fun it : QueueItem => fst it <> to) queue ->
    search g to fuel queue visited = Unreachable ->
    exists closed : list string,
      (forall x, In x visited -> In x closed)
      /\ (forall x, In x (List.map fst queue) -> In x closed)
      /\ (forall v, In v closed -> v <> to /\ forall b, step g v b -> In b closed).
Proof.
  induction fuel as [|fuel IH]; intros queue visited Hinv Hq H; [discriminate|].
  cbn [search] in H. destruct queue as [|[node pth] queue].
  - exists visited. split; [trivial|]. split; [intros ? []|]. intros v Hv.
    destruct (Hinv v Hv) as [Hne Hstep]. split; [exact Hne|].
    intros b Hb. now destruct (Hstep b Hb) as [_ [?|[]]].
  - apply Forall_cons in Hq as [Hnode Hq]. cbn [fst] in Hnode.
    destruct (mem node visited) eqn:Hm.
    + apply mem_true_iff in Hm.
      assert (scanned g to queue visited) as Hinv'.
      { intros v Hv. destruct (Hinv v Hv) as [Hne Hstep]. split; [exact Hne|].
        intros b Hb. destruct (Hstep b Hb) as [Hb1 [Hb2|[<-|Hb2]]]; auto. }
      destruct (IH queue visited Hinv' Hq H) as (closed & Hvis & Hsub & Hclosed).
      exists closed. split; [exact Hvis|]. split; [|exact Hclosed].
      intros x [<-|Hx]; [now apply Hvis | now apply Hsub].
    + destruct (scanEdges _ _ _ _ _ _) as [p|queue'] eqn:Hscan; [discriminate|].
      apply scanEdges_complete in Hscan as (Hids & Hsub & Hall).
      assert (scanned g to queue' (sadd node visited)) as Hinv'.
      { intros v [->|Hv]%sadd_In.
        - split; [exact Hnode|]. intros b (eid & e & Hin & He & <-).
          now apply (Hids eid).
        - destruct (Hinv v Hv) as [Hne Hstep]. split; [exact Hne|].
          intros b Hb. destruct (Hstep b Hb) as [Hb1 Hb2]. split; [exact Hb1|].
          rewrite sadd_In. destruct Hb2 as [Hb2|[<-|Hb2]]; auto. }
      destruct (IH queue' _ Hinv' (Hall Hq) H) as (closed & Hvis & Hq' & Hclosed).
      exists closed. split; [|split; [|exact Hclosed]].
      * intros x Hx. apply Hvis, sadd_In. now right.
      * intros x [<-|Hx]; [apply Hvis, sadd_In; now left | now apply Hq', Hsub].
Qed.

Lemma closed_walk g (closed : list string) :
  (forall v, In v closed -> forall b, step g v b -> In b closed) ->
  forall rest a z, In a closed -> walk g a rest z -> In z closed.
Proof.
  intros Hc. induction rest as [|b rest IH]; intros a z Ha; cbn.
  - now intros <-.
  - intros [Hs Hw]. apply (IH b); [now apply (Hc a) | exact Hw].
Qed.

Lemma searchBound_enough g from :
  (List.length [(from, [from])] + unvisited g from [] * S (fanout g) < searchBound g)%nat.
Proof.
  unfold searchBound, unvisited, reachableNames, fanout. cbn [List.length].
  pose proof (List.filter_length_le (fun u => negb (mem u []))
                (from :: List.map (fun kv => target (snd kv)) (edges g))) as H.
  cbn [List.length] in H. rewrite List.length_map in *. nia.
Qed.

Lemma findPath_walk g from to p :
  findPath g from to = Found p -> exists rest, p = from :: rest /\ walk g from rest to.
Proof.
  unfold findPath. destruct (String.eqb_spec from to) as [->|Hne].
  - intros [= <-]. now exists [].
  - destruct (negb _ || negb _)%bool; [discriminate|]. intros H.
    apply (search_sound g from) in H; [exact H|].
    constructor; [|constructor]. now exists [].
Qed.

(** X7: on every graph the loop of [findPath] ends within [searchBound]
    turns, more turns changing nothing, and a path returned starts at
    [from] and walks to [to] along edges each listed among the outgoing
    edges of the node it leaves. *)
Theorem findPath_ends_with_a_walk (g : ServiceGraph) (from to : string) :
  findPath g from to <> OutOfFuel
  /\ (forall k, search g to (searchBound g + k) [(from, [from])] []
                = search g to (searchBound g) [(from, [from])] [])
  /\ (forall p, findPath g from to = Found p ->
                exists rest, p = from :: rest /\ walk g from rest to).
Proof.
  assert (Forall (fun it : QueueItem => In (fst it) (reachableNames g from)) [(from, [from])])
    as Hq by (repeat constructor).
  pose proof (search_total g from to _ _ [] Hq (searchBound_enough g from)) as Htot.
  split; [|split].
  - unfold findPath. destruct (String.eqb from to); [discriminate|].
    destruct (negb _ || negb _)%bool; [discriminate | exact Htot].
  - intros k. now apply search_more.
  - intros p. apply findPath_walk.
Qed.

(** X8: [findPath] returns a path exactly when the two ids are equal, or
    both are services of the graph and a walk along listed edges leads
    from the first to the second. *)
Theorem findPath_finds_every_walk (g : ServiceGraph) (from to : string) :
  (exists p, findPath g from to = Found p)
  <-> from = to
      \/ (getService from g <> None /\ getService to g <> None
          /\ exists rest, walk g from rest to).
Proof.
  assert (Forall (fun it : QueueItem => In (fst it) (reachableNames g from)) [(from, [from])])
    as Hq by (repeat constructor).
  pose proof (search_total g from to _ _ [] Hq (searchBound_enough g from)) as Htot.
  unfold findPath, getService, mhas.
  destruct (String.eqb_spec from to) as [->|Hne]; [split; eauto|].
  destruct (mget from (nodes g)) as [nf|]; cbn [negb orb].
  2:{ split; [intros [? [=]] | intros [?|(H & _)]; congruence]. }
  destruct (mget to (nodes g)) as [nt|]; cbn [negb orb].
  2:{ split; [intros [? [=]] | intros [?|(_ & H & _)]; congruence]. }
  split.
  - intros [p H]. right. split; [discriminate|]. split; [discriminate|].
    apply (search_sound g from) in H as (rest & Hp & Hw).
    + now exists rest.
    + constructor; [|constructor]. now exists [].
  - intros [?|(_ & _ & rest & Hw)]; [contradiction|].
    destruct (search g to (searchBound g) [(from, [from])] []) as [p| |] eqn:E;
      [eauto | | contradiction].
    exfalso. apply search_unreachable in E as (closed & _ & Hfrom & Hclosed).
    + assert (In to closed) as Hto.
      { apply (closed_walk g closed (fun v Hv => proj2 (Hclosed v Hv)) rest from);
          [apply Hfrom; now left | exact Hw]. }
      now destruct (Hclosed to Hto).
    + intros v [].
    + now repeat constructor.
Qed.

End FindPathFacts.

(** ** Service graph: paths, neighbours and the JSON document *)

Section GraphUseFacts.
Import JsString JsMap Graph GraphOps GraphInvariants GraphExamples.

Lemma step_dependency g a b :
  keyed g -> indexed g -> sourced g ->
  step g a b -> exists e, getDependency a b g = Some e.
Proof.
  intros Hk Hi Hs (eid & e & Hin & He & <-).
  destruct (listed_out g a eid e Hk Hi Hs Hin He) as [_ ->].
  now exists e.
Qed.

Lemma walk_pathEdges g :
  keyed g -> indexed g -> sourced g ->
  forall rest a z, walk g a rest z ->
    exists crits, pathEdges g false (a :: rest) = Some crits
                  /\ List.length crits = List.length rest
                  /\ last (a :: rest) = Some z.
Proof.
  intros Hk Hi Hs. induction rest as [|b rest IH]; intros a z.
  - cbn. intros <-. now exists [].
  - intros [Hstep Hw]. destruct (step_dependency g a b Hk Hi Hs Hstep) as [e He].
    destruct (IH b z Hw) as (crits & Hc & Hlen & Hlast).
    exists (criticality e :: crits). split; [|split].
    + change (pathEdges g false (a :: b :: rest))
        with (match getDependency a b g, pathEdges g false (b :: rest) with
              | Some e, Some cs => Some (criticality e :: cs)
              | _, _ => None
              end).
      now rewrite He, Hc.
    + cbn. now rewrite Hlen.
    + exact Hlast.
Qed.

(** X9: in a graph built without an arrow inside the source id of any
    edge added, a path returned by [findPath] starts at [from], ends at
    [to], and every two consecutive services of it are joined by a
    dependency [getDependency] finds. *)
Theorem findPath_follows_dependencies (cs : list GraphCall) (from to : string)
    (p : list string) :
  Forall arrowFreeCall cs ->
  findPath (built cs) from to = Found p ->
  exists crits, pathEdges (built cs) false p = Some crits
                /\ List.length p = S (List.length crits)
                /\ hd_error p = Some from /\ last p = Some to.
Proof.
  intros Hcs H.
  destruct (findPath_walk (built cs) from to p H) as (rest & -> & Hw).
  destruct (walk_pathEdges (built cs) (built_keyed cs) (built_indexed cs)
              (built_sourced cs Hcs) rest from to Hw) as (crits & Hc & Hlen & Hlast).
  exists crits. cbn [List.length hd_error]. now rewrite Hlen.
Qed.

(** The lists [getDependencies] and [getDependents] return. *)
Lemma dependencies_In g a na nb b :
  keyed g -> indexed g -> sourced g -> arrowFree a = true ->
  getService a g = Some na -> getService b g = Some nb ->
  (In nb (getDependencies g a) <-> getDependency a b g <> None)
  /\ (In na (getDependents g b) <-> getDependency a b g <> None).
Proof.
  intros Hk Hi Hs Ha Hna Hnb. pose proof Hk as (_ & Hid & _ & Hkey).
  unfold getDependencies, getDependents, getService, getDependency in *.
  rewrite !neighbours_In.
  assert (forall e, mget (edgeId a b) (edges g) = Some e -> source e = a /\ target e = b)
    as Hends.
  { intros e He. destruct (Hkey _ e He) as [_ Heq].
    destruct (Hi _ e He) as [Hout _]. destruct Hs as [Hsrc _].
    destruct (Hsrc _ _ Hout) as [Hse _].
    now destruct (edgeId_inj _ _ _ _ Ha Hse Heq) as [-> ->]. }
  split; split.
  - intros (eid & e & Hin & He & Hn).
    destruct (listed_out g a eid e Hk Hi Hs Hin He) as [_ ->].
    rewrite <- (Hid _ _ Hn), (Hid _ _ Hnb) in He. now rewrite He.
  - destruct (mget (edgeId a b) (edges g)) as [e|] eqn:He; [intros _ | now intros []].
    destruct (Hends e eq_refl) as [Hse Hte]. destruct (Hi _ e He) as [Hout _].
    exists (edgeId a b), e. rewrite Hse in Hout. rewrite Hte. now repeat split.
  - intros (eid & e & Hin & He & Hn).
    destruct (listed_in g b eid e Hk Hi Hs Hin He) as [_ ->].
    rewrite <- (Hid _ _ Hn), (Hid _ _ Hna) in He. now rewrite He.
  - destruct (mget (edgeId a b) (edges g)) as [e|] eqn:He; [intros _ | now intros []].
    destruct (Hends e eq_refl) as [Hse Hte]. destruct (Hi _ e He) as [_ Hinc].
    exists (edgeId a b), e. rewrite Hte in Hinc. rewrite Hse. now repeat split.
Qed.

(** X10: in a graph built without an arrow inside the source id of any
    edge added, for two services [a] and [b], [a] holding no arrow: [b] is
    among the dependencies of [a] exactly when [a] is among the dependents
    of [b], exactly when [getDependency a b] finds an edge. *)
Theorem dependencies_mirror_dependents (cs : list GraphCall) (a b : string)
    (na nb : ServiceNode) :
  Forall arrowFreeCall cs -> arrowFree a = true ->
  getService a (built cs) = Some na -> getService b (built cs) = Some nb ->
  (In nb (getDependencies (built cs) a) <-> getDependency a b (built cs) <> None)
  /\ (In na (getDependents (built cs) b) <-> getDependency a b (built cs) <> None).
Proof.
  intros Hcs. apply dependencies_In;
    [apply built_keyed | apply built_indexed | now apply built_sourced].
Qed.

Lemma full_edge_eq e :
  edge_id e = edgeId (source e) (target e) ->
  {| edge_id := edgeId (source e) (target e); source := source e; target := target e;
     edge_type := edge_type e; protocol := protocol e; criticality := criticality e;
     description := description e; edge_metadata := edge_metadata e |} = e.
Proof. destruct e; cbn. now intros ->. Qed.

(** X11: looking up after adding. With no arrow inside the two source
    ids, [getDependency] after [addDependency] finds the edge added, under
    its arrow id, at the end points added, and what it found before at any
    other end points. *)
Theorem addDependency_lookup (e : DependencyEdge) (g : ServiceGraph) (s t : string) :
  arrowFree (source e) = true -> arrowFree s = true ->
  getDependency s t (addDependency e g)
  = if (String.eqb s (source e) && String.eqb t (target e))%bool
    then Some {| edge_id := edgeId (source e) (target e); source := source e;
                 target := target e; edge_type := edge_type e; protocol := protocol e;
                 criticality := criticality e; description := description e;
                 edge_metadata := edge_metadata e |}
    else getDependency s t g.
Proof.
  intros He Hs. unfold getDependency. cbn [addDependency edges].
  destruct (String.eqb_spec s (source e)) as [->|Hne]; cbn [andb].
  - destruct (String.eqb_spec t (target e)) as [->|Hne].
    + apply mget_mset_eq.
    + apply mget_mset_ne. intros Heq. apply edgeId_inj in Heq as [_ Ht]; congruence.
  - apply mget_mset_ne. intros Heq. apply edgeId_inj in Heq as [Ht _]; congruence.
Qed.

Lemma mset_absent {V : Type} (k : string) (v : V) (m : list (string * V)) :
  mget k m = None -> mset k v m = (m ++ [(k, v)])%list.
Proof.
  induction m as [|[k' v'] m IH]; cbn; [reflexivity|].
  destruct (String.eqb k k'); [discriminate|]. intros H. now rewrite IH.
Qed.

Lemma mget_app_None {V : Type} (k : string) (m m' : list (string * V)) :
  mget k m = None -> mget k (m ++ m') = mget k m'.
Proof.
  induction m as [|[k' v'] m IH]; cbn; [reflexivity|].
  destruct (String.eqb k k'); [discriminate | exact IH].
Qed.

Lemma mvalues_keyed {V : Type} (key : V -> string) (l : list V) :
  mvalues (List.map (fun v => (key v, v)) l) = l.
Proof. unfold mvalues. rewrite List.map_map. cbn. apply List.map_id. Qed.

Lemma mkeys_app {V : Type} (m m' : list (string * V)) :
  mkeys (m ++ m') = (mkeys m ++ mkeys m')%list.
Proof. apply List.map_app. Qed.

(** Adding, to a graph, services of new and pairwise distinct ids. *)
Lemma addServices_fresh (clock : nat -> Z) :
  forall ns g k,
    List.NoDup (mkeys (nodes g) ++ List.map id ns) ->
    let r := fold_left (fun (acc : ServiceGraph * nat) node =>
                          (addService node (clock (snd acc)) (fst acc), S (snd acc)))
               ns (g, k) in
    nodes (fst r)
    = (nodes g ++ List.map (fun n => (id n, n)) (restampedFrom clock k ns))%list
    /\ edges (fst r) = edges g.
Proof.
  induction ns as [|n ns IH]; intros g k Hnd; cbn [fold_left restampedFrom List.map fst snd].
  - now rewrite List.app_nil_r.
  - cbn [List.map] in Hnd.
    assert (mget (id n) (nodes g) = None) as Hfresh.
    { apply mget_None. intros Hin. apply List.NoDup_remove_2 in Hnd. apply Hnd.
      apply in_app_iff. now left. }
    specialize (IH (addService n (clock k) g) (S k)).
    cbn [addService nodes edges] in IH. rewrite (mset_absent _ _ _ Hfresh) in IH.
    destruct IH as [IH1 IH2].
    + rewrite mkeys_app. cbn. rewrite <- List.app_assoc. cbn.
      replace (mkeys (nodes g) ++ id n :: List.map id ns)%list
        with (mkeys (nodes g) ++ [id n] ++ List.map id ns)%list in Hnd by reflexivity.
      exact Hnd.
    + cbv zeta. split; [|exact IH2]. rewrite IH1, <- List.app_assoc. reflexivity.
Qed.

(** Adding, to a graph, edges that carry their arrow ids, new and pairwise
    distinct. *)
Lemma addDependencies_fresh :
  forall es g,
    Forall (fun e => edge_id e = edgeId (source e) (target e)) es ->
    List.NoDup (mkeys (edges g) ++ List.map edge_id es) ->
    let r := fold_left (fun g edge => addDependency edge g) es g in
    edges r = (edges g ++ List.map (fun e => (edge_id e, e)) es)%list
    /\ nodes r = nodes g.
Proof.
  induction es as [|e es IH]; intros g Hids Hnd; cbn [fold_left List.map].
  - now rewrite List.app_nil_r.
  - apply Forall_cons in Hids as [He Hids]. cbn [List.map] in Hnd.
    assert (mget (edge_id e) (edges g) = None) as Hfresh.
    { apply mget_None. intros Hin. apply List.NoDup_remove_2 in Hnd. apply Hnd.
      apply in_app_iff. now left. }
    specialize (IH (addDependency e g) Hids).
    cbn [addDependency nodes edges] in IH. rewrite (full_edge_eq e He), <- He in IH.
    rewrite (mset_absent _ _ _ Hfresh) in IH.
    destruct IH as [IH1 IH2].
    + rewrite mkeys_app. cbn. rewrite <- List.app_assoc. exact Hnd.
    + cbv zeta. split; [|exact IH2]. rewrite IH1, <- List.app_assoc. reflexivity.
Qed.

Lemma keyed_entries {V : Type} (key : V -> string) (m : list (string * V)) :
  List.NoDup (mkeys m) -> (forall k v, mget k m = Some v -> key v = k) ->
  List.map (fun v => (key v, v)) (mvalues m) = m.
Proof.
  intros Hnd Hkey. unfold mvalues. rewrite List.map_map.
  rewrite <- (List.map_id m) at 2. apply List.map_ext_in.
  intros [k v] Hin. cbn. now rewrite (Hkey k v (In_mget k v m Hnd Hin)).
Qed.

Lemma restampedFrom_ids clock : forall ns k,
  List.map id (restampedFrom clock k ns) = List.map id ns.
Proof. induction ns as [|n ns IH]; intros k; cbn; [reflexivity | now rewrite IH]. Qed.

(** X12: writing a built graph to JSON and reading it back gives a graph
    with the same edge map, and the same services in the same order, each
    with every member as it was except the two timestamps, which are the
    successive readings of the clock. *)
Theorem json_round_trip (cs : list GraphCall) (clock : nat -> Z) :
  edges (fromJSON (toJSON (built cs)) clock) = edges (built cs)
  /\ getAllServices (fromJSON (toJSON (built cs)) clock)
     = restampedFrom clock 0 (getAllServices (built cs))
  /\ List.map fst (nodes (fromJSON (toJSON (built cs)) clock))
     = List.map fst (nodes (built cs)).
Proof.
  destruct (built_keyed cs) as (Hn & Hid & He & Hk).
  set (g := built cs) in *.
  unfold fromJSON, toJSON, getAllServices. cbn [doc_nodes doc_edges].
  destruct (addServices_fresh clock (mvalues (nodes g)) empty 0%nat) as [Hnodes Hedges].
  { cbn. rewrite (values_keys id); trivial. }
  cbn [nodes edges empty app] in Hnodes, Hedges.
  set (g1 := fst (fold_left _ (mvalues (nodes g)) (empty, 0%nat))) in *.
  destruct (addDependencies_fresh (mvalues (edges g)) g1) as [Hedges' Hnodes'].
  { apply values_Forall; [exact He|]. intros k e H. destruct (Hk k e H) as [-> H2]. exact H2. }
  { rewrite Hedges. cbn. rewrite (values_keys edge_id); trivial.
    intros k e H. now apply Hk. }
  cbv zeta in Hedges', Hnodes'. rewrite Hedges', Hnodes', Hedges, Hnodes. cbn [app].
  split; [|split].
  - apply keyed_entries; [exact He|]. intros k e H. now apply Hk.
  - apply mvalues_keyed.
  - rewrite List.map_map. cbn. rewrite restampedFrom_ids. now apply values_keys.
Qed.

End GraphUseFacts.

Section GraphWitnesses.
Import JsString JsMap Graph GraphOps GraphInvariants Examples GraphExamples.

Lemma chainCalls_arrowFree : Forall arrowFreeCall chainCalls.
Proof. repeat constructor. Qed.

Lemma removeService_detaches_witness :
  getService "api" (fst (removeService "api" (built chainCalls))) = None
  /\ Forall (fun e => source e <> "api" /\ target e <> "api"
                      /\ In e (getAllEdges (built chainCalls)))
       (getAllEdges (fst (removeService "api" (built chainCalls)))).
Proof.
  destruct (removeService_detaches chainCalls "api" _ eq_refl) as (_ & H1 & _ & H2 & _).
  exact (conj H1 H2).
Defined.

Lemma removeService_exact_witness :
  getAllEdges (fst (removeService "api" (built chainCalls)))
  = List.filter (fun e => negb (String.eqb (source e) "api")
                          && negb (String.eqb (target e) "api"))%bool
      (getAllEdges (built chainCalls)).
Proof.
  apply (removeService_exact chainCalls "api" _ chainCalls_arrowFree eq_refl).
Defined.

Lemma findPath_follows_dependencies_witness :
  exists crits, pathEdges (built chainCalls) false ["web"; "api"; "db"] = Some crits
                /\ List.length ["web"; "api"; "db"] = S (List.length crits)
                /\ hd_error ["web"; "api"; "db"] = Some "web"
                /\ last ["web"; "api"; "db"] = Some "db".
Proof.
  apply (findPath_follows_dependencies chainCalls "web" "db" _ chainCalls_arrowFree).
  vm_compute. reflexivity.
Defined.

Lemma dependencies_mirror_dependents_witness :
  (In (svc_at "api" "API" service 1001) (getDependencies (built chainCalls) "web")
   <-> getDependency "web" "api" (built chainCalls) <> None)
  /\ (In (svc_at "web" "Web" service 1000) (getDependents (built chainCalls) "api")
      <-> getDependency "web" "api" (built chainCalls) <> None).
Proof.
  apply (dependencies_mirror_dependents chainCalls "web" "api" _ _ chainCalls_arrowFree);
    reflexivity.
Defined.

Lemma addDependency_lookup_witness :
  getDependency "api" "cache" (addDependency (dep "api" "db" edge_database critical) cacheGraph)
  = getDependency "api" "cache" cacheGraph.
Proof.
  apply (addDependency_lookup (dep "api" "db" edge_database critical) cacheGraph
           "api" "cache"); reflexivity.
Defined.

End GraphWitnesses.


(** ** Approval protocol: classification and cooldown *)

Section ApprovalMoreFacts.
Import JsString Approval.

Lemma lower_ascii_idem c : lower_ascii (lower_ascii c) = lower_ascii c.
Proof. destruct c as [[] [] [] [] [] [] [] []]; vm_compute; reflexivity. Qed.

Lemma toLowerCase_idem s : toLowerCase (toLowerCase s) = toLowerCase s.
Proof.
  induction s as [|c s IH]; [reflexivity|].
  cbn [toLowerCase]. now rewrite lower_ascii_idem, IH.
Qed.

(** X13: [classifyRisk] ignores letter case, and the resource only ever
    raises a medium operation to high: with any resource the level is the
    level of the operation alone, or it is high where the operation alone
    is medium. *)
Theorem classifyRisk_resource_only_raises (operation resource : string) :
  classifyRisk (toLowerCase operation) (toLowerCase resource)
  = classifyRisk operation resource
  /\ (classifyRisk operation resource = classifyRisk operation ""
      \/ (classifyRisk operation resource = high
          /\ classifyRisk operation "" = medium)).
Proof.
  split.
  - unfold classifyRisk. now rewrite !toLowerCase_idem.
  - unfold classifyRisk. cbn [toLowerCase].
    change (includes "" "production") with false.
    change (includes "" "prod") with false.
    change (includes "" "down") with false.
    cbn [orb andb].
    generalize (includes (toLowerCase resource) "production")
               (includes (toLowerCase resource) "prod")
               (includes (toLowerCase resource) "down").
    intros p1 p2 dn.
    generalize (includes (toLowerCase operation) "delete")
               (includes (toLowerCase operation) "terminate")
               (includes (toLowerCase operation) "destroy")
               (includes (toLowerCase operation) "truncate")
               (includes (toLowerCase operation) "drop").
    intros k1 k2 k3 k4 k5.
    destruct k1, k2, k3, k4, k5; cbn [orb andb]; try (now left).
    generalize (includes (toLowerCase operation) "restart")
               (includes (toLowerCase operation) "reboot")
               (includes (toLowerCase operation) "stop")
               (includes (toLowerCase operation) "deploy")
               (includes (toLowerCase operation) "update-service").
    intros h1 h2 h3 h4 h5.
    generalize (includes (toLowerCase operation) "update")
               (includes (toLowerCase operation) "modify")
               (includes (toLowerCase operation) "change")
               (includes (toLowerCase operation) "scale").
    intros m1 m2 m3 m4.
    destruct h1, h2, h3, h4, h5; cbn [orb andb];
      destruct m1, m2, m3, m4, p1, p2, dn; cbn [orb andb]; auto.
Qed.

(** X14: the cooldown a check reports is exact. [remainingMs] is never
    negative and is 0 exactly when the operation is allowed; and after any
    further wait [d], the operation is allowed exactly when [d] is at least
    the [remainingMs] reported. *)
Theorem checkCooldown_remaining_exact (operation : string) (cooldownMs : option Z)
    (now d : Z) (log : MutationLog) :
  0 <= d ->
  0 <= remainingMs (checkCooldown operation cooldownMs now log)
  /\ (allowed (checkCooldown operation cooldownMs now log) = true
      <-> remainingMs (checkCooldown operation cooldownMs now log) = 0)
  /\ (allowed (checkCooldown operation cooldownMs (now + d) log) = true
      <-> remainingMs (checkCooldown operation cooldownMs now log) <= d).
Proof.
  intros Hd. unfold checkCooldown.
  destruct (log !! "critical") as [lastMutation|]; cbn; [|intuition lia].
  destruct (Z.geb_spec (now - lastMutation) (default 60000 cooldownMs));
    destruct (Z.geb_spec (now + d - lastMutation) (default 60000 cooldownMs));
    cbn; intuition (try discriminate; try lia).
Qed.

Lemma checkCooldown_remaining_exact_witness :
  0 <= remainingMs (checkCooldown "delete" None 1030000 (logAfter [1000000]))
  /\ (allowed (checkCooldown "delete" None 1030000 (logAfter [1000000])) = true
      <-> remainingMs (checkCooldown "delete" None 1030000 (logAfter [1000000])) = 0)
  /\ (allowed (checkCooldown "delete" None (1030000 + 30000) (logAfter [1000000])) = true
      <-> remainingMs (checkCooldown "delete" None 1030000 (logAfter [1000000])) <= 30000).
Proof. apply (checkCooldown_remaining_exact "delete" None 1030000 30000). lia. Defined.

End ApprovalMoreFacts.

(** ** Webhook receiver: what a request can and cannot do *)

Section WebhookMoreFacts.
Import JsString Webhook Examples.

Variable hmacSha256Hex : string -> string -> string.
Variable decodePayload : string -> option SlackInteractionPayload.

Lemma response_is_not_pending (dir i : string) :
  join dir (i +:+ ".json") <> join dir (i +:+ "_pending.json").
Proof.
  unfold join. intros H. do 3 apply append_inj_r in H. discriminate H.
Qed.

Lemma honoured_leaves_no_pending payload action pendingDir iso (fs : FileSystem) :
  ok (snd (handleApprovalAction payload action pendingDir iso fs)) = true ->
  fst (handleApprovalAction payload action pendingDir iso fs)
    !! join pendingDir (value action +:+ "_pending.json") = None.
Proof.
  unfold handleApprovalAction.
  destruct (negb _ && negb _)%bool; [discriminate|].
  destruct (fs !! join pendingDir (value action +:+ "_pending.json")); [|discriminate].
  intros _. apply lookup_delete_eq.
Qed.

Lemma no_pending_no_change payload action pendingDir iso (fs : FileSystem) :
  fs !! join pendingDir (value action +:+ "_pending.json") = None ->
  fst (handleApprovalAction payload action pendingDir iso fs) = fs
  /\ ok (snd (handleApprovalAction payload action pendingDir iso fs)) = false.
Proof.
  intros H. unfold handleApprovalAction.
  destruct (negb _ && negb _)%bool; [now split|]. now rewrite H.
Qed.

(** X15: a decision is written once. After a click was honoured for a
    mutation, a second click for the same mutation, whoever sends it and
    whichever button it is, is refused and changes no file: the decision
    written first stays. *)
Theorem decision_is_written_once (payload1 payload2 : SlackInteractionPayload)
    (action1 action2 : SlackAction) (pendingDir iso1 iso2 : string) (fs : FileSystem) :
  value action2 = value action1 ->
  ok (snd (handleApprovalAction payload1 action1 pendingDir iso1 fs)) = true ->
  fst (handleApprovalAction payload2 action2 pendingDir iso2
         (fst (handleApprovalAction payload1 action1 pendingDir iso1 fs)))
  = fst (handleApprovalAction payload1 action1 pendingDir iso1 fs)
  /\ ok (snd (handleApprovalAction payload2 action2 pendingDir iso2
                (fst (handleApprovalAction payload1 action1 pendingDir iso1 fs))))
     = false.
Proof.
  intros Hval Hok. apply no_pending_no_change. rewrite Hval.
  now apply honoured_leaves_no_pending.
Qed.

(** X16: a timestamp header that does not read as an integer switches the
    freshness test off. Such a request is accepted, at any time, exactly
    when the header is not empty and the signature is the expected one. *)
Theorem unreadable_timestamp_skips_freshness (signingSecret sig ts body : string)
    (now : Z) :
  parseInt10 ts = None ->
  verifySlackSignature hmacSha256Hex signingSecret (Some sig) (Some ts) body now = true
  <-> ts <> ""
      /\ sig = "v0=" +:+ hmacSha256Hex signingSecret ("v0:" +:+ ts +:+ ":" +:+ body).
Proof.
  intros Hts. unfold verifySlackSignature. rewrite Hts.
  destruct (String.eqb_spec ts "") as [->|Hne].
  { rewrite orb_true_r. split; [discriminate | now intros [? _]]. }
  rewrite orb_false_r.
  destruct (String.eqb_spec sig "") as [->|_].
  { split; [discriminate | intros [_ H]; discriminate H]. }
  rewrite timingSafeEqual_eq. split; [intros <-; now split | now intros [_ ->]].
Qed.

(** X17: whatever the request, the receiver answers 200, 401, 404 or 500,
    and it changes a file only when it answers 200 to a POST to
    /slack/interactions whose signature it accepted and whose first action
    is an approval button; the change is then the one
    [handleApprovalAction] makes. *)
Theorem files_change_only_for_signed_clicks (signingSecret pendingDir : string)
    (req : Request) (now : Z) (iso : string) (fs : FileSystem) :
  let answer :=
    handleRequest hmacSha256Hex decodePayload signingSecret pendingDir req now iso fs in
  In (status (snd answer)) [200; 401; 404; 500]%nat
  /\ (fst answer = fs
      \/ (url req = "/slack/interactions" /\ method req = "POST"
          /\ verifySlackSignature hmacSha256Hex signingSecret (signatureHeader req)
               (timestampHeader req) (body req) now = true
          /\ status (snd answer) = 200%nat
          /\ exists payload action rest,
               decodePayload (body req) = Some payload
               /\ actions payload = Some (action :: rest)
               /\ fst answer
                  = fst (handleApprovalAction payload action pendingDir iso fs))).
Proof.
  cbv zeta. unfold handleRequest.
  destruct (String.eqb (url req) "/health" && String.eqb (method req) "GET")%bool;
    [cbn; auto|].
  destruct (String.eqb_spec (url req) "/slack/interactions") as [Hurl|_];
    [|cbn; auto 6].
  destruct (String.eqb_spec (method req) "POST") as [Hmethod|_]; [|cbn; auto 6].
  cbn [negb orb].
  destruct (verifySlackSignature _ _ _ _ _ _) eqn:Hsig; [|cbn; auto 6].
  cbn [negb].
  destruct (decodePayload (body req)) as [payload|] eqn:Hdec; [|cbn; auto 6].
  destruct (String.eqb (payload_type payload) "block_actions"); [|cbn; auto].
  destruct (actions payload) as [[|action rest]|] eqn:Hact; [cbn; auto| |cbn; auto].
  destruct (startsWith (action_id action) "approve_"
            || startsWith (action_id action) "reject_")%bool; [|cbn; auto].
  destruct (handleApprovalAction payload action pendingDir iso fs) as [fs' result] eqn:E.
  cbn [fst snd status]. split; [cbn; auto|]. right.
  repeat split; trivial. exists payload, action, rest. now rewrite E.
Qed.

End WebhookMoreFacts.

Lemma decision_is_written_once_witness :
  fst (Webhook.handleApprovalAction Examples.approvePayload ApprovalExamples.rejectClick "/pending"
         "2023-11-14T22:16:00.000Z"
         (fst (Webhook.handleApprovalAction Examples.approvePayload Examples.approveClick
                 "/pending" "2023-11-14T22:15:00.000Z" Examples.pendingMut1)))
  = fst (Webhook.handleApprovalAction Examples.approvePayload Examples.approveClick
           "/pending" "2023-11-14T22:15:00.000Z" Examples.pendingMut1)
  /\ Webhook.ok
       (snd (Webhook.handleApprovalAction Examples.approvePayload ApprovalExamples.rejectClick
               "/pending" "2023-11-14T22:16:00.000Z"
               (fst (Webhook.handleApprovalAction Examples.approvePayload
                       Examples.approveClick "/pending" "2023-11-14T22:15:00.000Z"
                       Examples.pendingMut1)))) = false.
Proof.
  apply (decision_is_written_once Examples.approvePayload Examples.approvePayload
           Examples.approveClick ApprovalExamples.rejectClick); [reflexivity|].
  vm_compute. reflexivity.
Defined.

Lemma unreadable_timestamp_skips_freshness_witness :
  Webhook.verifySlackSignature Examples.exampleMac "s"
    (Some ("v0=" +:+ Examples.exampleMac "s" "v0:soon:payload=click")) (Some "soon")
    "payload=click" 1700000100000 = true.
Proof.
  apply (unreadable_timestamp_skips_freshness Examples.exampleMac "s" _ "soon"
           "payload=click" 1700000100000 eq_refl).
  split; [discriminate | reflexivity].
Defined.

(** ** Approval flow: who can approve, and the audit trail *)

Section ApprovalFlowFacts.
Import JsString Approval Webhook ApprovalFlow.

(** X18: every path through [requestApprovalWithOptions] appends exactly
    one line to the audit file, for the mutation asked about, stamped with
    the instant read for the log and carrying the verdict returned. *)
Theorem every_decision_is_logged_once (request : MutationRequest)
    (options : ApprovalOptions) (w : World) (now : Clock)
    (audit : list ApprovalAuditEntry) :
  exists e,
    snd (requestApprovalWithOptions request options w now audit) = (audit ++ [e])%list
    /\ audit_approved e
       = res_approved (fst (requestApprovalWithOptions request options w now audit))
    /\ audit_mutationId e = req_id request
    /\ audit_operation e = req_operation request
    /\ audit_resource e = req_resource request
    /\ audit_riskLevel e = req_riskLevel request
    /\ audit_timestamp e = logged now.
Proof.
  unfold requestApprovalWithOptions, requestSlackApproval, requestApproval, logApproval.
  destruct (match autoApprove options with Some _ => _ | None => _ end);
    [|destruct (useSlack options && slackConfigured w)%bool;
      [destruct (String.eqb _ ""); [|destruct (sendSucceeds w)]|]];
    cbn [fst snd]; eexists; (split; [reflexivity|]); cbn; auto 7.
Qed.

(** A no-break space after the answer typed is trimmed away. *)
Lemma trim_no_break_space :
  trim (toLowerCase ("Yes" +:+ String (ascii_of_nat 160) "")) = "yes".
Proof. reflexivity. Qed.

Lemma riskEqb_eq a b : riskEqb a b = true <-> a = b.
Proof. destruct a, b; cbn; split; congruence. Qed.

(** X19: the ways an approval is granted. [requestApprovalWithOptions]
    approves exactly when the risk level is among the levels to approve
    automatically (the test [canAutoApprove] makes); or else, Slack being
    asked for, configured, with a channel and reachable, when the result of
    the race approves; or else when the line typed, lower-cased and
    trimmed, is yes, or y for a mutation that is not critical. *)
Theorem approval_is_granted_by (request : MutationRequest) (options : ApprovalOptions)
    (w : World) (now : Clock) (audit : list ApprovalAuditEntry) :
  let viaSlack :=
    (useSlack options && slackConfigured w
     && negb (String.eqb (orElse (slackChannel options) (default "" (defaultChannel w))) "")
     && sendSucceeds w)%bool in
  let answer := trim (toLowerCase (typed w)) in
  res_approved (fst (requestApprovalWithOptions request options w now audit)) = true
  <-> canAutoApprove (req_riskLevel request) (autoApprove options) = true
      \/ (canAutoApprove (req_riskLevel request) (autoApprove options) = false
          /\ viaSlack = true /\ res_approved (raced w) = true)
      \/ (canAutoApprove (req_riskLevel request) (autoApprove options) = false
          /\ viaSlack = false
          /\ (answer = "yes" \/ (req_riskLevel request <> critical /\ answer = "y"))).
Proof.
  cbv zeta.
  assert (match autoApprove options with
          | Some levels => existsb (riskEqb (req_riskLevel request)) levels
          | None => false
          end = canAutoApprove (req_riskLevel request) (autoApprove options)) as Hauto
    by (unfold canAutoApprove; now destruct (autoApprove options)).
  unfold requestApprovalWithOptions. rewrite Hauto.
  destruct (canAutoApprove _ _); [cbn; intuition|].
  assert (forall r : ApprovalResult * list ApprovalAuditEntry,
            r = requestApproval request (typed w) (envUser w) now audit ->
            res_approved (fst r) = true
            <-> trim (toLowerCase (typed w)) = "yes"
                \/ (req_riskLevel request <> critical
                    /\ trim (toLowerCase (typed w)) = "y")) as Hcli.
  { intros r ->. unfold requestApproval. cbn [fst res_approved].
    destruct (req_riskLevel request); cbn [isCriticalRisk];
      rewrite ?orb_true_iff, !String.eqb_eq; intuition congruence. }
  unfold requestSlackApproval.
  destruct (useSlack options), (slackConfigured w); cbn [andb];
    try (rewrite (Hcli _ eq_refl); intuition congruence).
  destruct (String.eqb _ ""); cbn [negb andb];
    try (rewrite (Hcli _ eq_refl); intuition congruence).
  destruct (sendSucceeds w); cbn [fst];
    try (rewrite (Hcli _ eq_refl); intuition congruence).
  intuition congruence.
Qed.

Lemma lower_space c : isSpace c = true -> lower_ascii c = c.
Proof. destruct c as [[] [] [] [] [] [] [] []]; vm_compute; congruence. Qed.

Lemma toLowerCase_app s t : toLowerCase (s +:+ t) = toLowerCase s +:+ toLowerCase t.
Proof.
  induction s as [|c s IH]; [reflexivity|].
  rewrite append_cons. cbn [toLowerCase]. now rewrite append_cons, IH.
Qed.

Lemma list_ascii_app s t :
  list_ascii_of_string (s +:+ t) = (list_ascii_of_string s ++ list_ascii_of_string t)%list.
Proof.
  induction s as [|c s IH]; [reflexivity|].
  rewrite append_cons. cbn [list_ascii_of_string app]. now rewrite IH.
Qed.

(** A string of white space only. *)
Lemma trimStart_blank ws l :
  forallb isSpace ws = true -> trimStartChars (ws ++ l) = trimStartChars l.
Proof.
  induction ws as [|c ws IH]; [reflexivity|]. cbn.
  destruct (isSpace c); [exact IH | discriminate].
Qed.

Lemma trimStart_keeps_tail l ws :
  forallb isSpace ws = true ->
  trimStartChars (l ++ ws) = (if forallb isSpace l then [] else trimStartChars l ++ ws)%list.
Proof.
  intros Hws. induction l as [|c l IH]; cbn.
  - rewrite <- (List.app_nil_r ws). rewrite trimStart_blank by exact Hws. reflexivity.
  - destruct (isSpace c); [exact IH | reflexivity].
Qed.

Lemma trimStart_all_blank l : forallb isSpace l = true -> trimStartChars l = [].
Proof.
  induction l as [|c l IH]; [reflexivity|]. cbn.
  destruct (isSpace c); [exact IH | discriminate].
Qed.

Lemma forallb_rev {A : Type} (p : A -> bool) (l : list A) :
  forallb p (List.rev l) = forallb p l.
Proof.
  induction l as [|a l IH]; [reflexivity|]. cbn.
  rewrite forallb_app, IH. cbn. now rewrite andb_true_r, andb_comm.
Qed.

Lemma trimChars_padded pre l post :
  forallb isSpace pre = true -> forallb isSpace post = true ->
  List.rev (trimStartChars (List.rev (trimStartChars (pre ++ l ++ post))))
  = List.rev (trimStartChars (List.rev (trimStartChars l))).
Proof.
  intros Hpre Hpost. rewrite trimStart_blank by exact Hpre.
  rewrite trimStart_keeps_tail by exact Hpost.
  destruct (forallb isSpace l) eqn:E.
  - now rewrite (trimStart_all_blank l E).
  - rewrite List.rev_app_distr, trimStart_blank; [reflexivity|].
    now rewrite forallb_rev.
Qed.

Lemma forallb_lower ws :
  forallb isSpace (list_ascii_of_string ws) = true ->
  toLowerCase ws = ws.
Proof.
  induction ws as [|c ws IH]; [reflexivity|]. cbn.
  intros [Hc Hws]%andb_true_iff. now rewrite (lower_space c Hc), IH.
Qed.

Lemma trim_padded pre s post :
  forallb isSpace (list_ascii_of_string pre) = true ->
  forallb isSpace (list_ascii_of_string post) = true ->
  trim (toLowerCase (pre +:+ s +:+ post)) = trim (toLowerCase s).
Proof.
  intros Hpre Hpost. unfold trim.
  rewrite !toLowerCase_app, (forallb_lower pre Hpre), (forallb_lower post Hpost).
  rewrite !list_ascii_app. now rewrite trimChars_padded.
Qed.

(** X20: the two prompts. White space around the line typed and the case
    of its letters change no verdict. For a critical mutation the fallback
    prompt [requestApproval] and the prompt raced against Slack,
    [waitForCLIApproval], both approve exactly on yes; for any mutation,
    whatever the first approves the second approves too. *)
Theorem prompts_read_the_answer_alike (request : MutationRequest)
    (pre response post : string) (user : option string) (now : Clock)
    (audit : list ApprovalAuditEntry) :
  forallb isSpace (list_ascii_of_string pre) = true ->
  forallb isSpace (list_ascii_of_string post) = true ->
  res_approved (fst (requestApproval request (pre +:+ response +:+ post) user now audit))
  = res_approved (fst (requestApproval request (toLowerCase response) user now audit))
  /\ res_approved (waitForCLIApproval request (pre +:+ response +:+ post) (stamped now))
     = res_approved (waitForCLIApproval request (toLowerCase response) (stamped now))
  /\ (req_riskLevel request = critical ->
      res_approved (waitForCLIApproval request response (stamped now))
      = res_approved (fst (requestApproval request response user now audit)))
  /\ (res_approved (fst (requestApproval request response user now audit)) = true ->
      res_approved (waitForCLIApproval request response (stamped now)) = true).
Proof.
  intros Hpre Hpost. unfold requestApproval, waitForCLIApproval. cbn [fst res_approved].
  rewrite (trim_padded pre response post Hpre Hpost), toLowerCase_idem.
  split; [reflexivity|]. split; [reflexivity|]. split.
  - now intros ->.
  - destruct (isCriticalRisk _); [trivial|].
    intros [H|H]%orb_true_iff; apply String.eqb_eq in H; now rewrite H.
Qed.

Lemma prompts_read_the_answer_alike_witness :
  res_approved
    (fst (requestApproval ApprovalExamples.dropDatabase ("  " +:+ "YES" +:+ " ") None
            {| logged := 10; stamped := 11 |} [])) = true.
Proof.
  rewrite (proj1 (prompts_read_the_answer_alike ApprovalExamples.dropDatabase
                    "  " "YES" " " None {| logged := 10; stamped := 11 |} []
                    eq_refl eq_refl)).
  reflexivity.
Defined.

End ApprovalFlowFacts.

(** ** Approval flow: the wait for Slack and the receiver *)

Section SlackWaitFacts.
Import JsString Approval Webhook ApprovalFlow.

Variable stringifyPending : string -> string -> string.
Variable parseText : string -> Parsed.

Lemma includes_cons c s sub :
  includes (String c s) sub = false ->
  startsWith (String c s) sub = false /\ includes s sub = false.
Proof.
  cbn [includes]. destruct (startsWith (String c s) sub); [discriminate | auto].
Qed.

(** The suffix .json is the first .json of a path that holds no other. *)
Lemma replace_suffix (s : string) :
  includes s ".json" = false ->
  replaceFirst (s +:+ ".json") ".json" "_pending.json" = s +:+ "_pending.json".
Proof.
  induction s as [|c s IH]; [reflexivity|].
  intros [Hstart Hs]%includes_cons. rewrite !append_cons.
  change (replaceFirst (String c (s +:+ ".json")) ".json" "_pending.json")
    with (if startsWith (String c (s +:+ ".json")) ".json"
          then "_pending.json" +:+ dropChars 5 (String c (s +:+ ".json"))
          else String c (replaceFirst (s +:+ ".json") ".json" "_pending.json")).
  assert (startsWith (String c (s +:+ ".json")) ".json" = false) as ->.
  { clear IH Hs. revert Hstart.
    cbn [startsWith]. destruct (Ascii.eqb "." c); [|reflexivity].
    destruct s as [|c1 s]; [reflexivity|]. rewrite append_cons. cbn [startsWith].
    destruct (Ascii.eqb "j" c1); [|reflexivity].
    destruct s as [|c2 s]; [reflexivity|]. rewrite append_cons. cbn [startsWith].
    destruct (Ascii.eqb "s" c2); [|reflexivity].
    destruct s as [|c3 s]; [reflexivity|]. rewrite append_cons. cbn [startsWith].
    destruct (Ascii.eqb "o" c3); [|reflexivity].
    destruct s as [|c4 s]; [reflexivity|]. rewrite append_cons. cbn [startsWith].
    destruct (Ascii.eqb "n" c4); [|reflexivity].
    destruct s; intros H; exact H. }
  now rewrite (IH Hs).
Qed.

Lemma append_assoc3 (a b c : string) : (a +:+ b) +:+ c = a +:+ (b +:+ c).
Proof. induction a as [|x a IH]; [reflexivity|]. rewrite !append_cons. now rewrite IH. Qed.

(** The pending file the flow writes is the one the receiver looks for. *)
Lemma pendingFileOf_receiver dir mutationId :
  includes (dir +:+ "/" +:+ mutationId) ".json" = false ->
  pendingFileOf dir mutationId = join dir (mutationId +:+ "_pending.json").
Proof.
  intros H. unfold pendingFileOf, responseFileOf, join.
  replace (dir +:+ "/" +:+ mutationId +:+ ".json")
    with ((dir +:+ "/" +:+ mutationId) +:+ ".json")
    by now rewrite !append_assoc3.
  rewrite (replace_suffix _ H). now rewrite !append_assoc3.
Qed.

Lemma orElse_slack (name : string) :
  orElse (Some ("slack:" +:+ name)) "slack-user" = "slack:" +:+ name.
Proof. reflexivity. Qed.


Lemma pollOnce_reads dir mutationId stamp (files files' : FileSystem) r :
  pollOnce parseText dir mutationId stamp files = (files', Some r) ->
  files' = delete (responseFileOf dir mutationId) files
  /\ ((exists d,
         files !! responseFileOf dir mutationId = Some (FileDecision d)
         /\ r = {| res_approved := approved d;
                   res_approvedAt := Some stamp;
                   res_approvedBy := Some (orElse (Some (approvedBy d)) "slack-user");
                   res_reason := Some (reason d) |})
      \/ (exists text a by_ why,
            files !! responseFileOf dir mutationId = Some (FileText text)
            /\ parseText text = ParsedValue a by_ why
            /\ r = {| res_approved := a;
                      res_approvedAt := Some stamp;
                      res_approvedBy := Some (orElse by_ "slack-user");
                      res_reason := why |})).
Proof.
  unfold pollOnce.
  destruct (files !! responseFileOf dir mutationId) as [[d|text]|] eqn:Hfile.
  - intros [= <- <-]. split; [reflexivity|]. left. now exists d.
  - destruct (parseText text) as [| |a by_ why] eqn:Hparse; intros [= <- <-].
    split; [reflexivity|]. right. now exists text, a, by_, why.
  - discriminate.
Qed.

(** X22: the wait gives up on time and answers from the response file
    only. Once a turn reads the clock at or past the timeout the wait has
    returned. A result it returns comes from one turn, before which it was
    still waiting: either that turn read the clock at or past the timeout,
    the result is the timeout, which rejects, and the wait touched no file
    in that turn; or the turn read the clock before the timeout and found
    the response file, the result is the verdict read from that file (the
    decision a receiver wrote, or the members of the value its text parses
    to), stamped with the instant read, approved only if the file says so,
    and the file is unlinked, nothing else being changed in that turn, so
    that no decision is read twice. *)
Theorem wait_ends_and_consumes (dir mutationId : string) (startTime timeout : Z)
    (turns : list Turn) (fs : FileSystem) :
  let outcome := waitLoop parseText dir mutationId startTime timeout turns fs in
  let responseFile := responseFileOf dir mutationId in
  (Exists (fun t => timeout <= turn_now t - startTime) turns ->
   snd outcome <> None)
  /\ (forall r, snd outcome = Some r ->
        exists before t after,
          turns = before ++ t :: after
          /\ snd (waitLoop parseText dir mutationId startTime timeout before fs) = None
          /\ let files :=
               turn_files t
                 (fst (waitLoop parseText dir mutationId startTime timeout before fs)) in
             (timeout <= turn_now t - startTime
              /\ r = timedOut /\ fst outcome = files)
             \/ (turn_now t - startTime < timeout
                 /\ fst outcome = delete responseFile files
                 /\ ((exists d,
                        files !! responseFile = Some (FileDecision d)
                        /\ r = {| res_approved := approved d;
                                  res_approvedAt := Some (turn_stamp t);
                                  res_approvedBy :=
                                    Some (orElse (Some (approvedBy d)) "slack-user");
                                  res_reason := Some (reason d) |})
                     \/ (exists text a by_ why,
                           files !! responseFile = Some (FileText text)
                           /\ parseText text = ParsedValue a by_ why
                           /\ r = {| res_approved := a;
                                     res_approvedAt := Some (turn_stamp t);
                                     res_approvedBy := Some (orElse by_ "slack-user");
                                     res_reason := why |}))))
  /\ (forall r, snd outcome = Some r ->
        r = timedOut
        \/ (fst outcome !! responseFile = None /\ res_approvedAt r <> None))
  /\ (forall r, snd outcome = Some r -> res_approved r = true -> r <> timedOut).
Proof.
  cbv zeta. revert fs. induction turns as [|t turns IH]; intros fs.
  - split; [intros H; inversion H|]. split; [|split]; intros r [=].
  - cbn [waitLoop].
    destruct (Z.ltb_spec (turn_now t - startTime) timeout) as [Hlt|Hge].
    2:{ cbn [fst snd]. split; [discriminate|]. split; [|split].
        - intros r [= <-]. exists [], t, turns. cbn [waitLoop fst snd app].
          split; [reflexivity|]. split; [reflexivity|]. left. now split.
        - intros r [= <-]. now left.
        - intros r [= <-]. discriminate. }
    destruct (pollOnce parseText dir mutationId (turn_stamp t) (turn_files t fs))
      as [fs' [r|]] eqn:Hpoll.
    + cbn [fst snd]. split; [discriminate|].
      destruct (pollOnce_reads _ _ _ _ _ _ Hpoll) as [Hfs' Hread].
      assert (fs' !! responseFileOf dir mutationId = None /\ res_approvedAt r <> None)
        as Hdone.
      { split; [rewrite Hfs'; apply lookup_delete_eq|].
        destruct Hread as [(d & _ & ->)|(text & a & by_ & why & _ & _ & ->)];
          discriminate. }
      split; [|split].
      * intros r' [= <-]. exists [], t, turns. cbn [waitLoop fst snd app].
        split; [reflexivity|]. split; [reflexivity|]. right.
        split; [exact Hlt|]. split; [exact Hfs' | exact Hread].
      * intros r' [= <-]. now right.
      * intros r' [= <-] Happ Heq. destruct Hdone as [_ H]. apply H. now rewrite Heq.
    + destruct (IH fs') as (H1 & H2 & H3 & H4).
      assert (forall before,
                waitLoop parseText dir mutationId startTime timeout (t :: before) fs
                = waitLoop parseText dir mutationId startTime timeout before fs')
        as Hstep.
      { intros before. cbn [waitLoop].
        destruct (Z.ltb_spec (turn_now t - startTime) timeout); [|lia].
        now rewrite Hpoll. }
      split; [|split; [|split; assumption]].
      * intros Hex. apply H1. apply Exists_cons in Hex as [Hex|Hex]; [lia | exact Hex].
      * intros r Hr. destruct (H2 r Hr) as (before & t' & after & -> & Hwait & Hcase).
        exists (t :: before), t', after.
        split; [reflexivity|]. rewrite Hstep.
        split; [exact Hwait | exact Hcase].
Qed.

End SlackWaitFacts.



(** ** Scratchpad: usage counts, clearing and tiers *)

Section ScratchpadMoreFacts.
Import JsString Types Scratchpad ScratchpadInvariants.

Lemma fold_usage {A : Type} (f : Scratchpad -> A -> Scratchpad) (l : list A) :
  (forall sp x, toolUsage (f sp x) = toolUsage sp) ->
  forall sp, toolUsage (fold_left f l sp) = toolUsage sp.
Proof.
  intros Hf. induction l as [|x l IH]; intros sp; [reflexivity|].
  cbn [fold_left]. now rewrite IH, Hf.
Qed.

Lemma keepFullStep_usage sp s : toolUsage (keepFullStep sp s) = toolUsage sp.
Proof. unfold keepFullStep. now destruct (planTarget sp s) as [[? ?]|]. Qed.

Lemma keepCompactStep_usage sp s : toolUsage (keepCompactStep sp s) = toolUsage sp.
Proof. unfold keepCompactStep. now destruct (planTarget sp s) as [[? ?]|]. Qed.

Lemma clearStep_usage sp s : toolUsage (clearStep sp s) = toolUsage sp.
Proof. unfold clearStep. now destruct (planTarget sp s) as [[? ?]|]. Qed.

Lemma applyCompactionPlan_usage plan sp :
  toolUsage (applyCompactionPlan plan sp) = toolUsage sp.
Proof.
  unfold applyCompactionPlan.
  rewrite (fold_usage clearStep _ clearStep_usage).
  rewrite (fold_usage keepCompactStep _ keepCompactStep_usage).
  apply (fold_usage keepFullStep _ keepFullStep_usage).
Qed.

Lemma append_usage e sp :
  toolUsage (append e sp) = fold_left track (trackedOf e) (toolUsage sp).
Proof. now destruct e. Qed.

Lemma load_usage parsed : forall sp,
  toolUsage (load parsed sp)
  = fold_left track (List.concat (List.map trackedOf parsed)) (toolUsage sp).
Proof.
  unfold load. induction parsed as [|e parsed IH]; intros sp; [reflexivity|].
  cbn [fold_left List.map List.concat]. rewrite fold_left_app, IH.
  now rewrite append_usage.
Qed.

Lemma step_usage sp c :
  toolUsage (fst (step sp c)) = fold_left track (trackedBy c) (toolUsage sp).
Proof.
  destruct c as [e|e c t now iso|plan|rid c|k|parsed]; cbn [step trackedBy fst].
  - apply append_usage.
  - reflexivity.
  - apply applyCompactionPlan_usage.
  - unfold setCompactResult. now destruct (tieredResults sp !! rid).
  - reflexivity.
  - apply load_usage.
Qed.

Lemma run_usage cs : forall sp,
  toolUsage (fst (run sp cs)) = fold_left track (tracked cs) (toolUsage sp).
Proof.
  induction cs as [|c cs IH]; intros sp; [reflexivity|].
  cbn [run]. pose proof (step_usage sp c) as Hstep.
  destruct (step sp c) as [sp1 out]. specialize (IH sp1).
  destruct (run sp1 cs) as [sp2 log]. cbn [fst] in *.
  unfold tracked. cbn [List.map List.concat]. rewrite fold_left_app.
  fold (tracked cs). now rewrite IH, Hstep.
Qed.

Lemma track_lookup (t : string) (e : ToolResultEntry) (u : gmap string ToolUsageStats) :
  track u e !! t
  = if String.eqb (tool e) t
    then let stats := default {| callCount := 0; queries := [] |} (u !! t) in
         Some {| callCount := callCount stats + 1;
                 queries := queries stats ++ queryText e |}
    else u !! t.
Proof.
  unfold track, trackToolUsage. destruct (String.eqb_spec (tool e) t) as [<-|Hne].
  - rewrite lookup_insert_eq. cbv zeta. f_equal. f_equal.
    unfold queryText. destruct (queryArg (args e)); now rewrite ?List.app_nil_r.
  - now rewrite lookup_insert_ne by exact Hne.
Qed.

Lemma usage_lookup (t : string) (l : list ToolResultEntry) :
  forall u,
    fold_left track l u !! t
    = match resultsOf t l with
      | [] => u !! t
      | rs =>
          let stats := default {| callCount := 0; queries := [] |} (u !! t) in
          Some {| callCount := callCount stats + Z.of_nat (List.length rs);
                  queries := queries stats ++ List.concat (List.map queryText rs) |}
      end.
Proof.
  induction l as [|e l IH]; intros u; [reflexivity|].
  cbn [fold_left resultsOf List.filter]. rewrite IH. fold (resultsOf t l).
  rewrite track_lookup.
  destruct (String.eqb (tool e) t).
  - cbv zeta. set (stats := default {| callCount := 0; queries := [] |} (u !! t)).
    destruct (resultsOf t l) as [|r rs].
    + cbn [List.length List.map List.concat]. rewrite List.app_nil_r.
      do 2 f_equal; try reflexivity; lia.
    + simpl (default _ (Some _)). cbn [callCount queries].
      cbn [List.length List.map List.concat]. rewrite <- !List.app_assoc.
      do 2 f_equal; try reflexivity; lia.
  - reflexivity.
Qed.

(** X23: the usage of a tool counts every result recorded for it, and
    nothing resets it. After any sequence of calls on a new scratchpad, a
    tool has a usage entry exactly when a result was recorded for it
    (appended, appended with tiers, or loaded), and then [callCount] is the
    number of those results and [queries] holds their string queries in
    order; compaction and clearing change neither. *)
Theorem usage_counts_every_result (limits : gmap string Z) (cs : list Call)
    (toolName : string) :
  toolUsage (fst (run (create limits) cs)) !! toolName
  = match resultsOf toolName (tracked cs) with
    | [] => None
    | rs => Some {| callCount := Z.of_nat (List.length rs);
                    queries := List.concat (List.map queryText rs) |}
    end.
Proof.
  rewrite run_usage, usage_lookup. cbn [create toolUsage].
  rewrite lookup_empty. now destruct (resultsOf toolName (tracked cs)).
Qed.

Lemma dropOldest_spec es : forall k,
  List.filter isToolResult (dropOldest k es) = List.skipn k (List.filter isToolResult es)
  /\ List.filter (fun e => negb (isToolResult e)) (dropOldest k es)
     = List.filter (fun e => negb (isToolResult e)) es.
Proof.
  induction es as [|e es IH]; intros k; cbn [dropOldest List.filter].
  - now destruct k.
  - destruct k as [|k].
    + destruct (IH O) as [H1 H2]. cbn [List.filter].
      destruct (isToolResult e); cbn [negb]; rewrite ?H1, ?H2; cbn; auto.
    + destruct (isToolResult e) eqn:E; cbn [negb].
      * destruct (IH k) as [H1 H2]. now rewrite H1, H2.
      * destruct (IH (S k)) as [H1 H2]. cbn [List.filter]. rewrite E. cbn [negb].
        now rewrite H1, H2.
Qed.

(** X24: [clearOldestToolResults(keepCount)] drops the oldest tool results
    and nothing else: the tool results left are the ones before, without
    the first [max(0, n - keepCount)] of the [n] there were; every other
    entry stays, in order; and every result id still resolves to the same
    full result, the usage counts being untouched. *)
Theorem clearOldest_keeps_the_newest (keepCount : Z) (sp : Scratchpad) :
  List.filter isToolResult (entries (clearOldestToolResults keepCount sp))
  = List.skipn
      (Z.to_nat (Z.max 0 (Z.of_nat (List.length (List.filter isToolResult (entries sp)))
                          - keepCount)))
      (List.filter isToolResult (entries sp))
  /\ List.filter (fun e => negb (isToolResult e))
       (entries (clearOldestToolResults keepCount sp))
     = List.filter (fun e => negb (isToolResult e)) (entries sp)
  /\ (forall rid, getResultById rid (clearOldestToolResults keepCount sp)
                  = getResultById rid sp)
  /\ toolUsage (clearOldestToolResults keepCount sp) = toolUsage sp.
Proof.
  unfold clearOldestToolResults. cbn [entries toolUsage].
  set (n := Z.of_nat (List.length (List.filter isToolResult (entries sp)))).
  split; [|split; [|split; [reflexivity | reflexivity]]].
  - destruct (Z.ltb_spec 0 (Z.max 0 (n - keepCount))) as [Hpos|Hzero].
    + apply dropOldest_spec.
    + replace (Z.max 0 (n - keepCount)) with 0 by lia. reflexivity.
  - destruct (0 <? Z.max 0 (n - keepCount)); [apply dropOldest_spec | reflexivity].
Qed.

End ScratchpadMoreFacts.

Section PlanTierFacts.
Import JsString Types Scratchpad ScratchpadInvariants.

(** What a scratchpad holds for a result id once a plan touched it: the
    full result and the id it had, under a tier. *)
Lemma planTarget_names sp s rid r :
  tieredResults sp !! rid = Some r ->
  planTarget sp s = (if names rid s then Some (rid, r) else None)
  \/ (names rid s = false
      /\ exists i ri, i <> rid /\ planTarget sp s = Some (i, ri)).
Proof.
  intros Hr. unfold planTarget, names.
  destruct (Compactor.entry_resultId (Compactor.entry s)) as [i|]; [|now left].
  destruct (String.eqb i ""); cbn [negb andb]; [now left|].
  destruct (String.eqb_spec i rid) as [->|Hne].
  - left. now rewrite Hr.
  - destruct (tieredResults sp !! i) as [ri|]; [|now left].
    right. split; [reflexivity|]. now exists i, ri.
Qed.

Section OneTier.
Variable T : StorageTier.
Variable stepT : Scratchpad -> Compactor.ScoredResult -> Scratchpad.
Variable archives : bool.
Hypothesis stepT_tiered : forall sp s,
  tieredResults (stepT sp s)
  = match planTarget sp s with
    | Some (rid, r) =>
        <[rid := {| base := base r; tiered_resultId := tiered_resultId r; tier := T;
                    tiered_compact := tiered_compact
                                        (default r (tieredResults (stepT sp s) !! rid));
                    importanceScore := Some (Compactor.score s) |}]> (tieredResults sp)
    | None => tieredResults sp
    end.
Hypothesis stepT_archive : forall sp s,
  archivedResults (stepT sp s)
  = match planTarget sp s with
    | Some (rid, r) => if archives then <[rid := base r]> (archivedResults sp)
                       else archivedResults sp
    | None => archivedResults sp
    end.

Lemma stepT_spec sp s rid r :
  tieredResults sp !! rid = Some r ->
  exists r', tieredResults (stepT sp s) !! rid = Some r'
             /\ base r' = base r /\ tiered_resultId r' = tiered_resultId r
             /\ tier r' = (if names rid s then T else tier r)
             /\ archivedResults (stepT sp s) !! rid
                = if (archives && names rid s)%bool then Some (base r)
                  else archivedResults sp !! rid.
Proof.
  intros Hr. rewrite stepT_tiered, stepT_archive.
  destruct (planTarget_names sp s rid r Hr) as [->|(Hn & i & ri & Hne & ->)].
  - destruct (names rid s).
    + rewrite lookup_insert_eq. eexists. split; [reflexivity|]. cbn.
      rewrite andb_true_r. destruct archives; [now rewrite lookup_insert_eq | auto].
    + exists r. rewrite andb_false_r. auto.
  - rewrite Hn, andb_false_r, lookup_insert_ne by exact Hne. exists r.
    repeat split; trivial. destruct archives; [now rewrite lookup_insert_ne | reflexivity].
Qed.

Lemma foldT_spec l : forall sp rid r,
  tieredResults sp !! rid = Some r ->
  exists r', tieredResults (fold_left stepT l sp) !! rid = Some r'
             /\ base r' = base r /\ tiered_resultId r' = tiered_resultId r
             /\ tier r' = (if named rid l then T else tier r)
             /\ archivedResults (fold_left stepT l sp) !! rid
                = if (archives && named rid l)%bool then Some (base r)
                  else archivedResults sp !! rid.
Proof.
  induction l as [|s l IH]; intros sp rid r Hr; cbn [fold_left named existsb].
  - exists r. rewrite andb_false_r. auto.
  - destruct (stepT_spec sp s rid r Hr) as (r1 & H1 & Hb1 & Hi1 & Ht1 & Ha1).
    destruct (IH (stepT sp s) rid r1 H1) as (r' & H' & Hb' & Hi' & Ht' & Ha').
    exists r'. split; [exact H'|]. split; [congruence|]. split; [congruence|].
    fold (named rid l). split.
    + rewrite Ht', Ht1. now destruct (names rid s), (named rid l).
    + rewrite Ha', Ha1, Hb1. now destruct archives, (names rid s), (named rid l).
Qed.

End OneTier.

Lemma keepFullStep_tiered sp s :
  tieredResults (keepFullStep sp s)
  = match planTarget sp s with
    | Some (rid, r) =>
        <[rid := {| base := base r; tiered_resultId := tiered_resultId r; tier := full;
                    tiered_compact := tiered_compact
                                        (default r (tieredResults (keepFullStep sp s) !! rid));
                    importanceScore := Some (Compactor.score s) |}]> (tieredResults sp)
    | None => tieredResults sp
    end.
Proof.
  unfold keepFullStep. destruct (planTarget sp s) as [[rid r]|]; [|reflexivity].
  cbn [withTiered tieredResults]. now rewrite lookup_insert_eq.
Qed.

Lemma keepCompactStep_tiered sp s :
  tieredResults (keepCompactStep sp s)
  = match planTarget sp s with
    | Some (rid, r) =>
        <[rid := {| base := base r; tiered_resultId := tiered_resultId r; tier := compact;
                    tiered_compact :=
                      tiered_compact
                        (default r (tieredResults (keepCompactStep sp s) !! rid));
                    importanceScore := Some (Compactor.score s) |}]> (tieredResults sp)
    | None => tieredResults sp
    end.
Proof.
  unfold keepCompactStep. destruct (planTarget sp s) as [[rid r]|]; [|reflexivity].
  cbn [withTiered tieredResults]. now rewrite lookup_insert_eq.
Qed.

Lemma clearStep_tiered sp s :
  tieredResults (clearStep sp s)
  = match planTarget sp s with
    | Some (rid, r) =>
        <[rid := {| base := base r; tiered_resultId := tiered_resultId r; tier := cleared;
                    tiered_compact := tiered_compact
                                        (default r (tieredResults (clearStep sp s) !! rid));
                    importanceScore := Some (Compactor.score s) |}]> (tieredResults sp)
    | None => tieredResults sp
    end.
Proof.
  unfold clearStep. destruct (planTarget sp s) as [[rid r]|]; [|reflexivity].
  cbn [tieredResults]. now rewrite lookup_insert_eq.
Qed.

Lemma keepFullStep_archive sp s :
  archivedResults (keepFullStep sp s)
  = match planTarget sp s with
    | Some (rid, r) => if false then <[rid := base r]> (archivedResults sp)
                       else archivedResults sp
    | None => archivedResults sp
    end.
Proof. unfold keepFullStep. now destruct (planTarget sp s) as [[rid r]|]. Qed.

Lemma keepCompactStep_archive sp s :
  archivedResults (keepCompactStep sp s)
  = match planTarget sp s with
    | Some (rid, r) => if false then <[rid := base r]> (archivedResults sp)
                       else archivedResults sp
    | None => archivedResults sp
    end.
Proof. unfold keepCompactStep. now destruct (planTarget sp s) as [[rid r]|]. Qed.

Lemma clearStep_archive sp s :
  archivedResults (clearStep sp s)
  = match planTarget sp s with
    | Some (rid, r) => if true then <[rid := base r]> (archivedResults sp)
                       else archivedResults sp
    | None => archivedResults sp
    end.
Proof. unfold clearStep. now destruct (planTarget sp s) as [[rid r]|]. Qed.

(** X25: what a plan does to a result. A result the scratchpad holds
    stays held, with the same full result and id; its tier becomes cleared
    if the plan's clear list names it, else compact if the compact list
    does, else full if the full list does, else it is unchanged (no list
    names a result by an empty id); and the clear list naming it, it is
    archived under its id with its full result. *)
Theorem applyCompactionPlan_tiers (plan : Compactor.CompactionPlan) (sp : Scratchpad)
    (rid : string) (r : TieredToolResult) :
  tieredResults sp !! rid = Some r ->
  exists r',
    tieredResults (applyCompactionPlan plan sp) !! rid = Some r'
    /\ base r' = base r /\ tiered_resultId r' = tiered_resultId r
    /\ tier r' = tierAfter plan rid (tier r)
    /\ archivedResults (applyCompactionPlan plan sp) !! rid
       = if named rid (Compactor.plan_clear plan) then Some (base r)
         else archivedResults sp !! rid.
Proof.
  intros Hr. unfold applyCompactionPlan, tierAfter.
  destruct (foldT_spec full keepFullStep false keepFullStep_tiered keepFullStep_archive
              (Compactor.plan_keepFull plan) sp rid r Hr)
    as (r1 & H1 & Hb1 & Hi1 & Ht1 & Ha1).
  destruct (foldT_spec compact keepCompactStep false keepCompactStep_tiered
              keepCompactStep_archive (Compactor.plan_keepCompact plan) _ rid r1 H1)
    as (r2 & H2 & Hb2 & Hi2 & Ht2 & Ha2).
  destruct (foldT_spec cleared clearStep true clearStep_tiered clearStep_archive
              (Compactor.plan_clear plan) _ rid r2 H2)
    as (r3 & H3 & Hb3 & Hi3 & Ht3 & Ha3).
  exists r3. split; [exact H3|]. split; [congruence|]. split; [congruence|].
  cbn [andb] in *. split.
  - rewrite Ht3, Ht2, Ht1. reflexivity.
  - rewrite Ha3, Ha2, Ha1, Hb2, Hb1. reflexivity.
Qed.

Lemma applyCompactionPlan_tiers_witness :
  exists r',
    tieredResults (applyCompactionPlan ScratchpadExamples.clearingPlan
                     ScratchpadExamples.oneResult) !! "t-3v2801" = Some r'
    /\ tier r' = cleared
    /\ archivedResults (applyCompactionPlan ScratchpadExamples.clearingPlan
                          ScratchpadExamples.oneResult) !! "t-3v2801"
       = Some (stamped (Examples.queried "T" "alpha") "2023-11-14T22:13:20.000Z").
Proof.
  destruct (applyCompactionPlan_tiers ScratchpadExamples.clearingPlan
              ScratchpadExamples.oneResult "t-3v2801" _ eq_refl)
    as (r' & H1 & _ & _ & H2 & H3).
  exists r'. split; [exact H1|]. split; [exact H2 | exact H3].
Defined.

End PlanTierFacts.

(** ** Compactor: the plan and the ranking *)

Section PlanFacts.
Import JsString Types Compactor CompactorInvariants.
Local Open Scope Q_scope.

Lemma geq_true a b : geq a b = true <-> b <= a.
Proof. unfold geq. apply Qle_bool_iff. Qed.

Lemma geq_false a b : geq a b = false <-> a < b.
Proof.
  unfold geq. split.
  - intros H. apply Qnot_le_lt. intros Hle. apply Qle_bool_iff in Hle. congruence.
  - intros H. destruct (Qle_bool b a) eqn:E; [|reflexivity].
    apply Qle_bool_iff in E. exfalso. now apply (Qlt_not_le _ _ H).
Qed.

Lemma geq_false_below a b c : geq a c = false -> b <= a -> geq b c = false.
Proof. rewrite !geq_false. intros H1 H2. now apply Qle_lt_trans with a. Qed.

Lemma insertByScore_descending x l :
  descending l -> descending (insertByScore x l).
Proof.
  induction l as [|y l IH]; cbn [insertByScore descending]; [now split|].
  intros [Hy Hl]. destruct (geq (score x) (score y)) eqn:E; cbn [descending].
  - apply geq_true in E. split; [|now split].
    constructor; [exact E|].
    eapply List.Forall_impl; [|exact Hy]. intros z Hz. now apply Qle_trans with (score y).
  - apply geq_false in E. split; [|now apply IH].
    apply List.Forall_forall. intros z [->|Hz]%insertByScore_In.
    + now apply Qlt_le_weak.
    + exact (proj1 (List.Forall_forall _ _) Hy z Hz).
Qed.

Lemma sortByScore_descending l : descending (sortByScore l).
Proof.
  induction l as [|x l IH]; [exact I|].
  change (sortByScore (x :: l)) with (insertByScore x (sortByScore l)).
  now apply insertByScore_descending.
Qed.

(** The loops of [compact] and of [compactWithBudget], as one. *)
Section Allocation.
Variable testFull testCompact : Alloc -> ScoredResult -> bool.
Variable step : Alloc -> ScoredResult -> Alloc.

Hypothesis step_full : forall a r,
  al_full (step a r)
  = if testFull a r then al_full a ++ [setKeepFull true r] else al_full a.
Hypothesis step_compact : forall a r,
  al_compact (step a r)
  = if testFull a r then al_compact a
    else if testCompact a r then al_compact a ++ [setKeepFull false r] else al_compact a.
Hypothesis step_clear : forall a r,
  al_clear (step a r)
  = if testFull a r then al_clear a
    else if testCompact a r then al_clear a else al_clear a ++ [setKeepFull false r].
Hypothesis full_stays_shut : forall a r x,
  testFull a r = false -> score x <= score r -> testFull (step a r) x = false.
Hypothesis compact_stays_shut : forall a r x,
  testFull a r = false -> testCompact a r = false -> score x <= score r ->
  testCompact (step a r) x = false.

Lemma map_unflag_snoc l b r :
  List.map unflag (l ++ [setKeepFull b r]) = List.map unflag l ++ [unflag r].
Proof. now rewrite List.map_app. Qed.

Lemma step_settled a r rest :
  Forall (fun y => score y <= score r) rest ->
  settled testFull testCompact a (r :: rest) ->
  settled testFull testCompact (step a r) rest
  /\ List.map unflag (allOf (step a r)) = List.map unflag (allOf a) ++ [unflag r].
Proof.
  intros Hbelow [Hfull Hcompact]. unfold allOf, settled.
  rewrite step_full, step_compact, step_clear.
  assert (forall l : list ScoredResult, l <> [] \/ l = []) as Hnil
    by (intros [|]; [now right | now left]).
  destruct (testFull a r) eqn:E1.
  - assert (al_compact a = [] /\ al_clear a = []) as [Hc Hl].
    { destruct (Hnil (al_compact a)) as [H|H], (Hnil (al_clear a)) as [H'|H']; auto;
        (assert (testFull a r = false)
           by (apply (Forall_inv (Hfull ltac:(auto)))); congruence). }
    rewrite Hc, Hl, !List.app_nil_r. split; [|apply map_unflag_snoc].
    split; [intros [[]|[]]; reflexivity | intros []; reflexivity].
  - destruct (testCompact a r) eqn:E2.
    + assert (al_clear a = []) as Hl.
      { destruct (Hnil (al_clear a)) as [H|H]; [|exact H].
        assert (testCompact a r = false) by (apply (Forall_inv (Hcompact H))). congruence. }
      rewrite Hl, !List.app_nil_r. split.
      * split; [|intros []; reflexivity]. intros _.
        apply List.Forall_forall. intros x Hx. apply full_stays_shut; [exact E1|].
        exact (proj1 (List.Forall_forall _ _) Hbelow x Hx).
      * now rewrite List.app_assoc, map_unflag_snoc.
    + split.
      * split; intros _; apply List.Forall_forall; intros x Hx;
          [apply full_stays_shut | apply compact_stays_shut]; trivial;
          exact (proj1 (List.Forall_forall _ _) Hbelow x Hx).
      * now rewrite !List.app_assoc, map_unflag_snoc.
Qed.

Lemma fold_segments l : forall a,
  descending l -> settled testFull testCompact a l ->
  List.map unflag (allOf (fold_left step l a))
  = List.map unflag (allOf a) ++ List.map unflag l.
Proof.
  induction l as [|r l IH]; intros a Hsorted Hset; cbn [fold_left List.map].
  - now rewrite List.app_nil_r.
  - destruct Hsorted as [Hbelow Hsorted].
    destruct (step_settled a r l Hbelow Hset) as [Hset' Hmap].
    rewrite (IH _ Hsorted Hset'), Hmap, <- List.app_assoc. reflexivity.
Qed.

Lemma fold_flags l : forall a,
  Forall (fun r => keepFull r = true) (al_full a) ->
  Forall (fun r => keepFull r = false) (al_compact a ++ al_clear a) ->
  Forall (fun r => keepFull r = true) (al_full (fold_left step l a))
  /\ Forall (fun r => keepFull r = false)
       (al_compact (fold_left step l a) ++ al_clear (fold_left step l a)).
Proof.
  induction l as [|r l IH]; intros a H1 H2; cbn [fold_left]; [now split|].
  apply IH; rewrite ?step_full, ?step_compact, ?step_clear.
  - destruct (testFull a r); [|exact H1]. apply Forall_app. split; [exact H1|].
    now repeat constructor.
  - apply Forall_app in H2 as [H2 H3].
    destruct (testFull a r); [apply Forall_app; now split|].
    destruct (testCompact a r); apply Forall_app; split; trivial;
      apply Forall_app; split; trivial; now repeat constructor.
Qed.

Variable lowFull lowCompact : Q.
Hypothesis full_scores : forall a r, testFull a r = true -> lowFull <= score r.
Hypothesis compact_scores : forall a r, testCompact a r = true -> lowCompact <= score r.

Lemma fold_thresholds l : forall a,
  Forall (fun r => lowFull <= score r) (al_full a) ->
  Forall (fun r => lowCompact <= score r) (al_compact a) ->
  Forall (fun r => lowFull <= score r) (al_full (fold_left step l a))
  /\ Forall (fun r => lowCompact <= score r) (al_compact (fold_left step l a)).
Proof.
  induction l as [|r l IH]; intros a H1 H2; cbn [fold_left]; [now split|].
  apply IH; rewrite ?step_full, ?step_compact.
  - destruct (testFull a r) eqn:E; [|exact H1]. apply Forall_app. split; [exact H1|].
    constructor; [|constructor]. cbn. now apply (full_scores a).
  - destruct (testFull a r); [exact H2|].
    destruct (testCompact a r) eqn:E; [|exact H2]. apply Forall_app. split; [exact H2|].
    constructor; [|constructor]. cbn. now apply (compact_scores a).
Qed.

End Allocation.

Lemma countStep_full cfg a r :
  al_full (countStep cfg a r)
  = if countFull cfg a r then al_full a ++ [setKeepFull true r] else al_full a.
Proof.
  unfold countStep. fold (countFull cfg a r). fold (countCompact cfg a r).
  now destruct (countFull cfg a r), (countCompact cfg a r).
Qed.

Lemma countStep_compact cfg a r :
  al_compact (countStep cfg a r)
  = if countFull cfg a r then al_compact a
    else if countCompact cfg a r then al_compact a ++ [setKeepFull false r]
         else al_compact a.
Proof.
  unfold countStep. fold (countFull cfg a r). fold (countCompact cfg a r).
  now destruct (countFull cfg a r), (countCompact cfg a r).
Qed.

Lemma countStep_clear cfg a r :
  al_clear (countStep cfg a r)
  = if countFull cfg a r then al_clear a
    else if countCompact cfg a r then al_clear a
         else al_clear a ++ [setKeepFull false r].
Proof.
  unfold countStep. fold (countFull cfg a r). fold (countCompact cfg a r).
  now destruct (countFull cfg a r), (countCompact cfg a r).
Qed.

Lemma countFull_stays_shut cfg a r x :
  countFull cfg a r = false -> score x <= score r ->
  countFull cfg (countStep cfg a r) x = false.
Proof.
  intros H Hx. unfold countFull at 1. rewrite countStep_full, H.
  unfold countFull in H. apply andb_false_iff in H as [H|H].
  - now rewrite H.
  - rewrite (geq_false_below _ _ _ H Hx). apply andb_false_r.
Qed.

Lemma countCompact_stays_shut cfg a r x :
  countFull cfg a r = false -> countCompact cfg a r = false -> score x <= score r ->
  countCompact cfg (countStep cfg a r) x = false.
Proof.
  intros H1 H Hx. unfold countCompact at 1. rewrite countStep_compact, H1, H.
  unfold countCompact in H. apply andb_false_iff in H as [H|H].
  - now rewrite H.
  - rewrite (geq_false_below _ _ _ H Hx). apply andb_false_r.
Qed.

Lemma budgetStep_full cfg b a r :
  al_full (budgetStep cfg b a r)
  = if budgetFull cfg b a r then al_full a ++ [setKeepFull true r] else al_full a.
Proof.
  unfold budgetStep. cbv zeta. fold (budgetFull cfg b a r). fold (budgetCompact cfg b a r).
  now destruct (budgetFull cfg b a r), (budgetCompact cfg b a r).
Qed.

Lemma budgetStep_compact cfg b a r :
  al_compact (budgetStep cfg b a r)
  = if budgetFull cfg b a r then al_compact a
    else if budgetCompact cfg b a r then al_compact a ++ [setKeepFull false r]
         else al_compact a.
Proof.
  unfold budgetStep. cbv zeta. fold (budgetFull cfg b a r). fold (budgetCompact cfg b a r).
  now destruct (budgetFull cfg b a r), (budgetCompact cfg b a r).
Qed.

Lemma budgetStep_clear cfg b a r :
  al_clear (budgetStep cfg b a r)
  = if budgetFull cfg b a r then al_clear a
    else if budgetCompact cfg b a r then al_clear a
         else al_clear a ++ [setKeepFull false r].
Proof.
  unfold budgetStep. cbv zeta. fold (budgetFull cfg b a r). fold (budgetCompact cfg b a r).
  now destruct (budgetFull cfg b a r), (budgetCompact cfg b a r).
Qed.

Lemma budgetStep_used cfg b a r :
  al_used (budgetStep cfg b a r)
  = (if budgetFull cfg b a r then al_used a + tokensPerFullResult cfg
     else if budgetCompact cfg b a r then al_used a + tokensPerCompactResult cfg
          else al_used a)%Z.
Proof.
  unfold budgetStep. cbv zeta. fold (budgetFull cfg b a r). fold (budgetCompact cfg b a r).
  now destruct (budgetFull cfg b a r), (budgetCompact cfg b a r).
Qed.

Lemma budgetFull_stays_shut cfg b a r x :
  (0 <= tokensPerCompactResult cfg)%Z ->
  budgetFull cfg b a r = false -> score x <= score r ->
  budgetFull cfg b (budgetStep cfg b a r) x = false.
Proof.
  intros HC H Hx. unfold budgetFull at 1. rewrite budgetStep_used, H.
  unfold budgetFull in H. apply andb_false_iff in H as [H|H].
  - apply Z.leb_gt in H. apply andb_false_iff. left. apply Z.leb_gt.
    destruct (budgetCompact cfg b a r); lia.
  - rewrite (geq_false_below _ _ _ H Hx). apply andb_false_r.
Qed.

Lemma budgetCompact_stays_shut cfg b a r x :
  budgetFull cfg b a r = false -> budgetCompact cfg b a r = false -> score x <= score r ->
  budgetCompact cfg b (budgetStep cfg b a r) x = false.
Proof.
  intros H1 H Hx. unfold budgetCompact at 1. rewrite budgetStep_used, H1, H.
  unfold budgetCompact in H. apply andb_false_iff in H as [H|H].
  - now rewrite H.
  - rewrite (geq_false_below _ _ _ H Hx). apply andb_false_r.
Qed.

Lemma insertByScore_Permutation x l : Permutation (insertByScore x l) (x :: l).
Proof.
  induction l as [|y l IH]; cbn [insertByScore]; [reflexivity|].
  destruct (geq (score x) (score y)); [reflexivity|].
  rewrite IH. apply perm_swap.
Qed.

Lemma sortByScore_Permutation l : Permutation (sortByScore l) l.
Proof.
  induction l as [|x l IH]; [reflexivity|].
  change (sortByScore (x :: l)) with (insertByScore x (sortByScore l)).
  now rewrite insertByScore_Permutation, IH.
Qed.

Lemma scoreAll_entries cfg q st total rs : forall index,
  List.map entry (scoreAll cfg q st total rs index) = List.map fst rs.
Proof.
  induction rs as [|[e c] rs IH]; intros index; cbn [scoreAll List.map]; [reflexivity|].
  now rewrite IH.
Qed.

Lemma settled_empty f g l : settled f g emptyAlloc l.
Proof. split; [intros [H|H] | intros H]; now contradiction H. Qed.

Lemma compact_allocates cfg results query st tokenBudget :
  compact cfg results query st tokenBudget
  = allocate cfg (scoreAll cfg query st (List.length results) results O) tokenBudget.
Proof. reflexivity. Qed.


Lemma countStep_caps cfg l : forall a,
  (Z.of_nat (List.length (al_full a)) <= Z.max 0 (maxFullResults cfg))%Z ->
  (Z.of_nat (List.length (al_compact a)) <= Z.max 0 (maxCompactResults cfg))%Z ->
  (Z.of_nat (List.length (al_full (fold_left (countStep cfg) l a)))
   <= Z.max 0 (maxFullResults cfg))%Z
  /\ (Z.of_nat (List.length (al_compact (fold_left (countStep cfg) l a)))
      <= Z.max 0 (maxCompactResults cfg))%Z.
Proof.
  induction l as [|r l IH]; intros a H1 H2; cbn [fold_left]; [now split|].
  apply IH; rewrite ?countStep_full, ?countStep_compact.
  - unfold countFull.
    destruct (Z.ltb_spec (Z.of_nat (List.length (al_full a))) (maxFullResults cfg));
      cbn [andb]; [|exact H1].
    destruct (geq _ _); [|exact H1]. rewrite List.length_app. cbn [List.length]. lia.
  - destruct (countFull cfg a r); [exact H2|]. unfold countCompact.
    destruct (Z.ltb_spec (Z.of_nat (List.length (al_compact a))) (maxCompactResults cfg));
      cbn [andb]; [|exact H2].
    destruct (geq _ _); [|exact H2]. rewrite List.length_app. cbn [List.length]. lia.
Qed.

Lemma budgetStep_used_spec cfg b l : forall a,
  (al_used a = Z.of_nat (List.length (al_full a)) * tokensPerFullResult cfg
               + Z.of_nat (List.length (al_compact a)) * tokensPerCompactResult cfg)%Z ->
  (al_used a <= Z.max 0 b)%Z ->
  let a' := fold_left (budgetStep cfg b) l a in
  (al_used a' = Z.of_nat (List.length (al_full a')) * tokensPerFullResult cfg
                + Z.of_nat (List.length (al_compact a')) * tokensPerCompactResult cfg)%Z
  /\ (al_used a' <= Z.max 0 b)%Z.
Proof.
  induction l as [|r l IH]; intros a H1 H2; cbn [fold_left]; [now split|].
  apply IH; rewrite budgetStep_used, ?budgetStep_full, ?budgetStep_compact.
  - destruct (budgetFull cfg b a r).
    + rewrite List.length_app. cbn [List.length]. lia.
    + destruct (budgetCompact cfg b a r); [|exact H1].
      rewrite List.length_app. cbn [List.length]. lia.
  - destruct (budgetFull cfg b a r) eqn:E1.
    + apply andb_true_iff in E1 as [E1 _]. apply Z.leb_le in E1. lia.
    + destruct (budgetCompact cfg b a r) eqn:E2; [|exact H2].
      apply andb_true_iff in E2 as [E2 _]. apply Z.leb_le in E2. lia.
Qed.

(** X27: the plan keeps to its caps. Without a token budget (or with
    budget 0) at most [maxFullResults] results are kept full and at most
    [maxCompactResults] compact; with a budget the tokens charged for the
    results kept, full and compact, stay within it. In both cases
    [estimatedTokensSaved] is the full cost of every result less the cost
    of those kept. *)
Theorem plan_respects_caps (cfg : CompactorConfig)
    (results : list (PlanEntry * option CompactToolResult)) (query : string)
    (st : option Memory.InvestigationState) (tokenBudget : option Z) :
  let plan := compact cfg results query st tokenBudget in
  let fullCount := Z.of_nat (List.length (plan_keepFull plan)) in
  let compactCount := Z.of_nat (List.length (plan_keepCompact plan)) in
  (estimatedTokensSaved plan
   = Z.of_nat (List.length results) * tokensPerFullResult cfg
     - fullCount * tokensPerFullResult cfg
     - compactCount * tokensPerCompactResult cfg)%Z
  /\ if match tokenBudget with Some b => negb (b =? 0)%Z | None => false end
     then (fullCount * tokensPerFullResult cfg
           + compactCount * tokensPerCompactResult cfg
           <= Z.max 0 (default 0%Z tokenBudget))%Z
     else (fullCount <= Z.max 0 (maxFullResults cfg))%Z
          /\ (compactCount <= Z.max 0 (maxCompactResults cfg))%Z.
Proof.
  cbv zeta. unfold compact. fold (ranking cfg results query st).
  assert (List.length (ranking cfg results query st) = List.length results) as Hlen
    by (unfold ranking; now rewrite sortByScore_length, scoreAll_length).
  assert (forall b,
    let plan := compactWithBudget cfg (ranking cfg results query st) b in
    (estimatedTokensSaved plan
     = Z.of_nat (List.length results) * tokensPerFullResult cfg
       - Z.of_nat (List.length (plan_keepFull plan)) * tokensPerFullResult cfg
       - Z.of_nat (List.length (plan_keepCompact plan)) * tokensPerCompactResult cfg)%Z
    /\ (Z.of_nat (List.length (plan_keepFull plan)) * tokensPerFullResult cfg
        + Z.of_nat (List.length (plan_keepCompact plan)) * tokensPerCompactResult cfg
        <= Z.max 0 b)%Z) as Hbudget.
  { intros b. cbv zeta. unfold compactWithBudget.
    cbn [plan_keepFull plan_keepCompact estimatedTokensSaved].
    destruct (budgetStep_used_spec cfg b (ranking cfg results query st) emptyAlloc)
      as [H1 H2]; [reflexivity | cbn; lia |].
    cbv zeta in H1, H2. rewrite Hlen. lia. }
  assert (let plan := compactByCount cfg (ranking cfg results query st) in
    (estimatedTokensSaved plan
     = Z.of_nat (List.length results) * tokensPerFullResult cfg
       - Z.of_nat (List.length (plan_keepFull plan)) * tokensPerFullResult cfg
       - Z.of_nat (List.length (plan_keepCompact plan)) * tokensPerCompactResult cfg)%Z
    /\ (Z.of_nat (List.length (plan_keepFull plan)) <= Z.max 0 (maxFullResults cfg))%Z
    /\ (Z.of_nat (List.length (plan_keepCompact plan))
        <= Z.max 0 (maxCompactResults cfg))%Z) as Hcount.
  { cbv zeta. unfold compactByCount.
    cbn [plan_keepFull plan_keepCompact estimatedTokensSaved]. rewrite Hlen.
    split; [reflexivity|].
    apply countStep_caps; cbn; lia. }
  destruct tokenBudget as [b|]; [|exact Hcount].
  destruct (b =? 0)%Z; cbn [negb default]; [exact Hcount | apply Hbudget].
Qed.


End PlanFacts.

(** ** Investigation memory: what a run of calls keeps *)

Section MemoryRunFacts.
Import JsString Memory MemoryOps.

Lemma call_notes st c :
  exists added,
    notes (call st c) = notes st ++ added
    /\ List.length added = (if addsNote c then 1 else 0)%nat
    /\ Forall (fun n => iteration n = currentIteration st) added
    /\ currentIteration (call st c)
       = (currentIteration st + (if advances c then 1 else 0))%nat.
Proof.
  assert (forall ty text o env st',
            notes st' = notes st -> currentIteration st' = currentIteration st ->
            exists added,
              notes (fst (addNote ty text o env st')) = notes st ++ added
              /\ List.length added = 1%nat
              /\ Forall (fun n => iteration n = currentIteration st) added
              /\ currentIteration (fst (addNote ty text o env st'))
                 = (currentIteration st + 0)%nat) as Hadd.
  { intros ty text o env st' Hn Hi. eexists [_]. cbn. rewrite Hn, Hi.
    split; [reflexivity|]. split; [reflexivity|]. split; [|lia].
    constructor; [reflexivity | constructor]. }
  assert (forall st', notes st' = notes st -> currentIteration st' = currentIteration st ->
            exists added : list InvestigationNote,
              notes st' = notes st ++ added
              /\ List.length added = 0%nat
              /\ Forall (fun n => iteration n = currentIteration st) added
              /\ currentIteration st' = (currentIteration st + 0)%nat) as Hkeep.
  { intros st' Hn Hi. exists []. rewrite List.app_nil_r. repeat split; auto. lia. }
  destruct c; cbn [call addsNote advances].
  - now apply Hadd.
  - unfold addSymptom. apply Hadd; now destruct (mem text (symptomsIdentified st)).
  - now apply Hadd.
  - now apply Hadd.
  - now apply Hadd.
  - unfold addServiceImpact. apply Hadd; now destruct (mem svc (servicesDiscovered st)).
  - apply Hkeep; unfold addDiscoveredServices; now destruct (List.filter _ _).
  - now apply Hkeep.
  - exists []. cbn. rewrite List.app_nil_r. repeat split; auto. lia.
Qed.

Lemma run_notes cs : forall st,
  exists added,
    notes (run st cs) = notes st ++ added
    /\ List.length added = List.length (List.filter addsNote cs)
    /\ Forall (fun n => (currentIteration st <= iteration n
                         /\ iteration n <= currentIteration (run st cs))%nat) added
    /\ currentIteration (run st cs)
       = (currentIteration st + List.length (List.filter advances cs))%nat.
Proof.
  induction cs as [|c cs IH]; intros st.
  - exists []. cbn. rewrite List.app_nil_r. repeat split; auto; lia.
  - destruct (call_notes st c) as (a1 & Hn1 & Hl1 & Hi1 & Hc1).
    destruct (IH (call st c)) as (a2 & Hn2 & Hl2 & Hi2 & Hc2).
    change (run st (c :: cs)) with (run (call st c) cs).
    exists (a1 ++ a2). split; [now rewrite Hn2, Hn1, List.app_assoc|].
    split; [|split].
    + rewrite List.length_app, Hl1, Hl2. cbn [List.filter].
      destruct (addsNote c); cbn; lia.
    + apply Forall_app. split.
      * eapply List.Forall_impl; [|exact Hi1]. cbn. intros n ->. lia.
      * eapply List.Forall_impl; [|exact Hi2]. cbn. intros n Hn. lia.
    + rewrite Hc2, Hc1. cbn [List.filter]. destruct (advances c); cbn; lia.
Qed.

Lemma mem_In x l : mem x l = true <-> In x l.
Proof. apply mem_true_iff. Qed.

Lemma NoDup_push x l :
  List.NoDup l -> List.NoDup (if mem x l then l else l ++ [x]).
Proof.
  intros H. destruct (mem x l) eqn:E; [exact H|].
  apply List.NoDup_app; [exact H | repeat constructor; intros [] |].
  intros y Hy [<-|[]]. apply mem_In in Hy. congruence.
Qed.

(** The three lists the memory keeps without repeats. *)
Lemma call_lists st c :
  List.NoDup (activeHypotheses st) /\ List.NoDup (prunedHypotheses st)
  /\ List.NoDup (symptomsIdentified st) ->
  List.NoDup (activeHypotheses (call st c)) /\ List.NoDup (prunedHypotheses (call st c))
  /\ List.NoDup (symptomsIdentified (call st c)).
Proof.
  intros (Ha & Hp & Hs). destruct c; cbn [call]; try (now repeat split).
  - unfold addSymptom. pose proof (NoDup_push text _ Hs).
    destruct (mem text (symptomsIdentified st)); cbn; auto.
  - destruct action; cbn; repeat split; trivial.
    + now apply NoDup_push.
    + now apply List.NoDup_filter.
    + now apply NoDup_push.
    + now apply NoDup_push.
  - unfold addServiceImpact. destruct (mem svc (servicesDiscovered st)); cbn; auto.
  - unfold addDiscoveredServices. destruct (List.filter _ _); cbn; auto.
Qed.

(** X28: the notes are a log. Between any two points of the life of a
    memory, the notes taken before are still there, unchanged and in
    order; each call that records a finding added exactly one note,
    stamped with an iteration between the iteration then and the iteration
    now; the iteration grew by the number of [advanceIteration] calls; and
    the lists of active hypotheses, of pruned hypotheses and of symptoms
    hold no id or symptom twice. *)
Theorem notes_are_a_log (q : string) (incident : option string) (sid now : string)
    (before more : list MemoryCall) :
  (exists added,
      notes (run (run (initialState q incident sid now) before) more)
      = notes (run (initialState q incident sid now) before) ++ added
      /\ List.length added = List.length (List.filter addsNote more)
      /\ Forall (fun n =>
                   (currentIteration (run (initialState q incident sid now) before)
                    <= iteration n
                    /\ iteration n
                       <= currentIteration
                            (run (run (initialState q incident sid now) before) more))%nat)
           added)
  /\ currentIteration (run (run (initialState q incident sid now) before) more)
     = (currentIteration (run (initialState q incident sid now) before)
        + List.length (List.filter advances more))%nat
  /\ List.NoDup (activeHypotheses (run (run (initialState q incident sid now) before) more))
  /\ List.NoDup (prunedHypotheses (run (run (initialState q incident sid now) before) more))
  /\ List.NoDup
       (symptomsIdentified (run (run (initialState q incident sid now) before) more)).
Proof.
  destruct (run_notes more (run (initialState q incident sid now) before))
    as (added & H1 & H2 & H3 & H4).
  split; [now exists added|]. split; [exact H4|].
  unfold run. rewrite <- fold_left_app.
  apply (fold_left_preserves
           (fun st => List.NoDup (activeHypotheses st) /\ List.NoDup (prunedHypotheses st)
                      /\ List.NoDup (symptomsIdentified st))).
  - intros st c _. apply call_lists.
  - cbn. repeat split; constructor.
Qed.

End MemoryRunFacts.

(** ** Impact analysis: the paths and the blast radius *)

Section ImpactFacts.
Import JsString JsMap Graph ServiceContext ImpactInvariants.

Lemma walkIn_snoc g up a rest z b :
  walkIn g up a rest z -> stepIn g up z b -> walkIn g up a (rest ++ [b]) b.
Proof.
  revert a. induction rest as [|c rest IH]; intros a; cbn.
  - intros <- H. now split.
  - intros [H1 H2] H. split; [exact H1 | now apply IH].
Qed.

Lemma traverse_follows g up serviceId bound budget :
  forall current rest crit st,
    walkIn g up serviceId rest current ->
    (S (List.length rest) + budget <= bound)%nat ->
    Forall (followsEdges g up serviceId bound) (fst st) ->
    Forall (followsEdges g up serviceId bound)
      (fst (traverse g up serviceId budget current (serviceId :: rest) crit st)).
Proof.
  induction budget as [|budget IH]; intros current rest crit st Hw Hb Hst; [exact Hst|].
  cbn [traverse]. destruct (mem current (snd st)); [exact Hst|].
  set (ids := default [] (mget current (if up then incoming g else outgoing g))).
  assert (forall eid, In eid ids ->
            In eid (default [] (mget current (if up then incoming g else outgoing g))))
    as Hids by auto.
  clearbody ids.
  assert (Forall (followsEdges g up serviceId bound) (fst (fst st, sadd current (snd st))))
    as Hst' by exact Hst.
  revert Hst'. generalize (fst st, sadd current (snd st)).
  induction ids as [|eid ids IHids]; intros st' Hst'; [exact Hst'|].
  cbn [fold_left]. apply IHids; [intros ? ?; apply Hids; now right|].
  destruct (mget eid (edges g)) as [e|] eqn:E; [|exact Hst'].
  set (next := if up then source e else target e).
  assert (stepIn g up current next) as Hstep.
  { exists eid, e. split; [apply Hids; now left | now split]. }
  change ((serviceId :: rest) ++ [next]) with (serviceId :: (rest ++ [next])).
  apply IH.
  - now apply (walkIn_snoc g up serviceId rest current).
  - rewrite List.length_app. cbn. lia.
  - cbn [fst]. apply Forall_app. split; [exact Hst'|].
    constructor; [|constructor]. exists (rest ++ [next]). cbn.
    split; [reflexivity|]. split; [now apply (walkIn_snoc g up serviceId rest current)|].
    rewrite List.length_app. cbn. split; lia.
Qed.

Lemma insertByHops_ascending p l : ascendingHops l -> ascendingHops (insertByHops p l).
Proof.
  induction l as [|q l IH]; cbn [insertByHops ascendingHops]; [now split|].
  intros [Hq Hl]. destruct (Nat.leb_spec (hops p) (hops q)); cbn [ascendingHops].
  - split; [|now split]. constructor; [assumption|].
    eapply List.Forall_impl; [|exact Hq]. cbn. intros; lia.
  - split; [|now apply IH]. apply List.Forall_forall.
    intros r [->|Hr]%insertByHops_In; [lia|].
    exact (proj1 (List.Forall_forall _ _) Hq r Hr).
Qed.

Lemma sortByHops_ascending l : ascendingHops (sortByHops l).
Proof.
  induction l as [|p l IH]; [exact I|].
  change (sortByHops (p :: l)) with (insertByHops p (sortByHops l)).
  now apply insertByHops_ascending.
Qed.

(** X29: the impact paths follow the edges. Every path returned by
    [getUpstreamImpact] starts at the service asked about and walks, edge
    by edge against the direction of the dependencies, to the service it
    names as affected; every path of [getDownstreamImpact] does so along
    them. [hops] counts the services of the path, the first included, and
    is at most [maxDepth + 2]; the paths come in ascending order of
    [hops]. *)
Theorem impact_paths_follow_edges (g : ServiceGraph) (serviceId : string)
    (maxDepth : option Z) :
  Forall (followsEdges g true serviceId (S (Z.to_nat (default 5 maxDepth + 1))))
    (getUpstreamImpact g serviceId maxDepth)
  /\ ascendingHops (getUpstreamImpact g serviceId maxDepth)
  /\ Forall (followsEdges g false serviceId (S (Z.to_nat (default 5 maxDepth + 1))))
       (getDownstreamImpact g serviceId maxDepth)
  /\ ascendingHops (getDownstreamImpact g serviceId maxDepth).
Proof.
  unfold getUpstreamImpact, getDownstreamImpact.
  repeat split; try apply sortByHops_ascending;
    apply sortByHops_Forall;
    apply (traverse_follows g _ serviceId _ _ serviceId []); cbn; auto; lia.
Qed.

Lemma blastStep_critical g a p :
  impact_criticality p = critical ->
  Forall2 (reaches g) (acc_paths a) (acc_critical a) ->
  Forall (fun q => In (affected q) (acc_seen a)) (acc_paths a) ->
  List.NoDup (List.map affected (acc_paths a)) ->
  (forall x, In x (acc_seen a) -> In x (acc_seen (blastStep g a p)))
  /\ Forall2 (reaches g) (acc_paths (blastStep g a p)) (acc_critical (blastStep g a p))
  /\ Forall (fun q => In (affected q) (acc_seen (blastStep g a p)))
       (acc_paths (blastStep g a p))
  /\ List.NoDup (List.map affected (acc_paths (blastStep g a p))).
Proof.
  intros Hc H2 Hseen Hnd. unfold blastStep.
  destruct (mem (affected p) (acc_seen a)) eqn:Hm; [now repeat split|].
  assert (~ In (affected p) (acc_seen a)) as Hnew
    by (intros H; apply mem_true_iff in H; congruence).
  assert (forall x, In x (acc_seen a) -> In x (sadd (affected p) (acc_seen a))) as Hmono
    by (intros x Hx; apply sadd_In; now right).
  assert (Forall (fun q => In (affected q) (sadd (affected p) (acc_seen a))) (acc_paths a))
    as Hseen' by (eapply List.Forall_impl; [|exact Hseen]; cbn; auto).
  destruct (getService (affected p) g) as [s|] eqn:Hs; cbn; [|now repeat split].
  rewrite Hc. cbn [isCritical]. rewrite andb_true_r.
  destruct (isCriticalTier (tier s)) eqn:Ht; [|now repeat split].
  split; [exact Hmono|]. split; [|split].
  - apply Forall2_app; [exact H2|]. constructor; [|constructor].
    split; [exact Hs|]. destruct (tier s) as [[]|]; try discriminate. reflexivity.
  - apply Forall_app. split; [exact Hseen'|]. constructor; [|constructor].
    apply sadd_In. now left.
  - rewrite List.map_app. apply List.NoDup_app; [exact Hnd | repeat constructor; intros [] |].
    intros x Hx [<-|[]]. apply in_map_iff in Hx as (q & Hq & Hin).
    apply Hnew. rewrite <- Hq. exact (proj1 (List.Forall_forall _ _) Hseen q Hin).
Qed.

(** X30: the critical paths of a blast radius. [calculateBlastRadius]
    lists exactly one critical path for each critical-tier service it
    reports affected, in the same order, the path leading to that service:
    the test on the criticality of the path excludes none, every impact
    path being critical. *)
Theorem blast_radius_critical_paths (g : ServiceGraph) (maxDependentsDepth : Z)
    (serviceId : string) :
  Forall2 (reaches g)
    (criticalPaths (calculateBlastRadius g maxDependentsDepth serviceId))
    (criticalServicesAffected (calculateBlastRadius g maxDependentsDepth serviceId))
  /\ List.NoDup
       (List.map affected
          (criticalPaths (calculateBlastRadius g maxDependentsDepth serviceId)))
  /\ Forall (fun p => In p (getUpstreamImpact g serviceId (Some maxDependentsDepth)))
       (criticalPaths (calculateBlastRadius g maxDependentsDepth serviceId)).
Proof.
  unfold calculateBlastRadius. cbn [criticalPaths criticalServicesAffected].
  assert (Forall (fun p => impact_criticality p = critical)
            (getUpstreamImpact g serviceId (Some maxDependentsDepth))) as Hcrit.
  { apply List.Forall_forall. intros p Hp.
    now apply (impact_wellFormed g true serviceId (Some maxDependentsDepth) p). }
  set (ps := getUpstreamImpact g serviceId (Some maxDependentsDepth)) in *.
  assert (forall l a,
            Forall (fun p => impact_criticality p = critical) l ->
            Forall2 (reaches g) (acc_paths a) (acc_critical a) ->
            Forall (fun q => In (affected q) (acc_seen a)) (acc_paths a) ->
            List.NoDup (List.map affected (acc_paths a)) ->
            (forall p, In p (acc_paths a) -> In p ps) ->
            (forall p, In p l -> In p ps) ->
            let a' := fold_left (blastStep g) l a in
            Forall2 (reaches g) (acc_paths a') (acc_critical a')
            /\ List.NoDup (List.map affected (acc_paths a'))
            /\ (forall p, In p (acc_paths a') -> In p ps)) as Hloop.
  { induction l as [|p l IH]; intros a Hl H2 Hseen Hnd Hin Hl'; cbn [fold_left].
    - now repeat split.
    - apply Forall_cons in Hl as [Hp Hl].
      destruct (blastStep_critical g a p Hp H2 Hseen Hnd) as (_ & H2' & Hseen' & Hnd').
      apply IH; trivial.
      + intros q. unfold blastStep.
        destruct (mem (affected p) (acc_seen a)); [apply Hin|].
        destruct (getService (affected p) g); cbn; [|apply Hin].
        destruct (isCriticalTier _ && isCritical _)%bool; [|apply Hin].
        intros [H|[<-|[]]]%in_app_iff; [now apply Hin | apply Hl'; now left].
      + intros q Hq. apply Hl'. now right. }
  destruct (Hloop ps {| acc_direct := []; acc_transitive := []; acc_critical := [];
                        acc_paths := []; acc_seen := [] |} Hcrit
              (List.Forall2_nil _) (List.Forall_nil _) (List.NoDup_nil _)
              (fun p (H : In p []) => match H with end) (fun p H => H))
    as (H1 & H2 & H3).
  split; [exact H1|]. split; [exact H2|]. now apply List.Forall_forall.
Qed.

End ImpactFacts.
